(** * The RAG query orchestrator of [src/services/ragQueryService.ts]

    A shallow embedding of the class [RAGQueryService]: its pure helpers
    ([validateQuestion], [generateSearchQueries], [deduplicateChunks],
    [estimateCost], [parseModelResponse], [calculateReadingTime]) as
    functions, and its asynchronous methods ([askQuestion],
    [generateResponseWithFallback], [logAIUsage], ...) in a small monad that
    threads the state of the external services, carries a thrown exception,
    and records every call made to a collaborator. *)

From Stdlib Require Import Ascii String QArith Qround Lqa DecimalString.
From stdpp Require Import gmap strings list sorting.

Local Open Scope string_scope.
Local Open Scope list_scope.
Local Open Scope Z_scope.
Local Open Scope nat_scope.

(** ** JavaScript strings

    A JavaScript string is a sequence of 16-bit code units.  It is held here
    as a [string], one [ascii] per code unit, which covers the code units
    below 256; [length], [substring], [trim] and the regular expressions of
    the service count and classify code units, and do so here.  Message
    literals that contain characters outside that range are stored as their
    UTF-8 bytes: they are only concatenated and compared, never measured. *)
Module JS.

Definition LF : ascii := "010"%char.
Definition CR : ascii := "013"%char.
Definition dquote : string := String "034"%char EmptyString.
Definition newline : string := String LF EmptyString.
Definition blankLine : string := String LF (String LF EmptyString).

(** WhiteSpace and LineTerminator code units (what [trim] removes and what
    [\s] matches): TAB, LF, VT, FF, CR, SP and NBSP. *)
Definition isWhiteSpace (c : ascii) : bool :=
  match N_of_ascii c with
  | 9 | 10 | 11 | 12 | 13 | 32 | 160 => true
  | _ => false
  end%N.

(** What [.] refuses without the [s] flag. *)
Definition isLineTerminator (c : ascii) : bool :=
  match N_of_ascii c with
  | 10 | 13 => true
  | _ => false
  end%N.

(** [\w] is [A-Za-z0-9_]. *)
Definition isWordChar (c : ascii) : bool :=
  let n := N_of_ascii c in
  ((48 <=? n) && (n <=? 57) || (65 <=? n) && (n <=? 90)
   || (97 <=? n) && (n <=? 122) || (n =? 95))%N.

(** [String.prototype.toLowerCase] on one code unit: the letters A-Z and the
    upper-case letters of the Latin-1 supplement (all of 192..222 but the
    multiplication sign 215). *)
Definition toLowerCaseChar (c : ascii) : ascii :=
  let n := N_of_ascii c in
  if ((65 <=? n) && (n <=? 90)
      || (192 <=? n) && (n <=? 222) && negb (n =? 215))%N
  then ascii_of_N (n + 32) else c.

Fixpoint toLowerCase (s : string) : string :=
  match s with
  | EmptyString => EmptyString
  | String c r => String (toLowerCaseChar c) (toLowerCase r)
  end.

(** Case folding of a regular expression with the [i] flag and without the
    [u] flag, against a pattern character in ASCII: only the two ASCII cases
    of a letter match it. *)
Definition foldAscii (c : ascii) : ascii :=
  let n := N_of_ascii c in
  if ((65 <=? n) && (n <=? 90))%N then ascii_of_N (n + 32) else c.

Definition eqCI (a b : ascii) : bool := Ascii.eqb (foldAscii a) (foldAscii b).

Fixpoint startsWith (p s : string) : bool :=
  match p, s with
  | EmptyString, _ => true
  | String a p', String b s' => Ascii.eqb a b && startsWith p' s'
  | String _ _, EmptyString => false
  end.

Fixpoint startsWithCI (p s : string) : bool :=
  match p, s with
  | EmptyString, _ => true
  | String a p', String b s' => eqCI a b && startsWithCI p' s'
  | String _ _, EmptyString => false
  end.

(** [s.includes(p)] *)
Fixpoint includes (p s : string) : bool :=
  match s with
  | EmptyString => startsWith p EmptyString
  | String _ r => startsWith p s || includes p r
  end.

(** [/p/i.test(s)] for a literal pattern [p]. *)
Fixpoint includesCI (p s : string) : bool :=
  match s with
  | EmptyString => startsWithCI p EmptyString
  | String _ r => startsWithCI p s || includesCI p r
  end.

Fixpoint drop (n : nat) (s : string) : string :=
  match n, s with
  | O, _ => s
  | S _, EmptyString => EmptyString
  | S n', String _ r => drop n' r
  end.

(** [s.substring(0, n)] *)
Fixpoint take (n : nat) (s : string) : string :=
  match n, s with
  | O, _ => EmptyString
  | S _, EmptyString => EmptyString
  | S n', String c r => String c (take n' r)
  end.

Definition endsWith (p s : string) : bool :=
  (String.length p <=? String.length s)
  && String.eqb (drop (String.length s - String.length p) s) p.

Fixpoint trimStart (s : string) : string :=
  match s with
  | EmptyString => EmptyString
  | String c r => if isWhiteSpace c then trimStart r else s
  end.

Fixpoint trimEnd (s : string) : string :=
  match s with
  | EmptyString => EmptyString
  | String c r =>
      match trimEnd r with
      | EmptyString => if isWhiteSpace c then EmptyString else String c EmptyString
      | r' => String c r'
      end
  end.

Definition trim (s : string) : string := trimEnd (trimStart s).

(** [s.split(sep)] for a separator that is not empty: [skip] counts the code
    units of a separator just found that are still to be passed over; the
    head of the result is the piece being read. *)
Fixpoint splitFrom (sep : string) (skip : nat) (s : string) : list string :=
  match s with
  | EmptyString => [EmptyString]
  | String c r =>
      match skip with
      | S k => splitFrom sep k r
      | O =>
          if startsWith sep s
          then EmptyString :: splitFrom sep (String.length sep - 1) r
          else match splitFrom sep 0 r with
               | p :: ps => String c p :: ps
               | [] => [String c EmptyString]
               end
      end
  end.

Definition split (sep s : string) : list string := splitFrom sep 0 s.

(** [arr.join(sep)] *)
Fixpoint join (sep : string) (l : list string) : string :=
  match l with
  | [] => EmptyString
  | [x] => x
  | x :: r => x +:+ sep +:+ join sep r
  end.

(** Template-literal rendering of an integer. *)
Definition showNat (n : nat) : string := NilEmpty.string_of_uint (Nat.to_uint n).
Definition showZ (z : Z) : string := NilEmpty.string_of_int (Z.to_int z).

(** The operand of [x || d] when [x] may be [undefined] or [null]. *)
Definition truthyString (s : string) : bool := negb (String.eqb s EmptyString).

End JS.

(** ** JavaScript numbers

    Token counts, page numbers and positions are integers ([Z]).  A similarity
    and a cost are finite binary64 values, held as the rational they denote
    ([Q]); a field that may be [undefined] or [null] is an [option].  The sign
    of the binary64 difference of two finite values is the sign of their exact
    difference, which is all the comparator of [deduplicateChunks] uses. *)
Module Num.

(** [x || 0] on a number that may be missing: 0, missing and NaN all give 0. *)
Definition orZero (x : option Q) : Q := default 0%Q x.
Definition orZeroZ (x : option Z) : Z := default 0%Z x.

(** Truthiness of a number: present and not 0. *)
Definition truthy (x : option Q) : bool :=
  match x with
  | Some q => negb (Qeq_bool q 0)
  | None => false
  end.

Definition truthyZ (x : option Z) : bool :=
  match x with
  | Some z => negb (z =? 0)%Z
  | None => false
  end.

(** [Math.ceil(n / d)] for a length [n] and a positive integer [d]. *)
Definition ceilDiv (n d : nat) : nat := (n + (d - 1)) / d.

(** [x.toFixed(0)]: the nearest integer, the larger one at a tie.  The
    argument is exact here; binary64 rounds the product [similarity * 100]
    first, which can only matter within a rounding error of a tie. *)
Definition toFixed0 (x : Q) : string := JS.showZ (Qfloor (x + (1 # 2))).

End Num.

(** ** Data model *)

(** A row of [match_legalrnd_chunks] (typed [any] in the source), with the
    two fields that [enhanceChunksWithDocumentContext] adds. *)
Module Chunk.
Record t : Type := mk {
  id : string;
  document_id : string;
  document_title : string;
  master_name : string;
  content : string;
  similarity : option Q;
  page_number : option Z;
  position : option Z;
  chapter : option string;
  youtube_video_id : option string;
  start_timestamp : option Q;
  end_timestamp : option Q;
  file_path : option string;
  file_type : option string
}.

Definition with_file (c : t) (path type : option string) : t :=
  mk (id c) (document_id c) (document_title c) (master_name c) (content c)
     (similarity c) (page_number c) (position c) (chapter c)
     (youtube_video_id c) (start_timestamp c) (end_timestamp c) path type.
End Chunk.

(** A row of [legalrnd_documents] as selected by
    [enhanceChunksWithDocumentContext]. *)
Module Doc.
Record t : Type := mk {
  id : string;
  title : string;
  file_path : option string;
  file_type : option string
}.
End Doc.

Module Citation.
Record t : Type := mk {
  document_id : string;
  document_title : string;
  master_name : string;
  page_number : option Z;
  chunk_id : string;
  quote : string;
  full_content : string;
  similarity : option Q;
  position_in_document : Z;
  chapter : option string;
  youtube_video_id : option string;
  start_timestamp : option Q;
  end_timestamp : option Q;
  file_url : option string;
  file_type : string
}.
End Citation.

Record ReadingTime : Type := { rt_summary : string; rt_detail : string }.

Record Metadata : Type := {
  model : string;
  chunkCount : nat;
  embeddingModel : string;
  totalTokens : Z
}.

Record Debug : Type := { systemPrompt : string; userPrompt : string }.

Record TokenUsage : Type := {
  tu_embeddingTokens : Z;
  tu_promptTokens : Z;
  tu_completionTokens : Z;
  tu_totalTokens : Z;
  tu_grandTotal : Z
}.

Record RAGResponse : Type := {
  success : bool;
  answer : option string;
  summary : option string;
  citations : option (list Citation.t);
  reading_time : option ReadingTime;
  message : option string;
  metadata : option Metadata;
  debug : option Debug;
  rawResponse : option string;
  tokenUsage : option TokenUsage;
  estimatedCost : option Q
}.

(** [{ success: false, message }] *)
Definition failure (msg : string) : RAGResponse :=
  {| success := false; answer := None; summary := None; citations := None;
     reading_time := None; message := Some msg; metadata := None;
     debug := None; rawResponse := None; tokenUsage := None;
     estimatedCost := None |}.

(** The options of [askQuestion]. *)
Record Options : Type := {
  lawyerId : option string;
  preceptorId : option string;
  selectedDocumentIds : option (list string);
  selectedMasters : option (list string);
  sessionId : option string
}.

(** [xs && xs.length > 0] *)
Definition nonEmptySelection (xs : option (list string)) : bool :=
  match xs with
  | Some (_ :: _) => true
  | _ => false
  end.

Definition modelPriority : list string :=
  [ "x-ai/grok-4.1-fast";
    "x-ai/grok-4-fast";
    "x-ai/grok-4";
    "x-ai/grok-2-1212";
    "x-ai/grok-beta";
    "google/gemini-2.0-flash-exp:free";
    "anthropic/claude-3-haiku";
    "meta-llama/llama-3.1-8b-instruct:free" ].

(** ** Pure helpers of the service *)

(** *** validateQuestion *)

Record Validation : Type := { isValid : bool; v_message : option string }.

Definition invalid (msg : string) : Validation :=
  {| isValid := false; v_message := Some msg |}.

(** Is the code unit at offset [n] of [s] a word character?  (No code unit:
    no.) *)
Definition wordCharAt (n : nat) (s : string) : bool :=
  match JS.drop n s with
  | String c _ => JS.isWordChar c
  | EmptyString => false
  end.

(** [/\b(w1|w2|...)\b/i.test(s)], read from a position whose previous code
    unit is a word character or not ([prevWord]). *)
Fixpoint testWords (words : list string) (prevWord : bool) (s : string) : bool :=
  negb prevWord
  && existsb (fun w => JS.startsWithCI w s && negb (wordCharAt (String.length w) s)) words
  || match s with
     | EmptyString => false
     | String c r => testWords words (JS.isWordChar c) r
     end.

Definition inappropriatePatterns : list (list string) :=
  [ ["hack"; "crack"; "exploit"; "attack"; "malware"; "virus"];
    ["porn"; "xxx"; "sex"];
    ["kill"; "murder"; "death"; "suicide"] ].

Definition offTopicKeywords : list string :=
  ["sports"; "politics"; "movie"; "game"; "recipe"; "weather"].

Definition msgTooShort : string := "Please ask a more detailed question.".
Definition msgTooLong : string :=
  "Your question is too long. Please keep it under 5000 characters.".
Definition msgInappropriate : string :=
  "🙏 Please ask questions related to spirituality, meditation, and Heartfulness teachings.".
Definition msgOffTopic : string :=
  "⚖️ I am here to help with legal research questions about Indian law. Please ask questions related to legal topics, case law, statutes, and judicial precedents.".

Definition validateQuestion (question : string) : Validation :=
  if String.length (JS.trim question) <? 5 then invalid msgTooShort
  else if 5000 <? String.length (JS.trim question) then invalid msgTooLong
  else if existsb (fun pattern => testWords pattern false question) inappropriatePatterns
  then invalid msgInappropriate
  else if existsb (fun keyword => JS.includes keyword (JS.toLowerCase question)) offTopicKeywords
  then invalid msgOffTopic
  else {| isValid := true; v_message := None |}.

(** *** generateSearchQueries *)

(** [s.replace(/a1|a2|.../gi, '')]: at each position the first alternative
    that matches is removed and the scan resumes after it. *)
Fixpoint removeAllCI (alts : list string) (skip : nat) (s : string) : string :=
  match s with
  | EmptyString => EmptyString
  | String c r =>
      match skip with
      | S k => removeAllCI alts k r
      | O =>
          match List.find (fun a => JS.startsWithCI a s) alts with
          | Some a => removeAllCI alts (String.length a - 1) r
          | None => String c (removeAllCI alts 0 r)
          end
      end
  end.

(** [s.replace(/pat/i, rep)]: the first occurrence only. *)
Fixpoint replaceFirstCI (pat rep s : string) : string :=
  if JS.startsWithCI pat s then rep +:+ JS.drop (String.length pat) s
  else match s with
       | EmptyString => EmptyString
       | String c r => String c (replaceFirstCI pat rep r)
       end.

Definition generateSearchQueries (originalQuery : string) : list string :=
  let lowerQuery := JS.toLowerCase originalQuery in
  let needsSimple :=
    existsb (fun p => JS.includesCI p originalQuery)
      ["simple"; "basic"; "beginner"; "introduction"; "explain"; "overview"] in
  let topic :=
    if JS.includes "explain" lowerQuery
    then JS.trim (removeAllCI ["explain"; "in"; "very"; "simple"; "words"; "about"; "the"]
                    0 originalQuery)
    else originalQuery in
  [originalQuery]
  ++ (if needsSimple && JS.truthyString topic
      then [ "introduction to " +:+ topic;
             topic +:+ " basics";
             "what is " +:+ topic;
             topic +:+ " for beginners";
             topic +:+ " overview" ]
      else [])
  ++ [originalQuery +:+ " in Heartfulness meditation spiritual practice"]
  ++ (if JS.includes "what is" lowerQuery
      then [ replaceFirstCI "what is" "meaning of" originalQuery;
             replaceFirstCI "what is" "introduction to" originalQuery ]
      else [])
  ++ (if JS.includes "how to" lowerQuery
      then [ replaceFirstCI "how to" "practice of" originalQuery;
             replaceFirstCI "how to" "method for" originalQuery ]
      else [])
  ++ (if JS.includes "why" lowerQuery
      then [ replaceFirstCI "why" "reason for" originalQuery;
             replaceFirstCI "why" "purpose of" originalQuery ]
      else []).

(** *** deduplicateChunks *)

(** [Array.prototype.sort(compare)].  The language requires the sort to be
    stable, so for a consistent comparator its result is determined: the
    elements in comparator order, those that compare equal in their original
    order.  It is computed here by insertion: [x] goes after [y] exactly when
    [compare(x, y) > 0]. *)
Section ArraySort.
Context {A : Type} (compare : A -> A -> Q).

Fixpoint sortInsert (x : A) (l : list A) : list A :=
  match l with
  | [] => [x]
  | y :: r =>
      if Qlt_le_dec 0 (compare x y) then y :: sortInsert x r else x :: y :: r
  end.

Fixpoint arraySort (l : list A) : list A :=
  match l with
  | [] => []
  | x :: r => sortInsert x (arraySort r)
  end.

End ArraySort.

(** The callback of [chunks.filter] with its captured [seen] set, run over the
    array from left to right. *)
Fixpoint filterUnseen (seen : gset string) (chunks : list Chunk.t) : list Chunk.t :=
  match chunks with
  | [] => []
  | chunk :: rest =>
      if decide (Chunk.id chunk ∈ seen)
      then filterUnseen seen rest
      else chunk :: filterUnseen ({[Chunk.id chunk]} ∪ seen) rest
  end.

(** [(a, b) => (b.similarity || 0) - (a.similarity || 0)] *)
Definition bySimilarityDesc (a b : Chunk.t) : Q :=
  (Num.orZero (Chunk.similarity b) - Num.orZero (Chunk.similarity a))%Q.

Definition deduplicateChunks (chunks : list Chunk.t) : list Chunk.t :=
  arraySort bySimilarityDesc (filterUnseen ∅ chunks).

(** *** estimateCost *)

(** The table [costPer1M]; the service only looks up the model identifiers it
    sent to the completion service, or ['unknown'].  The table is an object
    literal: for a name of an inherited property of objects (['constructor']
    and the like, [inheritedKeys] below) the lookup of the source reads that
    property, which is no number, and the estimate is not a number.  Those
    names are outside this table, and a property that ranges over names
    excludes them. *)
Definition costPer1M : gmap string Q :=
  list_to_map
    [ ("x-ai/grok-2-1212", 2.0%Q);
      ("x-ai/grok-beta", 2.0%Q);
      ("google/gemini-2.0-flash-exp:free", 0%Q);
      ("anthropic/claude-3-haiku", 0.25%Q);
      ("meta-llama/llama-3.1-8b-instruct:free", 0%Q) ].

(** [costPer1M[model] || 1.0]: a missing entry and an entry of 0 are both
    falsy. *)
Definition modelCost (model : string) : Q :=
  if Num.truthy (costPer1M !! model) then Num.orZero (costPer1M !! model) else 1.0%Q.

(** The quotient and the product are exact here, where the source rounds
    each to binary64.  The properties below rely on what the two share: the
    value at the arguments of an example, the sign of the result, and the
    arguments that the function is applied to. *)
Definition estimateCost (model : string) (tokens : Z) : Q :=
  ((inject_Z tokens / 1000000) * modelCost model)%Q.

(** *** calculateReadingTime and parseModelResponse *)

(** The number of pieces of [text.split(/\s+/)]: one more than the number of
    maximal runs of white space ([inRun]: the previous code unit was white
    space). *)
Fixpoint countPieces (inRun : bool) (text : string) : nat :=
  match text with
  | EmptyString => 1
  | String c r =>
      if JS.isWhiteSpace c
      then (if inRun then 0 else 1) + countPieces true r
      else countPieces false r
  end.

Definition calculateReadingTime (text : string) : string :=
  let wordCount := countPieces false text in
  if wordCount <? 200 then "< 1 min read"
  else JS.showNat (Num.ceilDiv wordCount 200) +:+ " min read".

Definition SECTION_SEPARATOR : string := "---SECTION_SEPARATOR---".

Definition summaryPlaceholder : string := "Please refer to the detailed answer below.".

(** The rest of the input after the shortest [.*?\*\*], if there is one: [.]
    stops at a line terminator. *)
Fixpoint afterClosingStars (s : string) : option string :=
  if JS.startsWith "**" s then Some (JS.drop 2 s)
  else match s with
       | EmptyString => None
       | String c r => if JS.isLineTerminator c then None else afterClosingStars r
       end.

(** [s.replace(/^\*\*PART n:.*?\*\*/i, '')], the literal opening of the
    pattern being [label]. *)
Definition stripPartLabel (label s : string) : string :=
  if JS.startsWithCI label s
  then default s (afterClosingStars (JS.drop (String.length label) s))
  else s.

(** Group 1 of [/^(.*?)(\n\n|$)/s]: the text before the first blank line, or
    all of it.  With the [s] flag this expression matches every string. *)
Fixpoint firstParagraph (s : string) : string :=
  if JS.startsWith JS.blankLine s then EmptyString
  else match s with
       | EmptyString => EmptyString
       | String c r => String c (firstParagraph r)
       end.

Record Parsed : Type := {
  p_summary : string;
  p_answer : string;
  p_readingTime : ReadingTime
}.

Definition parseModelResponse (rawContent : string) : Parsed :=
  let parts := JS.split SECTION_SEPARATOR rawContent in
  let '(summary, answer) :=
    match parts with
    | part0 :: part1 :: _ =>
        (JS.trim (stripPartLabel "**PART 1:" (JS.trim part0)),
         JS.trim (stripPartLabel "**PART 2:" (JS.trim part1)))
    | _ =>
        let answer := JS.trim rawContent in
        let firstPara := firstParagraph answer in
        (if String.length firstPara <? 500 then JS.trim firstPara
         else summaryPlaceholder,
         answer)
    end in
  {| p_summary := summary;
     p_answer := answer;
     p_readingTime := {| rt_summary := calculateReadingTime summary;
                         rt_detail := calculateReadingTime answer |} |}.

(** ** Collaborators and the service monad *)

(** [{ data, error }] of the similarity search. *)
Record RpcReply : Type := {
  rpc_data : option (list Chunk.t);
  rpc_error : option string
}.

(** A row of the category lookup; only [id] is read. *)
Module MasterDoc.
Record t : Type := mk { id : string; master_id : string }.
End MasterDoc.

(** A row of the recent-chunks query: the chunk columns and the joined
    [legalrnd_documents] object. *)
Record FallbackRow : Type := {
  fr_chunk : Chunk.t;
  fr_legalrnd_documents : option Doc.t
}.

(** [data.usage] of a completion. *)
Module Usage.
Record t : Type := mk {
  prompt_tokens : option Z;
  completion_tokens : option Z;
  total_tokens : option Z
}.
End Usage.

(** What one call of the completion endpoint comes to: [fetch] rejects; the
    status is not ok; the body cannot be read as a completion
    ([response.json()] rejects, or [data.choices[0].message.content] is not
    there or is no string, which throws a [TypeError]); or a completion text
    with its optional usage block. *)
Inductive FetchReply : Type :=
| NetworkError (error : string)
| HttpError (status : Z) (errorText : string)
| Malformed (error : string)
| Completed (content : string) (usage : option Usage.t).

(** The entry that [logAIUsage] inserts. *)
Module LogEntry.
Record t : Type := mk {
  lawyer_id : option string;
  model : string;
  prompt_tokens : Z;
  completion_tokens : Z;
  total_tokens : Z;
  estimated_cost : Q;
  operation_type : string;
  query_text : string;
  documents_used : list string;
  response_preview : option string;
  created_at : string
}.
End LogEntry.

(** A resolved or a rejected promise; a rejection carries the message of the
    error. *)
Inductive Outcome (A : Type) : Type :=
| Resolved (a : A)
| Rejected (error : string).
Arguments Resolved {A} a.
Arguments Rejected {A} error.

(** Every call to a collaborator, and the warning that the fallback chain
    prints for a failed model, in the order they happen.  An embedding is
    recorded with the token count it returned, if it returned. *)
Inductive Event : Type :=
| EvEmbed (text : string) (tokens : option Z)
| EvMatchChunks
| EvDocumentsByMaster (names : list string)
| EvDocumentsById (ids : list string)
| EvRecentChunks
| EvCompletion (model : string)
| EvSignUrl (path : string)
| EvUsageLog (entry : LogEntry.t)
| EvModelFailed (model error : string).

Section Service.

(** The state of the outside world, and the vectors of the embedding
    provider, are left abstract. *)
Context {World Embedding : Type}.

Record EmbeddingResult : Type := { embedding : Embedding; tokenCount : Z }.

(** The collaborators: [EmbeddingService] (imported, not part of this file),
    the Supabase client, [fetch] on the completion endpoint, and the clock.
    Each call may depend on the state of the world and change it.  The
    embedding and the insertion into the usage log are promises that may
    reject; the queries, the remote procedure and the signing of a url
    resolve with their data (or with none, [null], and an error) as the
    Supabase client does; the completion request is summed up by
    [FetchReply]. *)
Record Services : Type := {
  svc_generateEmbedding : string -> World -> Outcome EmbeddingResult * World;
  svc_match_legalrnd_chunks : Embedding -> World -> RpcReply * World;
  svc_documentsByMaster : list string -> World -> option (list MasterDoc.t) * World;
  svc_documentsById : list string -> World -> option (list Doc.t) * World;
  svc_recentChunks : World -> option (list FallbackRow) * World;
  svc_fetchCompletion : string -> string -> string -> World -> FetchReply * World;
  svc_createSignedUrl : string -> World -> option string * World;
  svc_insertUsageLog : LogEntry.t -> World -> Outcome (option string) * World;
  svc_now : World -> string
}.

(** An asynchronous computation: from a world to its outcome, the world it
    leaves, and the events it caused. *)
Definition M (A : Type) : Type := World -> Outcome A * World * list Event.

Definition ret {A} (a : A) : M A := fun w => (Resolved a, w, []).

Definition throw {A} (error : string) : M A := fun w => (Rejected error, w, []).

Definition bind {A B} (m : M A) (f : A -> M B) : M B :=
  fun w =>
    match m w with
    | (Resolved a, w1, t1) => let '(r, w2, t2) := f a w1 in (r, w2, t1 ++ t2)
    | (Rejected e, w1, t1) => (Rejected e, w1, t1)
    end.

(** [try { m } catch (error) { h (message of error) }] *)
Definition try_catch {A} (m : M A) (h : string -> M A) : M A :=
  fun w =>
    match m w with
    | (Rejected e, w1, t1) => let '(r, w2, t2) := h e w1 in (r, w2, t1 ++ t2)
    | done => done
    end.

(** A call to a collaborator that answers [R], recorded as [ev]. *)
Definition call {R} (op : World -> R * World) (ev : R -> Event) : M R :=
  fun w => let '(r, w') := op w in (Resolved r, w', [ev r]).

(** [await p] for a call whose promise may reject. *)
Definition await {A} (m : M (Outcome A)) : M A :=
  bind m (fun o => match o with Resolved a => ret a | Rejected e => throw e end).

Definition emit (e : Event) : M unit := fun w => (Resolved tt, w, [e]).

End Service.

Arguments Services : clear implicits.
Arguments EmbeddingResult : clear implicits.
Arguments M : clear implicits.

(** The monad operations under stdpp's notations [x ← m; k] and [m;; k]. *)
#[global] Instance M_ret {World : Type} : MRet (M World) := fun A a => ret a.
#[global] Instance M_bind {World : Type} : MBind (M World) := fun A B f m => bind m f.
#[global] Typeclasses Opaque M.

(** ** The prompt of generateResponseWithFallback *)

(** The text of the system-prompt template up to the optional block for a
    simple explanation. *)
Definition promptInstructions : string :=
  "🛑 **OUTPUT FORMAT INSTRUCTIONS (CRITICAL)**:
You must structure your entire response into TWO DISTINCT PARTS separated by exactly " +:+ JS.dquote +:+ "---SECTION_SEPARATOR---" +:+ JS.dquote +:+ ".

**PART 1: BRIEF SUMMARY**
- Provide a concise summary of the answer in a single paragraph (5-6 sentences).
- Estimate reading time: ~30 seconds.
- Do NOT use any markdown headers (like # or ##) in this part. Just plain text.

---SECTION_SEPARATOR---

**PART 2: DETAILED ANSWER**
- This is the main response following all the standard formatting rules below (Legal Issue, Applicable Law, Judicial Precedents, etc.).
- This part must match the " +:+ JS.dquote +:+ "ANSWER STRUCTURE" +:+ JS.dquote +:+ " template exactly.

You are Veritas - an expert legal AI assistant specializing in Indian law. Your task is to create clear, well-structured, and comprehensive legal analysis based on the provided sources.

🌐 **LANGUAGE REQUIREMENT (CRITICAL):**
- ALWAYS respond in the SAME LANGUAGE as the question
- If the question is in Hindi, answer in Hindi
- If the question is in English, answer in English
- If the question is in any other language, answer in that language
- Maintain the same language throughout your entire response

⚖️ **LEGAL CONTENT GUIDELINES (CRITICAL):**
- Answer ONLY using provided legal documents - NEVER fabricate case law
- Include [Source X] citations after key legal points
- Extract ratio decidendi (binding principle) and obiter dicta (observations) when available
- **ANTI-HALLUCINATION RULES**:
  * NEVER invent case names, citations, judges, or legal provisions
  * ONLY cite cases/laws explicitly present in provided sources
  * If uncertain, say " +:+ JS.dquote +:+ "Based on available documents..." +:+ JS.dquote +:+ " or " +:+ JS.dquote +:+ "I don't have verified information..." +:+ JS.dquote +:+ "
  * Always end with: " +:+ JS.dquote +:+ "⚠️ Please verify this legal analysis from official law reports before relying on it in court." +:+ JS.dquote +:+ "

📋 **FORMATTING REQUIREMENTS (CRITICAL):**
- Start with a clear legal issue statement
- Use markdown headers (##, ###) for main sections
- Use numbered lists (1. 2. 3.) for legal provisions, articles, sections
- Use bullet points (-) for case law, precedents, legal principles
- Use **bold** for case names, statutes, and key legal terms
- Keep paragraphs short (2-3 sentences max)
- Create a logical flow: Legal Issue → Applicable Law → Judicial Precedents → Reasoning → Conclusion

📖 **CONTENT GUIDELINES:**
- Synthesize information from multiple legal sources into a coherent legal analysis
- Include [Source X] citations after key legal points or case citations
- Extract holdings, dicta, and dissenting opinions when available
- Distinguish between binding precedents and persuasive authority
- Note any conflicting decisions or legal controversies
".

(** The block inserted when the question asks for a simple explanation. *)
Definition simpleModeBlock : string :=
  "
⭐ **SIMPLE EXPLANATION MODE (ACTIVE):**
- Use everyday language while maintaining legal accuracy
- Explain legal terms immediately when first used (e.g., " +:+ JS.dquote +:+ "ratio decidendi - the binding legal principle" +:+ JS.dquote +:+ ")
- Structure as: Legal Issue → Plain English Explanation → Legal Authority → Practical Implication
- Focus on foundational legal concepts before complex doctrines
- Make it comprehensive yet accessible - aim for completeness within simplicity".

(** The template from there to the opening of the source count. *)
Definition promptStructure : string :=
  "

🎯 **ANSWER STRUCTURE (Follow this template):**
1. **Legal Issue/Question**: Brief statement of the legal question (1-2 sentences)
2. **Applicable Law**: Relevant statutes, articles, sections (numbered list)
3. **Judicial Precedents**: Case law with citations (bullets, bold case names)
   - Include: Case name, citation, court, year
   - Extract: Ratio decidendi, key holdings, principles established
4. **Legal Reasoning**: Analysis applying law to facts
5. **Conclusion**: Summary of legal position
6. **Source References**: Cite documents clearly with [Source X] notation
7. **⚠️ Verification Disclaimer**: " +:+ JS.dquote +:+ "Please verify this legal analysis from official law reports before relying on it in court." +:+ JS.dquote +:+ "

⚖️ **TONE:**
- Professional and authoritative, yet clear
- Minimize legalese when possible - prioritize clarity
- Use legal precision without unnecessary jargon
- Objective and analytical

🚨 **CRITICAL ANTI-HALLUCINATION SAFEGUARDS:**
- If a case name is not explicitly in the sources, DO NOT cite it
- If a legal provision is not in the sources, DO NOT reference it
- If unsure about a legal principle, preface with " +:+ JS.dquote +:+ "Based on available documents..." +:+ JS.dquote +:+ "
- NEVER fabricate citations, judges' names, or case facts
- If sources are insufficient, explicitly state: " +:+ JS.dquote +:+ "The available documents do not contain sufficient information on..." +:+ JS.dquote +:+ "

AVAILABLE SOURCES (".

(** One element of [context]: the passage of [chunk], tagged with its
    source number [idx + 1]. *)
Definition sourceBlock (idx : nat) (chunk : Chunk.t) : string :=
  let pageInfo :=
    if Num.truthyZ (Chunk.page_number chunk)
    then ", page " +:+ JS.showZ (Num.orZeroZ (Chunk.page_number chunk))
    else EmptyString in
  let similarity :=
    if Num.truthy (Chunk.similarity chunk)
    then " (relevance: "
         +:+ Num.toFixed0 (Num.orZero (Chunk.similarity chunk) * 100)
         +:+ "%)"
    else EmptyString in
  "[Source " +:+ JS.showNat (idx + 1) +:+ "] From " +:+ JS.dquote
  +:+ Chunk.document_title chunk +:+ JS.dquote +:+ " by "
  +:+ Chunk.master_name chunk +:+ pageInfo +:+ similarity +:+ ":"
  +:+ JS.newline +:+ JS.dquote +:+ Chunk.content chunk +:+ JS.dquote.

Definition buildContext (chunks : list Chunk.t) : string :=
  JS.join JS.blankLine (imap sourceBlock chunks).

Definition promptNeedsSimple (question : string) : bool :=
  existsb (fun p => JS.includesCI p question)
    ["simple"; "basic"; "beginner"; "easy"; "introduction"; "explain"; "layman"].

Definition buildSystemPrompt (question : string) (chunks : list Chunk.t) : string :=
  promptInstructions
  +:+ (if promptNeedsSimple question then simpleModeBlock else EmptyString)
  +:+ promptStructure +:+ JS.showNat (length chunks)
  +:+ " passages from legal documents):" +:+ JS.newline
  +:+ buildContext chunks.

Definition buildUserPrompt (question : string) : string :=
  "LEGAL QUESTION: " +:+ question +:+ JS.blankLine +:+ "Create a "
  +:+ (if promptNeedsSimple question
       then "comprehensive yet simple, well-structured"
       else "thorough and well-organized")
  +:+ " legal analysis using ONLY the sources above. Follow the formatting requirements exactly. Use markdown formatting, numbered lists for statutes, bullet points for case law, and clear section headers. Include [Source X] citations after key legal points. End with the verification disclaimer.".

(** ** The asynchronous methods *)

(** [[...new Set(xs)]]: the distinct elements in order of first occurrence. *)
Fixpoint distinct (seen : gset string) (xs : list string) : list string :=
  match xs with
  | [] => []
  | x :: rest =>
      if decide (x ∈ seen) then distinct seen rest
      else x :: distinct ({[x]} ∪ seen) rest
  end.

(** [new Map(documents.map(d => [d.id, d]))]: a later row replaces an earlier
    one with the same id. *)
Definition docMapOf (documents : list Doc.t) : gmap string Doc.t :=
  foldl (fun m d => <[Doc.id d := d]> m) ∅ documents.

(** [x || null] on a string that may be missing. *)
Definition orNull (x : option string) : option string :=
  match x with
  | Some s => if JS.truthyString s then Some s else None
  | None => None
  end.

Definition orNullQ (x : option Q) : option Q :=
  if Num.truthy x then x else None.

Definition msgNoneInDocuments : string :=
  "⚖️ I could not find relevant information in the selected legal documents to answer your question. Please try:
- Asking a different legal question
- Selecting additional documents
- Rephrasing your question with different legal keywords".

Definition msgNoneInCategory : string :=
  "⚖️ I could not find relevant information from the selected legal category to answer your question. Please try:
- Asking a different legal question
- Selecting additional legal categories
- Rephrasing your question with different legal keywords".

Definition msgNoneAtAll : string :=
  "⚖️ I apologize, but I could not find relevant information in the available legal documents to answer your question. Please try rephrasing your question or ask about topics related to Indian law, case law, statutes, and judicial precedents available in the system.".

Definition msgErrorPrefix : string := "🙏 An error occurred: ".

Definition msgAllFailedPrefix : string := "All models failed. Last error: ".

Section Orchestrator.

Context {World Embedding : Type} (svc : Services World Embedding).

Local Abbreviation Async := (M World).

(** [this.embedder.generateEmbedding(text)], awaited. *)
Definition generateEmbedding (text : string) : Async (EmbeddingResult Embedding) :=
  await (call (svc_generateEmbedding svc text)
           (fun o => EvEmbed text
                       match o with
                       | Resolved r => Some (tokenCount r)
                       | Rejected _ => None
                       end)).

(** The loop over [searchQueries] of [askQuestion], with its accumulator
    [allChunks]. *)
Fixpoint searchAll (searchQueries : list string) (allChunks : list Chunk.t)
  : Async (list Chunk.t) :=
  match searchQueries with
  | [] => mret allChunks
  | searchQuery :: rest =>
      queryEmbedding ← generateEmbedding searchQuery;
      reply ← call (svc_match_legalrnd_chunks svc (embedding queryEmbedding))
                (fun _ => EvMatchChunks);
      searchAll rest
        match rpc_error reply, rpc_data reply with
        | Some _, _ => allChunks
        | None, Some (c :: cs) => allChunks ++ c :: cs
        | None, _ => allChunks
        end
  end.

(** The filter on [selectedDocumentIds]. *)
Definition filterBySelectedDocuments (selectedDocumentIds : option (list string))
    (uniqueChunks : list Chunk.t) : list Chunk.t :=
  match selectedDocumentIds with
  | Some (d :: ds) =>
      List.filter
        (fun chunk => bool_decide (Chunk.document_id chunk ∈ d :: ds))
        uniqueChunks
  | _ => uniqueChunks
  end.

(** The filter on [selectedMasters], with its lookup of the documents of the
    selected categories. *)
Definition filterBySelectedMasters (selectedMasters : option (list string))
    (uniqueChunks : list Chunk.t) : Async (list Chunk.t) :=
  match selectedMasters, uniqueChunks with
  | Some (m :: ms), _ :: _ =>
      documents ← call (svc_documentsByMaster svc (m :: ms))
                    (fun _ => EvDocumentsByMaster (m :: ms));
      match documents with
      | Some documents =>
          let allowedDocIds : gset string :=
            list_to_set (MasterDoc.id <$> documents) in
          mret (List.filter
                  (fun chunk => bool_decide (Chunk.document_id chunk ∈ allowedDocIds))
                  uniqueChunks)
      | None => mret uniqueChunks
      end
  | _, _ => mret uniqueChunks
  end.

Definition enhanceChunksWithDocumentContext (chunks : list Chunk.t)
  : Async (list Chunk.t) :=
  let documentIds := distinct ∅ (Chunk.document_id <$> chunks) in
  documents ← call (svc_documentsById svc documentIds)
                (fun _ => EvDocumentsById documentIds);
  match documents with
  | None => mret chunks
  | Some documents =>
      let docMap := docMapOf documents in
      mret ((fun chunk =>
               Chunk.with_file chunk
                 (docMap !! Chunk.document_id chunk ≫= Doc.file_path)
                 (docMap !! Chunk.document_id chunk ≫= Doc.file_type))
            <$> chunks)
  end.

Definition getFallbackChunks : Async (list Chunk.t) :=
  chunks ← call (svc_recentChunks svc) (fun _ => EvRecentChunks);
  mret ((fun row =>
           Chunk.with_file (fr_chunk row)
             (fr_legalrnd_documents row ≫= Doc.file_path)
             (fr_legalrnd_documents row ≫= Doc.file_type))
        <$> default [] chunks).

(** The callback of [chunks.map] that builds one citation. *)
Definition buildCitation (chunk : Chunk.t) (index : nat) : Async Citation.t :=
  fileUrl ←
    match orNull (Chunk.file_path chunk) with
    | Some path =>
        signedUrl ← call (svc_createSignedUrl svc path) (fun _ => EvSignUrl path);
        mret (orNull signedUrl)
    | None => mret None
    end;
  let fileType := default "text" (orNull (Chunk.file_type chunk)) in
  let isPdf :=
    String.eqb (JS.toLowerCase fileType) "pdf"
    || String.eqb (JS.toLowerCase fileType) "application/pdf"
    || match orNull (Chunk.file_path chunk) with
       | Some path => JS.endsWith ".pdf" (JS.toLowerCase path)
       | None => false
       end in
  mret {| Citation.document_id := Chunk.document_id chunk;
          Citation.document_title := Chunk.document_title chunk;
          Citation.master_name := Chunk.master_name chunk;
          Citation.page_number := Chunk.page_number chunk;
          Citation.chunk_id := Chunk.id chunk;
          Citation.quote :=
            JS.take 200 (Chunk.content chunk)
            +:+ (if 200 <? String.length (Chunk.content chunk)
                 then "..." else EmptyString);
          Citation.full_content := Chunk.content chunk;
          Citation.similarity := Chunk.similarity chunk;
          Citation.position_in_document :=
            if Num.truthyZ (Chunk.position chunk)
            then Num.orZeroZ (Chunk.position chunk) else Z.of_nat index;
          Citation.chapter := orNull (Chunk.chapter chunk);
          Citation.youtube_video_id := orNull (Chunk.youtube_video_id chunk);
          Citation.start_timestamp := orNullQ (Chunk.start_timestamp chunk);
          Citation.end_timestamp := orNullQ (Chunk.end_timestamp chunk);
          Citation.file_url := fileUrl;
          Citation.file_type := if isPdf then "application/pdf" else fileType |}.

(** [Promise.all(chunks.map(async (chunk, index) => ...))], the callbacks
    started in array order from [index]. *)
Fixpoint buildCitations (index : nat) (chunks : list Chunk.t)
  : Async (list Citation.t) :=
  match chunks with
  | [] => mret []
  | chunk :: rest =>
      citation ← buildCitation chunk index;
      citations ← buildCitations (S index) rest;
      mret (citation :: citations)
  end.

(** The body of the [try] block of the fallback loop for one [model]: the
    request, the parsing of the reply and the construction of the result. *)
Definition attemptModel (question : string) (chunks : list Chunk.t)
    (embeddingTokens : Z) (model : string) : Async RAGResponse :=
  let systemPrompt := buildSystemPrompt question chunks in
  let userPrompt := buildUserPrompt question in
  reply ← call (svc_fetchCompletion svc model systemPrompt userPrompt)
            (fun _ => EvCompletion model);
  match reply with
  | NetworkError error => throw error
  | HttpError status errorText =>
      throw ("API error: " +:+ JS.showZ status +:+ " - " +:+ errorText)
  | Malformed error => throw error
  | Completed rawAnswer usage =>
      let parsed := parseModelResponse rawAnswer in
      let promptTokens := Num.orZeroZ (usage ≫= Usage.prompt_tokens) in
      let completionTokens := Num.orZeroZ (usage ≫= Usage.completion_tokens) in
      let totalTokens :=
        if Num.truthyZ (usage ≫= Usage.total_tokens)
        then Num.orZeroZ (usage ≫= Usage.total_tokens)
        else (promptTokens + completionTokens)%Z in
      let grandTotal := (embeddingTokens + totalTokens)%Z in
      let costEstimate := estimateCost model grandTotal in
      citations ← buildCitations 0 chunks;
      mret {| success := true;
              answer := Some (p_answer parsed);
              summary := Some (p_summary parsed);
              citations := Some citations;
              reading_time := Some (p_readingTime parsed);
              message := None;
              metadata := Some {| model := model;
                                  chunkCount := length chunks;
                                  embeddingModel := "text-embedding-3-small";
                                  totalTokens := totalTokens |};
              debug := Some {| systemPrompt := systemPrompt;
                               userPrompt := userPrompt |};
              rawResponse := Some rawAnswer;
              tokenUsage := Some {| tu_embeddingTokens := embeddingTokens;
                                    tu_promptTokens := promptTokens;
                                    tu_completionTokens := completionTokens;
                                    tu_totalTokens := totalTokens;
                                    tu_grandTotal := grandTotal |};
              estimatedCost := Some costEstimate |}
  end.

(** The loop [for (const model of models)] with its variable [lastError], and
    the [throw] that follows it.  A failed attempt is warned about and
    remembered; the first attempt that returns ends the loop. *)
Fixpoint tryModels (question : string) (chunks : list Chunk.t)
    (embeddingTokens : Z) (models : list string) (lastError : option string)
  : Async RAGResponse :=
  match models with
  | [] => throw (msgAllFailedPrefix +:+ default "undefined" lastError)
  | model :: rest =>
      attempt ← try_catch
                  (response ← attemptModel question chunks embeddingTokens model;
                   mret (inl response))
                  (fun error => emit (EvModelFailed model error);; mret (inr error));
      match attempt with
      | inl response => mret response
      | inr error => tryModels question chunks embeddingTokens rest (Some error)
      end
  end.

Definition generateResponseWithFallback (question : string)
    (chunks : list Chunk.t) (embeddingTokens : Z) : Async RAGResponse :=
  tryModels question chunks embeddingTokens modelPriority None.

Definition logAIUsage (lawyerId : option string) (query model : string)
    (tokenCount : Z) (response : option string)
    (documents : option (list string)) (costUSD : option Q) : Async unit :=
  try_catch
    (let promptTokens := tokenCount in
     let completionTokens :=
       match orNull response with
       | Some text => Z.of_nat (Num.ceilDiv (String.length text) 4)
       | None => 0%Z
       end in
     let totalTokens := (promptTokens + completionTokens)%Z in
     let estimatedCost :=
       if Num.truthy costUSD then Num.orZero costUSD
       else estimateCost model totalTokens in
     entry ← (fun w =>
                (Resolved
                   {| LogEntry.lawyer_id := lawyerId;
                      LogEntry.model := model;
                      LogEntry.prompt_tokens := promptTokens;
                      LogEntry.completion_tokens := completionTokens;
                      LogEntry.total_tokens := totalTokens;
                      LogEntry.estimated_cost := estimatedCost;
                      LogEntry.operation_type := "rag_query";
                      LogEntry.query_text := query;
                      LogEntry.documents_used := default [] documents;
                      LogEntry.response_preview := JS.take 500 <$> orNull response;
                      LogEntry.created_at := svc_now svc w |}, w, [])) : Async LogEntry.t;
     _ ← await (call (svc_insertUsageLog svc entry) (fun _ => EvUsageLog entry));
     mret tt)
    (fun _ => mret tt).

(** What the [try] block of [askQuestion] hands back: a response, or the
    promise of [generateResponseWithFallback] returned without [await]. *)
Inductive Returned : Type :=
| ReturnValue (response : RAGResponse)
| ReturnPromise (promise : Async RAGResponse).

(** Steps 2 to 4 of [askQuestion]: the embedding of the question, the
    searches, the two scope filters and the document context. *)
Definition retrieveChunks (question : string) (options : Options)
  : Async (EmbeddingResult Embedding * list Chunk.t) :=
  embeddingResult ← generateEmbedding question;
  allChunks ← searchAll (generateSearchQueries question) [];
  let uniqueChunks := deduplicateChunks allChunks in
  let uniqueChunks :=
    filterBySelectedDocuments (selectedDocumentIds options) uniqueChunks in
  uniqueChunks ← filterBySelectedMasters (selectedMasters options) uniqueChunks;
  enhancedChunks ← enhanceChunksWithDocumentContext uniqueChunks;
  mret (embeddingResult, enhancedChunks).

(** The [try] block of [askQuestion]. *)
Definition askQuestionBody (question : string) (options : Options)
  : Async Returned :=
  let userId :=
    match orNull (lawyerId options) with
    | Some u => Some u
    | None => preceptorId options
    end in
  let validation := validateQuestion question in
  if negb (isValid validation)
  then mret (ReturnValue {| success := false; answer := None; summary := None;
                            citations := None; reading_time := None;
                            message := v_message validation; metadata := None;
                            debug := None; rawResponse := None;
                            tokenUsage := None; estimatedCost := None |})
  else
    '(embeddingResult, enhancedChunks) ← retrieveChunks question options;
    match enhancedChunks with
    | [] =>
        if nonEmptySelection (selectedDocumentIds options)
        then mret (ReturnValue (failure msgNoneInDocuments))
        else if nonEmptySelection (selectedMasters options)
        then mret (ReturnValue (failure msgNoneInCategory))
        else
          fallbackChunks ← getFallbackChunks;
          match fallbackChunks with
          | [] => mret (ReturnValue (failure msgNoneAtAll))
          | _ :: _ =>
              mret (ReturnPromise
                      (generateResponseWithFallback question fallbackChunks
                         (tokenCount embeddingResult)))
          end
    | _ :: _ =>
        response ← generateResponseWithFallback question enhancedChunks
                     (tokenCount embeddingResult);
        let documentsUsed :=
          distinct ∅ (Chunk.document_title <$> enhancedChunks) in
        logAIUsage (orNull userId) question
          (default "unknown" (orNull (model <$> metadata response)))
          (tokenCount embeddingResult
           + Num.orZeroZ (totalTokens <$> metadata response))%Z
          (answer response) (Some documentsUsed) None;;
        mret (ReturnValue response)
    end.

(** [askQuestion]: the [catch] clause turns an exception thrown inside the
    [try] block into a failure response.  A promise that the block returns
    without awaiting it settles after the block is left, so the promise of
    [askQuestion] takes its outcome as it is, rejection included. *)
Definition askQuestion (question : string) (options : Options)
  : Async RAGResponse :=
  returned ← try_catch (askQuestionBody question options)
               (fun errorMessage =>
                  mret (ReturnValue (failure (msgErrorPrefix +:+ errorMessage))));
  match returned with
  | ReturnValue response => mret response
  | ReturnPromise promise => promise
  end.

End Orchestrator.

(** * The search links of [src/utils/legal-link-generator.ts] *)

Module LegalDatabaseLink.
Record t : Type := mk {
  name : string;
  url : string;
  isFree : bool;
  description : string
}.
End LegalDatabaseLink.

(** The code units that [encodeURIComponent] leaves as they are: ASCII
    letters, digits and [- _ . ! ~ * ' ( )]. *)
Definition isUriUnreserved (c : ascii) : bool :=
  let n := N_of_ascii c in
  ((48 <=? n) && (n <=? 57) || (65 <=? n) && (n <=? 90)
   || (97 <=? n) && (n <=? 122)
   || (n =? 45) || (n =? 95) || (n =? 46) || (n =? 33) || (n =? 126)
   || (n =? 42) || (n =? 39) || (n =? 40) || (n =? 41))%N.

Definition hexDigit (n : N) : ascii :=
  (if n <? 10 then ascii_of_N (48 + n) else ascii_of_N (55 + n))%N.

(** [%XX] for one octet, in upper-case hexadecimal. *)
Definition percentOctet (n : N) : string :=
  String "%" (String (hexDigit (n / 16)) (String (hexDigit (n mod 16)) EmptyString)).

(** The escape of one code unit: the octets of its UTF-8 encoding, one for a
    code unit below 128 and two for the others below 256. *)
Definition encodeUnit (c : ascii) : string :=
  let n := N_of_ascii c in
  if isUriUnreserved c then String c EmptyString
  else if (n <? 128)%N then percentOctet n
  else percentOctet (192 + n / 64) +:+ percentOctet (128 + n mod 64).

Fixpoint encodeURIComponent (s : string) : string :=
  match s with
  | EmptyString => EmptyString
  | String c r => encodeUnit c +:+ encodeURIComponent r
  end.

Definition encodeSearchQuery (query : string) : string :=
  encodeURIComponent (JS.trim query).

Definition isParenthesis (c : ascii) : bool :=
  Ascii.eqb c "(" || Ascii.eqb c ")".

(** [s.replace(/\(|\)/g, '')] *)
Fixpoint removeParentheses (s : string) : string :=
  match s with
  | EmptyString => EmptyString
  | String c r =>
      if isParenthesis c then removeParentheses r
      else String c (removeParentheses r)
  end.

(** [s.replace(/\s+/g, ' ')]: every maximal run of white space becomes one
    space ([inRun]: the previous code unit was white space). *)
Fixpoint normalizeSpaces (inRun : bool) (s : string) : string :=
  match s with
  | EmptyString => EmptyString
  | String c r =>
      if JS.isWhiteSpace c
      then (if inRun then normalizeSpaces true r
            else String " " (normalizeSpaces true r))
      else String c (normalizeSpaces false r)
  end.

Definition cleanCitationForSearch (citation : string) : string :=
  JS.trim (normalizeSpaces false (removeParentheses citation)).

(** [caseName] is the optional second argument. *)
Definition generateLegalDatabaseLinks (citation : string) (caseName : option string)
    : list LegalDatabaseLink.t :=
  let searchQuery :=
    match orNull caseName with
    | Some caseName => caseName +:+ " " +:+ cleanCitationForSearch citation
    | None => cleanCitationForSearch citation
    end in
  let encodedQuery := encodeSearchQuery searchQuery in
  let encodedCitation := encodeSearchQuery (cleanCitationForSearch citation) in
  [ LegalDatabaseLink.mk "Indian Kanoon"
      ("https://indiankanoon.org/search/?formInput=" +:+ encodedQuery)
      true "Free comprehensive Indian legal database" ]
  ++ (if JS.includes "sc" (JS.toLowerCase citation)
         || JS.includes "scc" (JS.toLowerCase citation)
      then [ LegalDatabaseLink.mk "Supreme Court of India"
               "https://main.sci.gov.in/judgments"
               true "Official Supreme Court judgments portal" ]
      else [])
  ++ [ LegalDatabaseLink.mk "Google Scholar"
         ("https://scholar.google.com/scholar?q=" +:+ encodedQuery +:+ "+india+court")
         true "Academic and legal document search";
       LegalDatabaseLink.mk "SCC Online"
         ("https://www.scconline.com/Members/SearchResult.aspx?search=" +:+ encodedCitation)
         false "Premium legal database (subscription required)";
       LegalDatabaseLink.mk "Manupatra"
         ("https://www.manupatrafast.com/Search/SearchResult.aspx?searchText="
          +:+ encodedCitation)
         false "Premium legal database (subscription required)";
       LegalDatabaseLink.mk "eCourts India"
         "https://ecourts.gov.in/ecourts_home/"
         true "Official government case status portal" ].

(** [links.find(p) || links[0]]; [None] is [undefined]. *)
Definition findOrFirst (p : LegalDatabaseLink.t -> bool)
    (links : list LegalDatabaseLink.t) : option LegalDatabaseLink.t :=
  match List.find p links with
  | Some link => Some link
  | None => head links
  end.

Definition getBestFreeLink (citation : string) (caseName : option string)
    : option LegalDatabaseLink.t :=
  findOrFirst LegalDatabaseLink.isFree (generateLegalDatabaseLinks citation caseName).

(** The link whose [url] [openCitationInDatabase] hands to [window.open];
    [None] stands for the [TypeError] of reading [url] of [undefined]. *)
Definition openCitationInDatabase (citation : string) (caseName : option string)
    (preferredDatabase : option string) : option LegalDatabaseLink.t :=
  let links := generateLegalDatabaseLinks citation caseName in
  match orNull preferredDatabase with
  | Some preferred =>
      findOrFirst
        (fun l => JS.includes (JS.toLowerCase preferred)
                    (JS.toLowerCase (LegalDatabaseLink.name l)))
        links
  | None => head links
  end.

(** The regular expressions of [isValidCitationFormat].  [test] asks whether
    some substring matches, which does not depend on the order in which a
    backtracking matcher tries the alternatives; it is computed here with
    derivatives.  [Never] matches nothing and arises only as a derivative. *)
Inductive Regex : Type :=
| Never
| Epsilon
| Char (p : ascii -> bool)
| Concat (a b : Regex)
| Choice (a b : Regex)
| Repeat (a : Regex).

Fixpoint nullable (r : Regex) : bool :=
  match r with
  | Never => false
  | Epsilon => true
  | Char _ => false
  | Concat a b => nullable a && nullable b
  | Choice a b => nullable a || nullable b
  | Repeat _ => true
  end.

Fixpoint derivative (c : ascii) (r : Regex) : Regex :=
  match r with
  | Never => Never
  | Epsilon => Never
  | Char p => if p c then Epsilon else Never
  | Concat a b =>
      if nullable a then Choice (Concat (derivative c a) b) (derivative c b)
      else Concat (derivative c a) b
  | Choice a b => Choice (derivative c a) (derivative c b)
  | Repeat a => Concat (derivative c a) (Repeat a)
  end.

(** Some prefix of [s] matches [r]. *)
Fixpoint matchesAtStart (r : Regex) (s : string) : bool :=
  nullable r
  || match s with
     | String c rest => matchesAtStart (derivative c r) rest
     | EmptyString => false
     end.

(** [r.test(s)] for an expression without the [g] and [y] flags. *)
Fixpoint regexTest (r : Regex) (s : string) : bool :=
  matchesAtStart r s
  || match s with
     | String _ rest => regexTest r rest
     | EmptyString => false
     end.

Definition isDigit (c : ascii) : bool :=
  let n := N_of_ascii c in ((48 <=? n) && (n <=? 57))%N.

(** A literal of an expression with the [i] flag. *)
Fixpoint literalCI (s : string) : Regex :=
  match s with
  | EmptyString => Epsilon
  | String c rest => Concat (Char (JS.eqCI c)) (literalCI rest)
  end.

Definition digit : Regex := Char isDigit.
Definition spaces : Regex := Repeat (Char JS.isWhiteSpace).
Definition digits : Regex := Concat digit (Repeat digit).
Definition year : Regex := Concat digit (Concat digit (Concat digit digit)).
Definition optional (r : Regex) : Regex := Choice r Epsilon.

Fixpoint oneOf (words : list string) : Regex :=
  match words with
  | [] => Never
  | [word] => literalCI word
  | word :: rest => Choice (literalCI word) (oneOf rest)
  end.

Fixpoint sequence (parts : list Regex) : Regex :=
  match parts with
  | [] => Epsilon
  | [part] => part
  | part :: rest => Concat part (sequence rest)
  end.

Definition validPatterns : list Regex :=
  [ sequence [literalCI "("; year; literalCI ")"; spaces; digits; spaces;
              oneOf ["SCC"; "SCR"; "AIR"; "Bom"; "Del"; "Mad"; "Cal"; "Kar"; "All"]];
    sequence [literalCI "AIR"; spaces; year; spaces;
              oneOf ["SC"; "Bom"; "Del"; "Mad"; "Cal"; "Kar"; "All"]];
    sequence [year; spaces; oneOf ["SCC"; "SCR"]; spaces; digits];
    sequence [literalCI "["; year; literalCI "]"; spaces; digits; spaces;
              oneOf ["SCR"; "SCC"]];
    sequence [literalCI "W"; optional (literalCI "."); literalCI "P";
              optional (literalCI "."); spaces; literalCI "(C";
              optional (literalCI ")"); spaces; literalCI "No";
              optional (literalCI "."); spaces; digits];
    sequence [literalCI "CRL"; optional (literalCI "."); literalCI "A";
              optional (literalCI "."); spaces; literalCI "No";
              optional (literalCI "."); spaces; digits];
    sequence [literalCI "SLP"; spaces; literalCI "(C"; optional (literalCI ")");
              spaces; literalCI "No"; optional (literalCI "."); spaces; digits] ].

(** The argument is [None] when the citation is missing. *)
Definition isValidCitationFormat (citation : option string) : bool :=
  match orNull citation with
  | None => false
  | Some citation => existsb (fun pattern => regexTest pattern citation) validPatterns
  end.

(** * The grouping of citations in the [SourceCitation] component

    [groupedCitations] collects the citations of an answer under their
    documents.  Its accumulator is an ordinary object used as a map: the own
    properties are held here in creation order; a key that names a property
    of [Object.prototype] reads as that inherited value; [Object.values]
    lists the values of the array-index keys first, in ascending order, and
    then those of the other keys in creation order. *)

Module Group.
Record t : Type := mk {
  document_id : string;
  document_title : string;
  master_name : string;
  chunks : list (Citation.t * nat)
}.

(** [group.chunks.push({ citation, originalIndex })] *)
Definition push (g : t) (chunk : Citation.t * nat) : t :=
  mk (document_id g) (document_title g) (master_name g) (chunks g ++ [chunk]).
End Group.

(** The properties that every ordinary object inherits. *)
Definition inheritedKeys : list string :=
  [ "constructor"; "hasOwnProperty"; "isPrototypeOf"; "propertyIsEnumerable";
    "toLocaleString"; "toString"; "valueOf"; "__proto__";
    "__defineGetter__"; "__defineSetter__"; "__lookupGetter__";
    "__lookupSetter__" ].

Fixpoint digitsValue (acc : N) (s : string) : option N :=
  match s with
  | EmptyString => Some acc
  | String c r =>
      if isDigit c then digitsValue (10 * acc + (N_of_ascii c - 48)) r else None
  end.

(** The index that a property key denotes when it is an array index: the
    canonical decimal form of an integer below 2^32 - 1. *)
Definition arrayIndex (key : string) : option N :=
  match key with
  | EmptyString => None
  | String c r =>
      if Ascii.eqb c "0" then (if String.eqb r EmptyString then Some 0%N else None)
      else match digitsValue 0 key with
           | Some n => if (n <? 4294967295)%N then Some n else None
           | None => None
           end
  end.

Fixpoint insertByIndex {A : Type} (x : N * A) (l : list (N * A)) : list (N * A) :=
  match l with
  | [] => [x]
  | y :: r => if (y.1 <? x.1)%N then y :: insertByIndex x r else x :: y :: r
  end.

(** [Object.values(o)] for the own properties [entries] of [o]. *)
Definition objectValues {A : Type} (entries : list (string * A)) : list A :=
  (foldr insertByIndex []
     (omap (fun e => (fun n => (n, e.2)) <$> arrayIndex e.1) entries)).*2
  ++ (List.filter (fun e => bool_decide (arrayIndex e.1 = None)) entries).*2.

Definition hasOwn {A : Type} (key : string) (entries : list (string * A)) : bool :=
  existsb (fun e => String.eqb e.1 key) entries.

(** [groups[key].chunks.push(chunk)]; [None] is the [TypeError] of reading
    [chunks] off a value that is no group, which is what an inherited
    property holds. *)
Fixpoint pushChunk (key : string) (chunk : Citation.t * nat)
    (groups : list (string * Group.t)) : option (list (string * Group.t)) :=
  match groups with
  | [] => None
  | (k, g) :: rest =>
      if String.eqb k key then Some ((k, Group.push g chunk) :: rest)
      else cons (k, g) <$> pushChunk key chunk rest
  end.

(** The callback of [citations.forEach]. *)
Definition groupStep (groups : list (string * Group.t)) (index : nat)
    (citation : Citation.t) : option (list (string * Group.t)) :=
  let key := Citation.document_id citation in
  let groups :=
    if hasOwn key groups || bool_decide (key ∈ inheritedKeys) then groups
    else groups ++ [(key, Group.mk key (Citation.document_title citation)
                            (Citation.master_name citation) [])] in
  pushChunk key (citation, index) groups.

Fixpoint forEachFrom (index : nat) (citations : list Citation.t)
    (groups : list (string * Group.t)) : option (list (string * Group.t)) :=
  match citations with
  | [] => Some groups
  | citation :: rest =>
      groups ← groupStep groups index citation;
      forEachFrom (S index) rest groups
  end.

(** The memoised value [groupedCitations]; the argument is [None] when the
    [citations] property is missing. *)
Definition groupedCitations (citations : option (list Citation.t))
    : option (list Group.t) :=
  match citations with
  | None => Some []
  | Some citations => objectValues <$> forEachFrom 0 citations []
  end.

(** * The chat page of [src/pages/auth/AuthPage.tsx]

    [handleSendMessage], the caller of [askQuestion].  Of a chat message the
    fields taken from the response are kept; its [id] and [timestamp] come
    from the clock.  The handler always appends the user's message before it
    asks; what it does next is summed up by [Sent]. *)

Module ChatMessage.
Record t : Type := mk {
  content : string;
  summary : option string;
  reading_time : option ReadingTime;
  citations : option (list Citation.t);
  aiModel : option string;
  debug : option Debug
}.
End ChatMessage.

Inductive Sent : Type :=
| NotSent
| Answered (questionText : string) (assistantMessage : ChatMessage.t)
| Toasted (questionText : string) (toast : string).

(** The options that the page passes: the user and no scope (the two scope
    options are commented out in the source). *)
Definition pageOptions (currentUserId : option string) : Options :=
  {| lawyerId := None; preceptorId := currentUserId;
     selectedDocumentIds := None; selectedMasters := None; sessionId := None |}.

(** [response.success ? response.answer || '' : response.message || 'No response'] *)
Definition messageContent (response : RAGResponse) : string :=
  if success response then default EmptyString (orNull (answer response))
  else default "No response" (orNull (message response)).

Section Page.
Context {World Embedding : Type} (svc : Services World Embedding).

Definition handleSendMessage (text : string) (isLoading : bool)
    (currentUserId : option string) : M World Sent :=
  if negb (JS.truthyString (JS.trim text)) || isLoading then mret NotSent
  else
    let questionText := JS.trim text in
    try_catch
      (response ← askQuestion svc questionText (pageOptions currentUserId);
       mret (Answered questionText
               {| ChatMessage.content := messageContent response;
                  ChatMessage.summary := summary response;
                  ChatMessage.reading_time := reading_time response;
                  ChatMessage.citations := citations response;
                  ChatMessage.aiModel := model <$> metadata response;
                  ChatMessage.debug := debug response |}))
      (fun _ => mret (Toasted questionText "Failed to get response. Please try again.")).

End Page.

(** ** Test doubles

    Collaborators for concrete runs.  The world is the number of calls
    answered so far; an embedding is the text it was made from. *)
Module Demo.

Definition chunk (id document : string) (sim : Q) (content : string) : Chunk.t :=
  Chunk.mk id document ("Title of " +:+ document) "Supreme Court" content
    (Some sim) (Some 3%Z) None None None None None None None.

(** The pool of the deduplication example. *)
Definition pool : list Chunk.t :=
  [ chunk "a" "doc-1" 0.4 "First sighting of a.";
    chunk "b" "doc-2" 0.9 "Only sighting of b.";
    chunk "a" "doc-1" 0.99 "Second sighting of a." ].

Definition noOptions : Options :=
  {| lawyerId := None; preceptorId := Some "user-1";
     selectedDocumentIds := None; selectedMasters := None; sessionId := None |}.

Definition onlyDocuments (ids : list string) : Options :=
  {| lawyerId := None; preceptorId := Some "user-1";
     selectedDocumentIds := Some ids; selectedMasters := None; sessionId := None |}.

Definition onlyMasters (names : list string) : Options :=
  {| lawyerId := None; preceptorId := Some "user-1";
     selectedDocumentIds := None; selectedMasters := Some names; sessionId := None |}.

Definition completion : string :=
  "Bail is the release of an accused person.---SECTION_SEPARATOR---## Legal Issue" +:+ JS.newline +:+ "Bail under the Code.".

Definition usage : Usage.t := Usage.mk (Some 100%Z) (Some 20%Z) (Some 120%Z).

(** Services that find [found] for the original question only, return
    [recent] as the latest chunks and [masterDocs] as the documents of any
    category, and whose completion endpoint is overloaded for the models in
    [failing]. *)
Definition services (question : string) (found : list Chunk.t)
    (recent : list FallbackRow) (masterDocs : option (list MasterDoc.t))
    (failing : list string) : Services nat string :=
  {| svc_generateEmbedding := fun text w =>
       (Resolved {| embedding := text; tokenCount := 7 |}, S w);
     svc_match_legalrnd_chunks := fun e w =>
       ({| rpc_data := Some (if String.eqb e question then found else []);
           rpc_error := None |}, S w);
     svc_documentsByMaster := fun _ w => (masterDocs, S w);
     svc_documentsById := fun ids w =>
       (Some ((fun i => Doc.mk i ("Title of " +:+ i)
                          (Some ("files/" +:+ i +:+ ".PDF")) None) <$> ids), S w);
     svc_recentChunks := fun w => (Some recent, S w);
     svc_fetchCompletion := fun model _ _ w =>
       (if bool_decide (model ∈ failing)
        then HttpError 503 ("overloaded: " +:+ model)
        else Completed completion (Some usage), S w);
     svc_createSignedUrl := fun path w => (Some ("https://signed/" +:+ path), S w);
     svc_insertUsageLog := fun _ w => (Resolved None, S w);
     svc_now := fun w => "2026-01-01T00:00:00.000Z" |}.

Definition question : string := "What is anticipatory bail?".

(** A completion without the separator, and one whose first paragraph ends
    in a space. *)
Definition degradedReply : string :=
  "No separator here." +:+ JS.blankLine +:+ "More text.".

Definition paddedReply : string :=
  "Hello " +:+ JS.blankLine +:+ "More text.".

Definition recentRow : FallbackRow :=
  {| fr_chunk := chunk "z" "doc-3" 0.1 "A recent passage.";
     fr_legalrnd_documents :=
       Some (Doc.mk "doc-3" "Title of doc-3" (Some "files/doc-3.pdf") (Some "pdf")) |}.

(** Every model answers; the search finds the pool. *)
Definition healthy : Services nat string := services question pool [] None [].

(** The first two models of the priority list are down. *)
Definition twoDown : Services nat string :=
  services question pool [] None (take 2 modelPriority).

(** The search finds nothing, one recent chunk exists, every model is down. *)
Definition outage : Services nat string :=
  services question [] [recentRow] None modelPriority.

(** The search finds nothing, one recent chunk exists, every model answers. *)
Definition onlyRecent : Services nat string :=
  services question [] [recentRow] None [].

(** The search finds the pool; the lookup of a category returns a list
    without rows. *)
Definition zeroRows : Services nat string :=
  services question pool [] (Some []) [].

(** A query answered from the retrieved chunks. *)
Definition answered : Outcome RAGResponse * nat * list Event :=
  askQuestion healthy question noOptions 0.

Definition answeredResponse : RAGResponse :=
  match answered.1.1 with
  | Resolved response => response
  | Rejected error => failure error
  end.

(** A generation with two failed attempts before the success. *)
Definition generated : Outcome RAGResponse * nat * list Event :=
  generateResponseWithFallback twoDown question pool 7 0.

Definition generatedResponse : RAGResponse :=
  match generated.1.1 with
  | Resolved response => response
  | Rejected error => failure error
  end.

End Demo.

(** ** Vocabulary of the properties *)

(** Descending order of similarity, a missing similarity counting as 0. *)
Definition similarityDescending (a b : Chunk.t) : Prop :=
  (Num.orZero (Chunk.similarity b) <= Num.orZero (Chunk.similarity a))%Q.

(** [c] stands at index [i] of [chunks] and no chunk before it has its id. *)
Definition firstWithId (chunks : list Chunk.t) (i : nat) (c : Chunk.t) : Prop :=
  chunks !! i = Some c
  /\ forall j c', j < i -> chunks !! j = Some c' -> Chunk.id c' <> Chunk.id c.

(** The models whose completion was requested, in order. *)
Definition completionCalls (t : list Event) : list string :=
  omap (fun e => match e with EvCompletion m => Some m | _ => None end) t.

(** The failed attempts that the fallback chain recorded, in order. *)
Definition failedAttempts (t : list Event) : list (string * string) :=
  omap (fun e => match e with EvModelFailed m err => Some (m, err) | _ => None end) t.

(** The entries handed to the usage log. *)
Definition usageLogs (t : list Event) : list LogEntry.t :=
  omap (fun e => match e with EvUsageLog entry => Some entry | _ => None end) t.

(** The token counts of the embeddings that were made, in order. *)
Definition embeddingTokenCounts (t : list Event) : list Z :=
  omap (fun e => match e with EvEmbed _ tokens => tokens | _ => None end) t.

(** Calls of the retrieval stage: embeddings, searches and the two lookups of
    documents. *)
Definition isRetrievalEvent (e : Event) : bool :=
  match e with
  | EvEmbed _ _ | EvMatchChunks | EvDocumentsByMaster _ | EvDocumentsById _ => true
  | _ => false
  end.

(** Calls and warnings of the generation stage. *)
Definition isGenerationEvent (e : Event) : bool :=
  match e with
  | EvCompletion _ | EvSignUrl _ | EvModelFailed _ _ => true
  | _ => false
  end.

(** Every event of every run of [m] satisfies [P]. *)
Definition emitsOnly {World A : Type} (P : Event -> bool) (m : M World A) : Prop :=
  forall w, forallb P (m w).2 = true.

Definition isCompleted (reply : FetchReply) : bool :=
  match reply with
  | Completed _ _ => true
  | _ => false
  end.

(** The world after the completion endpoint has failed for each of [models]
    in turn, starting from [w]; [None] if one of them completes. *)
Fixpoint worldAfterFailures {World Embedding : Type}
    (svc : Services World Embedding) (question : string)
    (chunks : list Chunk.t) (models : list string) (w : World) : option World :=
  match models with
  | [] => Some w
  | model :: rest =>
      let '(reply, w1) :=
        svc_fetchCompletion svc model (buildSystemPrompt question chunks)
          (buildUserPrompt question) w in
      if isCompleted reply then None
      else worldAfterFailures svc question chunks rest w1
  end.

(** [citation] is the citation of [chunk]: same identity, the whole content,
    and a quote of at most 200 code units, marked when it was cut. *)
Definition cites (chunk : Chunk.t) (citation : Citation.t) : Prop :=
  Citation.chunk_id citation = Chunk.id chunk
  /\ Citation.document_id citation = Chunk.document_id chunk
  /\ Citation.full_content citation = Chunk.content chunk
  /\ (String.length (Chunk.content chunk) <= 200 ->
      Citation.quote citation = Chunk.content chunk)
  /\ (200 < String.length (Chunk.content chunk) ->
      Citation.quote citation = JS.take 200 (Chunk.content chunk) +:+ "...").

(** The embedding tokens of the variant searches: those of every embedding
    but the first, which is the embedding of the question that [askQuestion]
    makes before it searches. *)
Definition variantSearchTokens (t : list Event) : Z :=
  foldr Z.add 0%Z (drop 1 (embeddingTokenCounts t)).

Definition isFallbackRetrieval (e : Event) : bool :=
  match e with
  | EvRecentChunks => true
  | _ => false
  end.

Definition isSignUrl (e : Event) : bool :=
  match e with
  | EvSignUrl _ => true
  | _ => false
  end.

(** [response] is the success result that the fallback chain builds from a
    completion by [model] for [question] over [chunks]. *)
Definition generatedBy (question : string) (chunks : list Chunk.t)
    (embeddingTokens : Z) (model : string) (response : RAGResponse) : Prop :=
  success response = true
  /\ (exists total prompt completion,
        metadata response
        = Some {| model := model; chunkCount := length chunks;
                  embeddingModel := "text-embedding-3-small";
                  totalTokens := total |}
        /\ tokenUsage response
           = Some {| tu_embeddingTokens := embeddingTokens;
                     tu_promptTokens := prompt;
                     tu_completionTokens := completion;
                     tu_totalTokens := total;
                     tu_grandTotal := embeddingTokens + total |})
  /\ (exists raw,
        rawResponse response = Some raw
        /\ answer response = Some (p_answer (parseModelResponse raw))
        /\ summary response = Some (p_summary (parseModelResponse raw)))
  /\ debug response
     = Some {| systemPrompt := buildSystemPrompt question chunks;
               userPrompt := buildUserPrompt question |}
  /\ (exists cited, citations response = Some cited /\ Forall2 cites chunks cited).

(** ** Further test doubles *)
Module Cases.

(** The embedding provider rejects every request. *)
Definition embeddingDown : Services nat string :=
  {| svc_generateEmbedding := fun _ w => (Rejected "embedding service unavailable", S w);
     svc_match_legalrnd_chunks := svc_match_legalrnd_chunks Demo.healthy;
     svc_documentsByMaster := svc_documentsByMaster Demo.healthy;
     svc_documentsById := svc_documentsById Demo.healthy;
     svc_recentChunks := svc_recentChunks Demo.healthy;
     svc_fetchCompletion := svc_fetchCompletion Demo.healthy;
     svc_createSignedUrl := svc_createSignedUrl Demo.healthy;
     svc_insertUsageLog := svc_insertUsageLog Demo.healthy;
     svc_now := svc_now Demo.healthy |}.

(** The searches find nothing and there is no recent chunk. *)
Definition emptyCorpus : Services nat string :=
  Demo.services Demo.question [] [] None [].

(** Two chunks, the first of a stored file. *)
Definition filedPool : list Chunk.t :=
  [ Chunk.with_file (Demo.chunk "a" "doc-1" 0.9 "A passage.")
      (Some "files/doc-1.PDF") None;
    Demo.chunk "b" "doc-2" 0.4 "Another passage." ].

(** A retrieval scoped to one document of the pool. *)
Definition scopedRetrieval
  : Outcome (EmbeddingResult string * list Chunk.t) * nat * list Event :=
  retrieveChunks Demo.healthy Demo.question (Demo.onlyDocuments ["doc-2"]) 0.

(** The search for the question itself reports an error, with the pool as its
    rows; the search for the question in its fixed context finds one chunk;
    the other searches find nothing. *)
Definition erroringSearch : Services nat string :=
  {| svc_generateEmbedding := svc_generateEmbedding Demo.healthy;
     svc_match_legalrnd_chunks := fun e w =>
       (if String.eqb e Demo.question
        then {| rpc_data := Some Demo.pool; rpc_error := Some "statement timeout" |}
        else {| rpc_data :=
                  Some (if String.eqb e
                             (Demo.question
                              +:+ " in Heartfulness meditation spiritual practice")
                        then [Demo.chunk "c" "doc-3" 0.5 "A third passage."]
                        else []);
                rpc_error := None |},
        S w);
     svc_documentsByMaster := svc_documentsByMaster Demo.healthy;
     svc_documentsById := svc_documentsById Demo.healthy;
     svc_recentChunks := svc_recentChunks Demo.healthy;
     svc_fetchCompletion := svc_fetchCompletion Demo.healthy;
     svc_createSignedUrl := svc_createSignedUrl Demo.healthy;
     svc_insertUsageLog := svc_insertUsageLog Demo.healthy;
     svc_now := svc_now Demo.healthy |}.

(** The searches of the question over those services. *)
Definition searchedWithError : Outcome (list Chunk.t) * nat * list Event :=
  searchAll erroringSearch (generateSearchQueries Demo.question) [] 0.

(** A generation over [filedPool] with two models down. *)
Definition filedGeneration : Outcome RAGResponse * nat * list Event :=
  generateResponseWithFallback Demo.twoDown Demo.question filedPool 7 0.

(** The query of the outage scenario. *)
Definition exhausted : Outcome RAGResponse * nat * list Event :=
  askQuestion Demo.outage Demo.question Demo.noOptions 0.

End Cases.

(** ** Vocabulary of the further properties *)

(** Every code unit of [s] satisfies [p]. *)
Fixpoint allChars (p : ascii -> bool) (s : string) : bool :=
  match s with
  | EmptyString => true
  | String c r => p c && allChars p r
  end.

(** The code units of [s] that satisfy [p], in order. *)
Fixpoint keepChars (p : ascii -> bool) (s : string) : string :=
  match s with
  | EmptyString => EmptyString
  | String c r => if p c then String c (keepChars p r) else keepChars p r
  end.

(** What is neither white space nor a parenthesis. *)
Definition isInk (c : ascii) : bool :=
  negb (JS.isWhiteSpace c) && negb (isParenthesis c).

(** White space occurs in [s] only as single spaces, each followed by a code
    unit that is not white space. *)
Fixpoint singleSpaced (s : string) : bool :=
  match s with
  | EmptyString => true
  | String c r =>
      (if JS.isWhiteSpace c
       then Ascii.eqb c " "
            && match r with
               | String d _ => negb (JS.isWhiteSpace d)
               | EmptyString => false
               end
       else true)
      && singleSpaced r
  end.

(** The characters of a URL that the links are made of: unreserved ones and
    [: / ? = + %]. *)
Definition isUrlChar (c : ascii) : bool :=
  isUriUnreserved c
  || existsb (Ascii.eqb c) [":"; "/"; "?"; "="; "+"; "%"]%char.

(** Reading back what [encodeURIComponent] wrote: the code unit of an escape
    of one or two octets. *)
Definition hexValue (c : ascii) : N :=
  let n := N_of_ascii c in (if n <? 58 then n - 48 else n - 55)%N.

Definition octetValue (a b : ascii) : N := (16 * hexValue a + hexValue b)%N.

Fixpoint decodeEscapes (s : string) : string :=
  match s with
  | String "%" (String a (String b r)) =>
      if (octetValue a b <? 128)%N
      then String (ascii_of_N (octetValue a b)) (decodeEscapes r)
      else match r with
           | String "%" (String a' (String b' r')) =>
               String (ascii_of_N (64 * (octetValue a b - 192)
                                   + (octetValue a' b' - 128)))
                 (decodeEscapes r')
           | _ => EmptyString
           end
  | String c r => String c (decodeEscapes r)
  | EmptyString => EmptyString
  end.

(** A group as the component shows it: at least one passage, the title and
    category of the first one, every passage of the group's document, the
    original indices ascending. *)
Definition wellGrouped (g : Group.t) : Prop :=
  (exists first rest,
     Group.chunks g = first :: rest
     /\ Group.document_title g = Citation.document_title first.1
     /\ Group.master_name g = Citation.master_name first.1)
  /\ Forall (fun chunk => Citation.document_id chunk.1 = Group.document_id g)
       (Group.chunks g)
  /\ StronglySorted lt (Group.chunks g).*2.

(** The citations with their positions, from [index] on. *)
Fixpoint indexedFrom (index : nat) (citations : list Citation.t)
    : list (Citation.t * nat) :=
  match citations with
  | [] => []
  | citation :: rest => (citation, index) :: indexedFrom (S index) rest
  end.

(** The strings that a regular expression matches in full. *)
Inductive Matches : Regex -> string -> Prop :=
| MatchesEpsilon : Matches Epsilon EmptyString
| MatchesChar (p : ascii -> bool) (c : ascii) :
    p c = true -> Matches (Char p) (String c EmptyString)
| MatchesConcat (a b : Regex) (s1 s2 : string) :
    Matches a s1 -> Matches b s2 -> Matches (Concat a b) (s1 +:+ s2)
| MatchesChoiceL (a b : Regex) (s : string) : Matches a s -> Matches (Choice a b) s
| MatchesChoiceR (a b : Regex) (s : string) : Matches b s -> Matches (Choice a b) s
| MatchesRepeatNil (a : Regex) : Matches (Repeat a) EmptyString
| MatchesRepeatCons (a : Regex) (s1 s2 : string) :
    Matches a s1 -> Matches (Repeat a) s2 -> Matches (Repeat a) (s1 +:+ s2).

(** Some code unit of [s] satisfies [p]. *)
Fixpoint someChar (p : ascii -> bool) (s : string) : bool :=
  match s with
  | EmptyString => false
  | String c r => p c || someChar p r
  end.

(** Every string that [r] matches holds a digit; decided on the syntax, a
    class counting when it holds digits only. *)
Fixpoint demandsDigit (r : Regex) : bool :=
  match r with
  | Never => true
  | Epsilon => false
  | Char p =>
      forallb (fun n => implb (p (ascii_of_nat n)) (isDigit (ascii_of_nat n)))
        (seq 0 256)
  | Concat a b => demandsDigit a || demandsDigit b
  | Choice a b => demandsDigit a && demandsDigit b
  | Repeat _ => false
  end.

(** A lower-case ASCII letter, and a string of them: the off-topic keywords
    are such strings. *)
Definition isLowerLetter (c : ascii) : bool :=
  let n := N_of_ascii c in ((97 <=? n) && (n <=? 122))%N.

Fixpoint allLowerLetters (s : string) : bool :=
  match s with
  | EmptyString => true
  | String c r => isLowerLetter c && allLowerLetters r
  end.

(** No occurrence of the separator begins inside [s], not even one that the
    separator following [s] would complete. *)
Definition separatorFree (s : string) : Prop :=
  JS.includes SECTION_SEPARATOR
    (s +:+ JS.take (String.length SECTION_SEPARATOR - 1) SECTION_SEPARATOR) = false.

(** A title that a part label may hold before its closing stars: no star and
    no line terminator. *)
Definition isTitleChar (c : ascii) : bool :=
  negb (JS.isLineTerminator c) && negb (Ascii.eqb c "*").

(** A word: at least one code unit, none of them white space. *)
Fixpoint noWhiteSpace (s : string) : bool :=
  match s with
  | EmptyString => true
  | String c r => negb (JS.isWhiteSpace c) && noWhiteSpace r
  end.

Definition isWord (s : string) : Prop := s <> EmptyString /\ noWhiteSpace s = true.

(** The texts that were sent to the embedding provider, in order. *)
Definition embeddedTexts (t : list Event) : list string :=
  omap (fun e => match e with EvEmbed text _ => Some text | _ => None end) t.

(** What the searches for [queries], made one after the other from the world
    [w] on, contribute: the rows of each search in the order of the queries,
    a search that reports an error (whatever rows come with it) or that
    returns no data contributing none. *)
Fixpoint searchContributions {World Embedding : Type}
    (svc : Services World Embedding) (queries : list string) (w : World)
    : list Chunk.t :=
  match queries with
  | [] => []
  | query :: rest =>
      match svc_generateEmbedding svc query w with
      | (Resolved queryEmbedding, w0) =>
          let '(reply, w1) :=
            svc_match_legalrnd_chunks svc (embedding queryEmbedding) w0 in
          match rpc_error reply with
          | Some _ => []
          | None => default [] (rpc_data reply)
          end
          ++ searchContributions svc rest w1
      | (Rejected _, _) => []
      end
  end.

(** [enhanced] is [chunk] with the file fields of its document. *)
Definition retrievedAs (chunk enhanced : Chunk.t) : Prop :=
  exists path type, enhanced = Chunk.with_file chunk path type.

(** The last row of [documents] with the id [i]. *)
Definition lastRowWithId (i : string) (documents : list Doc.t) : option Doc.t :=
  last (List.filter (fun d => String.eqb (Doc.id d) i) documents).

(** The storage paths for which a signed url was requested, in order. *)
Definition signUrlCalls (t : list Event) : list string :=
  omap (fun e => match e with EvSignUrl path => Some path | _ => None end) t.

(** The storage paths of the chunks that have one, in order. *)
Definition storagePaths (chunks : list Chunk.t) : list string :=
  omap (fun chunk => orNull (Chunk.file_path chunk)) chunks.

(** What a citation says about the file of its chunk. *)
Definition filed (chunk : Chunk.t) (citation : Citation.t) : Prop :=
  Citation.file_type citation <> EmptyString
  /\ Citation.file_url citation <> Some EmptyString
  /\ (orNull (Chunk.file_path chunk) = None -> Citation.file_url citation = None)
  /\ (forall path,
        orNull (Chunk.file_path chunk) = Some path ->
        JS.endsWith ".pdf" (JS.toLowerCase path) = true ->
        Citation.file_type citation = "application/pdf")
  /\ (forall declared,
        Chunk.file_type chunk = Some declared ->
        JS.toLowerCase declared = "pdf" ->
        Citation.file_type citation = "application/pdf").

(** What a successful response says of its tokens and cost: the grand total
    is the embedding tokens plus the total of the completion, and the
    estimated cost is that of the grand total at the rate of [name]. *)
Definition costedBy (embeddingTokens : Z) (name : string)
    (response : RAGResponse) : Prop :=
  exists usage,
    tokenUsage response = Some usage
    /\ model <$> metadata response = Some name
    /\ totalTokens <$> metadata response = Some (tu_totalTokens usage)
    /\ tu_grandTotal usage = (embeddingTokens + tu_totalTokens usage)%Z
    /\ estimatedCost response = Some (estimateCost name (tu_grandTotal usage)).

(** White space occurs only as single spaces; one may end the string. *)
Fixpoint looselySpaced (s : string) : bool :=
  match s with
  | EmptyString => true
  | String c r =>
      (if JS.isWhiteSpace c
       then Ascii.eqb c " "
            && match r with
               | String d _ => negb (JS.isWhiteSpace d)
               | EmptyString => true
               end
       else true)
      && looselySpaced r
  end.

(** What holds of the accumulator when the citations before [index], which
    are [done], have been taken in. *)
Definition grouped (index : nat) (done : list (Citation.t * nat))
    (groups : list (string * Group.t)) : Prop :=
  NoDup groups.*1
  /\ Forall (fun key => key ∉ inheritedKeys) groups.*1
  /\ Forall (fun e => Group.document_id e.2 = e.1
                      /\ wellGrouped e.2
                      /\ Forall (fun chunk => chunk.2 < index) (Group.chunks e.2))
       groups
  /\ concat (Group.chunks <$> groups.*2) ≡ₚ done.

(** The total tokens of a completion: the reported total, else the reported
    prompt tokens plus the reported completion tokens, each of them counting
    as 0 when it is not reported. *)
Definition reportedTotal (usage : option Usage.t) : Z :=
  match usage ≫= Usage.total_tokens with
  | Some total =>
      if (total =? 0)%Z
      then (default 0 (usage ≫= Usage.prompt_tokens)
            + default 0 (usage ≫= Usage.completion_tokens))%Z
      else total
  | None => (default 0 (usage ≫= Usage.prompt_tokens)
             + default 0 (usage ≫= Usage.completion_tokens))%Z
  end.

(** [response] was built from the completion text [raw], with the usage block
    [reported], that one of [models] returned for the prompt over [chunks]:
    the model was requested after one failed request to each model before
    it, the first of them made at [w]. *)
Definition completedBy {World Embedding : Type} (svc : Services World Embedding)
    (question : string) (chunks : list Chunk.t) (models : list string)
    (w : World) (raw : string) (reported : option Usage.t)
    (response : RAGResponse) : Prop :=
  exists k name wk w',
    models !! k = Some name
    /\ worldAfterFailures svc question chunks (take k models) w = Some wk
    /\ svc_fetchCompletion svc name (buildSystemPrompt question chunks)
         (buildUserPrompt question) wk = (Completed raw reported, w')
    /\ rawResponse response = Some raw
    /\ model <$> metadata response = Some name.

(** * Properties *)

(** ** Strings and parsing *)

Lemma split_absent (sep s : string) :
  JS.includes sep s = false -> JS.split sep s = [s].
Proof.
  unfold JS.split. induction s as [|c r IH]; intros H; [reflexivity|].
  cbn [JS.includes] in H. apply orb_false_iff in H as [Hhere Hrest].
  cbn [JS.splitFrom]. rewrite Hhere, (IH Hrest). reflexivity.
Qed.

Lemma append_cons (c : ascii) (r s : string) : String c r +:+ s = String c (r +:+ s).
Proof. reflexivity. Qed.

Lemma append_nil (s : string) : EmptyString +:+ s = s.
Proof. reflexivity. Qed.

Lemma append_empty_r (s : string) : s +:+ EmptyString = s.
Proof.
  induction s as [|c r IH]; [reflexivity|]. now rewrite append_cons, IH.
Qed.

Lemma append_assoc (a b c : string) : (a +:+ b) +:+ c = a +:+ b +:+ c.
Proof.
  induction a as [|x a IH]; [reflexivity|]. now rewrite !append_cons, IH.
Qed.

Lemma startsWith_append (p s : string) : JS.startsWith p (p +:+ s) = true.
Proof.
  induction p as [|c p IH]; [reflexivity|].
  rewrite append_cons. cbn. rewrite Ascii.eqb_refl. exact IH.
Qed.

Lemma take_all (n : nat) (s : string) : String.length s <= n -> JS.take n s = s.
Proof.
  revert n. induction s as [|c r IH]; intros [|n] H; cbn in *; try reflexivity; try lia.
  rewrite IH; [reflexivity | lia].
Qed.

Lemma startsWith_blankLine (s : string) :
  JS.startsWith JS.blankLine s = true <-> exists rest, s = JS.blankLine +:+ rest.
Proof.
  split.
  - destruct s as [|c [|d r]]; cbn [JS.startsWith JS.blankLine]; intros H.
    + discriminate.
    + now rewrite andb_false_r in H.
    + rewrite andb_true_r in H. apply andb_prop in H as [Hc Hd].
      apply Ascii.eqb_eq in Hc, Hd. subst. now exists r.
  - intros [rest ->]. apply startsWith_append.
Qed.

Lemma firstParagraph_spec (s : string) :
  JS.includes JS.blankLine (firstParagraph s) = false
  /\ (firstParagraph s = s
      \/ exists rest, s = firstParagraph s +:+ JS.blankLine +:+ rest).
Proof.
  induction s as [|c r [IHno IHcut]]; [split; [reflexivity | now left]|].
  cbn [firstParagraph].
  destruct (JS.startsWith JS.blankLine (String c r)) eqn:Hhere.
  - split; [reflexivity|]. right.
    apply startsWith_blankLine in Hhere as [rest ->]. now exists rest.
  - split.
    + cbn [JS.includes]. rewrite IHno, orb_false_r.
      destruct (JS.startsWith JS.blankLine (String c (firstParagraph r))) eqn:Hp; [|reflexivity].
      apply startsWith_blankLine in Hp as [rest Hp].
      injection Hp as -> Hp.
      destruct r as [|d r']; [discriminate Hp|].
      cbn [firstParagraph] in Hp.
      destruct (JS.startsWith JS.blankLine (String d r')); [discriminate Hp|].
      injection Hp as -> _.
      discriminate Hhere.
    + destruct IHcut as [Heq | [rest Heq]].
      * left. now rewrite Heq.
      * right. exists rest. now rewrite append_cons, <- Heq.
Qed.

(** C8 (as amended).  For every raw completion text without the separator,
    [parseModelResponse] returns (it is a total function: nothing is raised)
    the whole trimmed input as the answer, and as the summary the first
    paragraph of the trimmed input, itself trimmed, when that paragraph is
    under 500 code units before trimming, the fixed placeholder otherwise.
    The degradation example of the specification gives the summary
    [No separator here.] and the full input as the answer. *)
Theorem parseModelResponse_without_separator (rawContent : string) :
  JS.includes SECTION_SEPARATOR rawContent = false ->
  p_answer (parseModelResponse rawContent) = JS.trim rawContent
  /\ (String.length (firstParagraph (JS.trim rawContent)) < 500 ->
      p_summary (parseModelResponse rawContent)
      = JS.trim (firstParagraph (JS.trim rawContent)))
  /\ (500 <= String.length (firstParagraph (JS.trim rawContent)) ->
      p_summary (parseModelResponse rawContent) = summaryPlaceholder)
  /\ p_summary (parseModelResponse Demo.degradedReply) = "No separator here."
  /\ p_answer (parseModelResponse Demo.degradedReply) = Demo.degradedReply.
Proof.
  intros Habsent. unfold parseModelResponse at 1 2 3.
  rewrite (split_absent _ _ Habsent). cbn [p_answer p_summary].
  split; [reflexivity|]. split; [|split; [|split; vm_compute; reflexivity]]; intros Hlen.
  - apply Nat.ltb_lt in Hlen. now rewrite Hlen.
  - apply Nat.ltb_ge in Hlen. now rewrite Hlen.
Qed.

Lemma parseModelResponse_without_separator_witness :
  JS.includes SECTION_SEPARATOR Demo.paddedReply = false
  /\ p_answer (parseModelResponse Demo.paddedReply) = JS.trim Demo.paddedReply
  /\ p_summary (parseModelResponse Demo.paddedReply) = "Hello".
Proof.
  split; [vm_compute; reflexivity|].
  destruct (parseModelResponse_without_separator Demo.paddedReply)
    as (Hanswer & Hshort & _); [vm_compute; reflexivity|].
  split; [exact Hanswer|].
  rewrite Hshort; [vm_compute; reflexivity | vm_compute; lia].
Defined.

(** C8 (as stated) fails: the summary is not the text up to the first double
    line break when that text ends in white space.  Here that text is
    [Hello ] with its final space, well under 500 code units, and the summary
    is [Hello]. *)
Lemma parseModelResponse_summary_is_trimmed :
  JS.includes SECTION_SEPARATOR Demo.paddedReply = false
  /\ firstParagraph Demo.paddedReply = "Hello "
  /\ Demo.paddedReply = firstParagraph Demo.paddedReply +:+ JS.blankLine +:+ "More text."
  /\ p_summary (parseModelResponse Demo.paddedReply) = "Hello"
  /\ p_summary (parseModelResponse Demo.paddedReply) <> firstParagraph Demo.paddedReply.
Proof. vm_compute. repeat split; try reflexivity. discriminate. Qed.

(** ** Cost *)

(** A model whose rate is 0 in the table is charged the default rate. *)
Lemma estimateCost_zero_rate (model : string) (tokens : Z) :
  costPer1M !! model = Some 0%Q ->
  (estimateCost model tokens == inject_Z tokens / 1000000)%Q.
Proof.
  intros H. unfold estimateCost, modelCost. rewrite H.
  change (if Num.truthy (Some 0%Q) then Num.orZero (Some 0%Q) else 1.0%Q) with 1.0%Q.
  assert (H1 : (1.0 == 1)%Q) by reflexivity. rewrite H1. apply Qmult_1_r.
Qed.

(** C1 (the code departs from it).  The two models with a configured rate of
    0 are not free: for 1,000,000 tokens [estimateCost] returns 1, the
    default rate of an unknown model, because [costPer1M[model] || 1.0]
    takes a rate of 0 for a missing one. *)
Theorem estimateCost_free_models_are_charged :
  costPer1M !! "google/gemini-2.0-flash-exp:free" = Some 0%Q
  /\ (estimateCost "google/gemini-2.0-flash-exp:free" 1000000 == 1)%Q
  /\ costPer1M !! "meta-llama/llama-3.1-8b-instruct:free" = Some 0%Q
  /\ (estimateCost "meta-llama/llama-3.1-8b-instruct:free" 1000000 == 1)%Q.
Proof. vm_compute. repeat split; reflexivity. Qed.

(** ** Deduplication *)

Lemma sortInsert_Permutation {A : Type} (compare : A -> A -> Q) (x : A) (l : list A) :
  sortInsert compare x l ≡ₚ x :: l.
Proof.
  induction l as [|y r IH]; cbn; [reflexivity|].
  destruct (Qlt_le_dec 0 (compare x y)); [|reflexivity].
  rewrite IH. apply Permutation_swap.
Qed.

Lemma arraySort_Permutation {A : Type} (compare : A -> A -> Q) (l : list A) :
  arraySort compare l ≡ₚ l.
Proof.
  induction l as [|x r IH]; cbn; [reflexivity|].
  now rewrite sortInsert_Permutation, IH.
Qed.

Lemma sortInsert_similarityDescending (x : Chunk.t) (l : list Chunk.t) :
  StronglySorted similarityDescending l ->
  StronglySorted similarityDescending (sortInsert bySimilarityDesc x l).
Proof.
  induction 1 as [|y r Hsorted IH Hall]; cbn.
  - repeat constructor.
  - unfold bySimilarityDesc at 1.
    destruct (Qlt_le_dec 0 _) as [Hlt | Hle].
    + constructor; [exact IH|].
      rewrite sortInsert_Permutation. constructor; [|exact Hall].
      unfold similarityDescending. lra.
    + assert (Hyx : similarityDescending x y)
        by (unfold similarityDescending; lra).
      constructor; [now constructor|].
      constructor; [exact Hyx|].
      eapply Forall_impl; [exact Hall|].
      intros z Hz. unfold similarityDescending in *. lra.
Qed.

Lemma arraySort_similarityDescending (l : list Chunk.t) :
  StronglySorted similarityDescending (arraySort bySimilarityDesc l).
Proof.
  induction l as [|x r IH]; cbn;
    [constructor | now apply sortInsert_similarityDescending].
Qed.

Lemma filterUnseen_elem (seen : gset string) (chunks : list Chunk.t) (c : Chunk.t) :
  c ∈ filterUnseen seen chunks ↔
  (Chunk.id c ∉ seen) ∧ ∃ i, firstWithId chunks i c.
Proof.
  revert seen. induction chunks as [|x rest IH]; intros seen; cbn [filterUnseen].
  - split; [intros H; inversion H | intros [_ [i [H _]]]; discriminate H].
  - destruct (decide (Chunk.id x ∈ seen)) as [Hin | Hnot].
    + rewrite IH. split.
      * intros [Hc [i [Hi Hfirst]]]. split; [exact Hc|].
        exists (S i). split; [exact Hi|].
        intros [|j] c' Hj Hc'; cbn in Hc'.
        -- injection Hc' as <-. congruence.
        -- apply (Hfirst j); [lia | exact Hc'].
      * intros [Hc [[|i] [Hi Hfirst]]]; cbn in Hi.
        -- injection Hi as ->. contradiction.
        -- split; [exact Hc|]. exists i. split; [exact Hi|].
           intros j c' Hj Hc'. apply (Hfirst (S j)); [lia | exact Hc'].
    + rewrite elem_of_cons, IH, not_elem_of_union, not_elem_of_singleton. split.
      * intros [-> | [[Hne Hc] [i [Hi Hfirst]]]].
        -- split; [exact Hnot|]. exists 0. split; [reflexivity | intros j c' Hj; lia].
        -- split; [exact Hc|]. exists (S i). split; [exact Hi|].
           intros [|j] c' Hj Hc'; cbn in Hc'.
           ++ injection Hc' as <-. congruence.
           ++ apply (Hfirst j); [lia | exact Hc'].
      * intros [Hc [[|i] [Hi Hfirst]]]; cbn in Hi.
        -- injection Hi as ->. now left.
        -- right. split.
           ++ split; [|exact Hc]. symmetry.
              apply not_eq_sym. intros Heq.
              apply (Hfirst 0 x); [lia | reflexivity | now symmetry].
           ++ exists i. split; [exact Hi|].
              intros j c' Hj Hc'. apply (Hfirst (S j)); [lia | exact Hc'].
Qed.

Lemma filterUnseen_NoDup (seen : gset string) (chunks : list Chunk.t) :
  NoDup (Chunk.id <$> filterUnseen seen chunks).
Proof.
  revert seen. induction chunks as [|x rest IH]; intros seen; cbn [filterUnseen].
  - constructor.
  - destruct (decide (Chunk.id x ∈ seen)); [apply IH|].
    rewrite fmap_cons. constructor; [|apply IH].
    rewrite list_elem_of_fmap. intros [c [Hid Hc]].
    apply filterUnseen_elem in Hc as [Hc _].
    apply Hc, elem_of_union_l, elem_of_singleton. now symmetry.
Qed.

(** C3.  For every pooled chunk list, [deduplicateChunks] keeps exactly the
    first occurrence of each chunk id (no id twice; a chunk is kept if and
    only if it stands in the pool before every other chunk of its id, so its
    similarity is that of the first sighting) and returns the survivors in
    descending order of similarity, a missing similarity counting as 0.  For
    the pool [a 0.4, b 0.9, a 0.99] the output is [b 0.9, a 0.4]. *)
Theorem deduplicateChunks_first_seen_sorted (chunks : list Chunk.t) :
  NoDup (Chunk.id <$> deduplicateChunks chunks)
  /\ (forall c, c ∈ deduplicateChunks chunks ↔ ∃ i, firstWithId chunks i c)
  /\ StronglySorted similarityDescending (deduplicateChunks chunks)
  /\ (fun c => (Chunk.id c, Chunk.similarity c)) <$> deduplicateChunks Demo.pool
     = [("b", Some 0.9%Q); ("a", Some 0.4%Q)].
Proof.
  unfold deduplicateChunks at 1 2 3. repeat split.
  - rewrite arraySort_Permutation. apply filterUnseen_NoDup.
  - rewrite arraySort_Permutation, filterUnseen_elem. now intros [_ H].
  - intros H. rewrite arraySort_Permutation, filterUnseen_elem.
    split; [apply not_elem_of_empty | exact H].
  - apply arraySort_similarityDescending.
Qed.

(** ** The service monad *)

Section MonadFacts.
Context {World : Type}.

Lemma run_bind {A B : Type} (m : M World A) (f : A -> M World B) (w : World) :
  (m ≫= f) w
  = match m w with
    | (Resolved a, w1, t1) => let '(r, w2, t2) := f a w1 in (r, w2, t1 ++ t2)
    | (Rejected e, w1, t1) => (Rejected e, w1, t1)
    end.
Proof. reflexivity. Qed.

Lemma run_ret {A : Type} (a : A) (w : World) :
  (mret a : M World A) w = (Resolved a, w, []).
Proof. reflexivity. Qed.

Lemma bind_resolved {A B : Type} (m : M World A) (f : A -> M World B)
    (w w1 : World) (a : A) (t1 : list Event) :
  m w = (Resolved a, w1, t1) ->
  (m ≫= f) w = (let '(r, w2, t2) := f a w1 in (r, w2, t1 ++ t2)).
Proof. intros H. now rewrite run_bind, H. Qed.

Lemma bind_rejected {A B : Type} (m : M World A) (f : A -> M World B)
    (w w1 : World) (e : string) (t1 : list Event) :
  m w = (Rejected e, w1, t1) -> (m ≫= f) w = (Rejected e, w1, t1).
Proof. intros H. now rewrite run_bind, H. Qed.

Lemma emitsOnly_ret {A : Type} (P : Event -> bool) (a : A) :
  emitsOnly P (mret a : M World A).
Proof. intros w. reflexivity. Qed.

Lemma emitsOnly_throw {A : Type} (P : Event -> bool) (e : string) :
  emitsOnly P (throw e : M World A).
Proof. intros w. reflexivity. Qed.

Lemma emitsOnly_bind {A B : Type} (P : Event -> bool) (m : M World A)
    (f : A -> M World B) :
  emitsOnly P m -> (forall a, emitsOnly P (f a)) -> emitsOnly P (m ≫= f).
Proof.
  intros Hm Hf w. rewrite run_bind. specialize (Hm w).
  destruct (m w) as [[[a | e] w1] t1]; cbn in Hm |- *; [|exact Hm].
  specialize (Hf a w1). destruct (f a w1) as [[r w2] t2]; cbn in Hf |- *.
  now rewrite forallb_app, Hm, Hf.
Qed.

Lemma emitsOnly_try_catch {A : Type} (P : Event -> bool) (m : M World A)
    (h : string -> M World A) :
  emitsOnly P m -> (forall e, emitsOnly P (h e)) -> emitsOnly P (try_catch m h).
Proof.
  intros Hm Hh w. unfold try_catch. specialize (Hm w).
  destruct (m w) as [[[a | e] w1] t1]; cbn in Hm |- *; [exact Hm|].
  specialize (Hh e w1). destruct (h e w1) as [[r w2] t2]; cbn in Hh |- *.
  now rewrite forallb_app, Hm, Hh.
Qed.

Lemma emitsOnly_call {R : Type} (P : Event -> bool) (op : World -> R * World)
    (ev : R -> Event) :
  (forall r, P (ev r) = true) -> emitsOnly P (call op ev).
Proof.
  intros H w. unfold call. destruct (op w) as [r w']. cbn. now rewrite H.
Qed.

Lemma emitsOnly_await {A : Type} (P : Event -> bool) (m : M World (Outcome A)) :
  emitsOnly P m -> emitsOnly P (await m).
Proof.
  intros H. apply (emitsOnly_bind P m); [exact H|].
  intros [a | e]; [apply emitsOnly_ret | apply emitsOnly_throw].
Qed.

Lemma emitsOnly_emit (P : Event -> bool) (e : Event) :
  P e = true -> emitsOnly P (emit e : M World unit).
Proof. intros H w. cbn. now rewrite H. Qed.

End MonadFacts.

Create HintDb emits.

#[local] Hint Resolve emitsOnly_ret emitsOnly_throw emitsOnly_bind
  emitsOnly_try_catch emitsOnly_call emitsOnly_await emitsOnly_emit : emits.

Section StageFacts.
Context {World Embedding : Type} (svc : Services World Embedding).

Lemma generateEmbedding_emits (text : string) :
  emitsOnly isRetrievalEvent (generateEmbedding svc text).
Proof. unfold generateEmbedding. auto with emits. Qed.

Lemma searchAll_emits (searchQueries : list string) (allChunks : list Chunk.t) :
  emitsOnly isRetrievalEvent (searchAll svc searchQueries allChunks).
Proof.
  revert allChunks. induction searchQueries as [|q rest IH]; intros allChunks; cbn [searchAll].
  - apply emitsOnly_ret.
  - apply emitsOnly_bind; [apply generateEmbedding_emits|]. intros e.
    apply emitsOnly_bind; [now apply emitsOnly_call|]. intros reply. apply IH.
Qed.

Lemma filterBySelectedMasters_emits (selected : option (list string)) (chunks : list Chunk.t) :
  emitsOnly isRetrievalEvent (filterBySelectedMasters svc selected chunks).
Proof.
  unfold filterBySelectedMasters.
  destruct selected as [[|m ms]|], chunks as [|c cs]; try apply emitsOnly_ret.
  apply emitsOnly_bind; [now apply emitsOnly_call|].
  intros [documents|]; apply emitsOnly_ret.
Qed.

Lemma enhanceChunksWithDocumentContext_emits (chunks : list Chunk.t) :
  emitsOnly isRetrievalEvent (enhanceChunksWithDocumentContext svc chunks).
Proof.
  unfold enhanceChunksWithDocumentContext.
  apply emitsOnly_bind; [now apply emitsOnly_call|].
  intros [documents|]; apply emitsOnly_ret.
Qed.

Lemma retrieveChunks_emits (question : string) (options : Options) :
  emitsOnly isRetrievalEvent (retrieveChunks svc question options).
Proof.
  unfold retrieveChunks.
  apply emitsOnly_bind; [apply generateEmbedding_emits|]. intros e.
  apply emitsOnly_bind; [apply searchAll_emits|]. intros allChunks.
  apply emitsOnly_bind; [apply filterBySelectedMasters_emits|]. intros chunks.
  apply emitsOnly_bind; [apply enhanceChunksWithDocumentContext_emits|]. intros enhanced.
  apply emitsOnly_ret.
Qed.

(** Enrichment keeps every chunk: the enriched set is empty exactly when
    the filtered set is. *)
Lemma enhance_length (chunks : list Chunk.t) (w : World) :
  exists enhanced w' t,
    enhanceChunksWithDocumentContext svc chunks w = (Resolved enhanced, w', t)
    /\ length enhanced = length chunks.
Proof.
  unfold enhanceChunksWithDocumentContext. rewrite run_bind. unfold call.
  destruct (svc_documentsById _ _ _) as [[documents|] w1]; cbn.
  - eexists _, _, _. split; [reflexivity|]. now rewrite length_fmap.
  - eexists _, _, _. split; reflexivity.
Qed.

End StageFacts.
Lemma signUrl_is_generation (t : list Event) :
  forallb isSignUrl t = true ->
  forallb isGenerationEvent t = true
  /\ completionCalls t = [] /\ failedAttempts t = [].
Proof.
  induction t as [|e t IH]; [now repeat split|].
  cbn [forallb]. intros [He Ht]%andb_prop.
  destruct e; try discriminate He. destruct (IH Ht) as (H1 & H2 & H3).
  unfold completionCalls, failedAttempts in *. cbn. now rewrite H1.
Qed.

Section GenerationFacts.
Context {World Embedding : Type} (svc : Services World Embedding).

Lemma buildCitation_resolves (chunk : Chunk.t) (index : nat) (w : World) :
  exists citation w' t,
    buildCitation svc chunk index w = (Resolved citation, w', t)
    /\ cites chunk citation /\ forallb isSignUrl t = true.
Proof.
  unfold buildCitation. rewrite run_bind.
  assert (Hcites : forall url,
    cites chunk
      (Citation.mk (Chunk.document_id chunk) (Chunk.document_title chunk)
         (Chunk.master_name chunk) (Chunk.page_number chunk) (Chunk.id chunk)
         (JS.take 200 (Chunk.content chunk)
          +:+ (if 200 <? String.length (Chunk.content chunk) then "..." else EmptyString))
         (Chunk.content chunk) (Chunk.similarity chunk)
         (if Num.truthyZ (Chunk.position chunk)
          then Num.orZeroZ (Chunk.position chunk) else Z.of_nat index)
         (orNull (Chunk.chapter chunk)) (orNull (Chunk.youtube_video_id chunk))
         (orNullQ (Chunk.start_timestamp chunk)) (orNullQ (Chunk.end_timestamp chunk))
         url
         (if String.eqb (JS.toLowerCase (default "text" (orNull (Chunk.file_type chunk)))) "pdf"
             || String.eqb (JS.toLowerCase (default "text" (orNull (Chunk.file_type chunk)))) "application/pdf"
             || match orNull (Chunk.file_path chunk) with
                | Some path => JS.endsWith ".pdf" (JS.toLowerCase path)
                | None => false
                end
          then "application/pdf" else default "text" (orNull (Chunk.file_type chunk))))).
  { intros url. unfold cites.
    cbn [Citation.chunk_id Citation.document_id Citation.full_content Citation.quote].
    repeat split; intros Hlen.
    - rewrite (proj2 (Nat.ltb_ge _ _) Hlen), append_empty_r. now apply take_all.
    - now rewrite (proj2 (Nat.ltb_lt _ _) Hlen). }
  destruct (orNull (Chunk.file_path chunk)) as [path|].
  - rewrite run_bind. unfold call.
    destruct (svc_createSignedUrl svc path w) as [signedUrl w1]. cbn.
    eexists _, _, _. split; [reflexivity|]. split; [apply Hcites | reflexivity].
  - cbn. eexists _, _, _. split; [reflexivity|]. split; [apply Hcites | reflexivity].
Qed.

Lemma buildCitations_resolves (chunks : list Chunk.t) (index : nat) (w : World) :
  exists cited w' t,
    buildCitations svc index chunks w = (Resolved cited, w', t)
    /\ Forall2 cites chunks cited /\ forallb isSignUrl t = true.
Proof.
  revert index w. induction chunks as [|chunk rest IH]; intros index w; cbn [buildCitations].
  - eexists _, _, _. split; [reflexivity|]. split; [constructor | reflexivity].
  - destruct (buildCitation_resolves chunk index w) as (c & w1 & t1 & Hc & Hcites & Ht1).
    destruct (IH (S index) w1) as (cs & w2 & t2 & Hcs & Hall & Ht2).
    rewrite (bind_resolved _ _ _ _ _ _ Hc), (bind_resolved _ _ _ _ _ _ Hcs). cbn.
    eexists _, _, _. split; [reflexivity|]. split; [now constructor|].
    now rewrite app_nil_r, forallb_app, Ht1, Ht2.
Qed.

Lemma attemptModel_failed (question : string) (chunks : list Chunk.t)
    (embeddingTokens : Z) (model : string) (w w1 : World) (reply : FetchReply) :
  svc_fetchCompletion svc model (buildSystemPrompt question chunks)
    (buildUserPrompt question) w = (reply, w1) ->
  isCompleted reply = false ->
  exists error,
    attemptModel svc question chunks embeddingTokens model w
    = (Rejected error, w1, [EvCompletion model]).
Proof.
  intros Hfetch Hfail. unfold attemptModel. rewrite run_bind. unfold call.
  rewrite Hfetch. destruct reply; try discriminate Hfail; cbn; eauto.
Qed.

Lemma attemptModel_completed (question : string) (chunks : list Chunk.t)
    (embeddingTokens : Z) (model : string) (w w1 : World) (reply : FetchReply) :
  svc_fetchCompletion svc model (buildSystemPrompt question chunks)
    (buildUserPrompt question) w = (reply, w1) ->
  isCompleted reply = true ->
  exists response w2 t2,
    attemptModel svc question chunks embeddingTokens model w
    = (Resolved response, w2, EvCompletion model :: t2)
    /\ generatedBy question chunks embeddingTokens model response
    /\ forallb isSignUrl t2 = true.
Proof.
  intros Hfetch Hdone. unfold attemptModel. rewrite run_bind. unfold call.
  rewrite Hfetch. destruct reply as [| | |content usage]; try discriminate Hdone.
  cbn iota beta.
  destruct (buildCitations_resolves chunks 0 w1) as (cited & w2 & t2 & Hc & Hall & Ht2).
  rewrite (bind_resolved _ _ _ _ _ _ Hc). cbn.
  eexists _, _, _. split; [rewrite app_nil_r; reflexivity|]. split; [|exact Ht2].
  unfold generatedBy. cbn. split; [reflexivity|]. split; [eauto|].
  split; [eauto|]. split; [reflexivity | eauto].
Qed.

Lemma tryModels_step_failed (question : string) (chunks : list Chunk.t)
    (embeddingTokens : Z) (model : string) (rest : list string)
    (lastError : option string) (w w1 : World) (reply : FetchReply) :
  svc_fetchCompletion svc model (buildSystemPrompt question chunks)
    (buildUserPrompt question) w = (reply, w1) ->
  isCompleted reply = false ->
  exists error,
    tryModels svc question chunks embeddingTokens (model :: rest) lastError w
    = (let '(r, w2, t2) :=
         tryModels svc question chunks embeddingTokens rest (Some error) w1 in
       (r, w2, EvCompletion model :: EvModelFailed model error :: t2)).
Proof.
  intros Hfetch Hfail.
  destruct (attemptModel_failed question chunks embeddingTokens model w w1 reply
              Hfetch Hfail) as [error Hattempt].
  exists error. cbn [tryModels]. rewrite run_bind. unfold try_catch.
  rewrite (bind_rejected _ _ _ _ _ _ Hattempt).
  rewrite run_bind. unfold emit. rewrite run_ret. cbn.
  now destruct (tryModels svc question chunks embeddingTokens rest (Some error) w1)
    as [[r w2] t2].
Qed.

Lemma tryModels_step_completed (question : string) (chunks : list Chunk.t)
    (embeddingTokens : Z) (model : string) (rest : list string)
    (lastError : option string) (w w1 : World) (reply : FetchReply) :
  svc_fetchCompletion svc model (buildSystemPrompt question chunks)
    (buildUserPrompt question) w = (reply, w1) ->
  isCompleted reply = true ->
  exists response w2 t2,
    tryModels svc question chunks embeddingTokens (model :: rest) lastError w
    = (Resolved response, w2, EvCompletion model :: t2)
    /\ generatedBy question chunks embeddingTokens model response
    /\ forallb isSignUrl t2 = true.
Proof.
  intros Hfetch Hdone.
  destruct (attemptModel_completed question chunks embeddingTokens model w w1 reply
              Hfetch Hdone) as (response & w2 & t2 & Hattempt & Hgen & Ht2).
  exists response, w2, t2. split; [|now split].
  cbn [tryModels]. rewrite run_bind. unfold try_catch.
  rewrite (bind_resolved _ _ _ _ _ _ Hattempt). rewrite !run_ret. cbn.
  now rewrite !app_nil_r.
Qed.

(** The chain stops at the first model that completes: the models before it
    are each tried once and recorded as failed, and no model after it is
    tried. *)
Lemma tryModels_first_success (question : string) (chunks : list Chunk.t)
    (embeddingTokens : Z) (failing : list string) (model : string)
    (rest : list string) (lastError : option string) (w wk : World) :
  worldAfterFailures svc question chunks failing w = Some wk ->
  isCompleted (svc_fetchCompletion svc model (buildSystemPrompt question chunks)
                 (buildUserPrompt question) wk).1 = true ->
  exists response w' t,
    tryModels svc question chunks embeddingTokens (failing ++ model :: rest)
      lastError w = (Resolved response, w', t)
    /\ generatedBy question chunks embeddingTokens model response
    /\ completionCalls t = failing ++ [model]
    /\ (failedAttempts t).*1 = failing.
Proof.
  revert lastError w. induction failing as [|m ms IH]; intros lastError w Hrun Hdone.
  - injection Hrun as ->.
    destruct (svc_fetchCompletion svc model _ _ wk) as [reply w1] eqn:Hfetch.
    destruct (tryModels_step_completed question chunks embeddingTokens model rest
                lastError wk w1 reply Hfetch Hdone)
      as (response & w2 & t2 & Hrun & Hgen & Ht2).
    apply signUrl_is_generation in Ht2 as (_ & Hcalls & Hfailed).
    exists response, w2, (EvCompletion model :: t2).
    split; [exact Hrun|]. split; [exact Hgen|].
    unfold completionCalls, failedAttempts in *. cbn.
    now rewrite Hcalls, Hfailed.
  - cbn [worldAfterFailures] in Hrun.
    destruct (svc_fetchCompletion svc m _ _ w) as [reply w1] eqn:Hfetch.
    destruct (isCompleted reply) eqn:Hreply; [discriminate Hrun|].
    destruct (tryModels_step_failed question chunks embeddingTokens m
                (ms ++ model :: rest) lastError w w1 reply Hfetch Hreply)
      as [error Hstep].
    destruct (IH (Some error) w1 Hrun Hdone)
      as (response & w' & t & Htail & Hgen & Hcalls & Hfailed).
    exists response, w', (EvCompletion m :: EvModelFailed m error :: t).
    split; [cbn [app]; now rewrite Hstep, Htail|]. split; [exact Hgen|].
    unfold completionCalls, failedAttempts in *. cbn.
    now rewrite Hcalls, Hfailed.
Qed.

Lemma failedAttempts_cons_failed (m error : string) (t : list Event) :
  failedAttempts (EvCompletion m :: EvModelFailed m error :: t)
  = (m, error) :: failedAttempts t.
Proof. reflexivity. Qed.

Lemma completionCalls_cons_failed (m error : string) (t : list Event) :
  completionCalls (EvCompletion m :: EvModelFailed m error :: t)
  = m :: completionCalls t.
Proof. reflexivity. Qed.

(** When every model fails, the chain rejects with the error of the last
    failed attempt. *)
Lemma tryModels_all_fail (question : string) (chunks : list Chunk.t)
    (embeddingTokens : Z) (models : list string) (lastError : option string)
    (w wk : World) :
  worldAfterFailures svc question chunks models w = Some wk ->
  exists t,
    tryModels svc question chunks embeddingTokens models lastError w
    = (Rejected (msgAllFailedPrefix
                 +:+ default (default "undefined" lastError)
                       (snd <$> last (failedAttempts t))),
       wk, t)
    /\ completionCalls t = models
    /\ (failedAttempts t).*1 = models.
Proof.
  revert lastError w. induction models as [|m ms IH]; intros lastError w Hrun.
  - injection Hrun as ->. exists []. repeat split.
  - cbn [worldAfterFailures] in Hrun.
    destruct (svc_fetchCompletion svc m _ _ w) as [reply w1] eqn:Hfetch.
    destruct (isCompleted reply) eqn:Hreply; [discriminate Hrun|].
    destruct (tryModels_step_failed question chunks embeddingTokens m ms
                lastError w w1 reply Hfetch Hreply) as [error Hstep].
    destruct (IH (Some error) w1 Hrun) as (t & Htail & Hcalls & Hfailed).
    exists (EvCompletion m :: EvModelFailed m error :: t).
    rewrite Hstep, Htail, failedAttempts_cons_failed, completionCalls_cons_failed.
    rewrite Hcalls, fmap_cons, Hfailed. repeat split.
    do 4 f_equal. destruct (failedAttempts t) as [|p l]; [reflexivity|].
    rewrite last_cons_cons. destruct (last (p :: l)) eqn:Hlast; [reflexivity|].
    apply last_None in Hlast. discriminate Hlast.
Qed.

(** Whatever the chain does, it only requests completions, signs urls and
    records failures; a response it resolves with was built from the
    completion of one of the models. *)
Lemma tryModels_shape (question : string) (chunks : list Chunk.t)
    (embeddingTokens : Z) (models : list string) (lastError : option string)
    (w w' : World) (r : Outcome RAGResponse) (t : list Event) :
  tryModels svc question chunks embeddingTokens models lastError w = (r, w', t) ->
  forallb isGenerationEvent t = true
  /\ forall response, r = Resolved response ->
       exists model, model ∈ models
                     /\ generatedBy question chunks embeddingTokens model response.
Proof.
  revert lastError w w' r t.
  induction models as [|m ms IH]; intros lastError w w' r t Hrun.
  - injection Hrun as <- <- <-. split; [reflexivity | discriminate].
  - destruct (svc_fetchCompletion svc m (buildSystemPrompt question chunks)
                (buildUserPrompt question) w) as [reply w1] eqn:Hfetch.
    destruct (isCompleted reply) eqn:Hreply.
    + destruct (tryModels_step_completed question chunks embeddingTokens m ms
                  lastError w w1 reply Hfetch Hreply)
        as (response & w2 & t2 & Hstep & Hgen & Ht2).
      rewrite Hstep in Hrun. injection Hrun as <- <- <-.
      apply signUrl_is_generation in Ht2 as (Ht2 & _). split; [exact Ht2|].
      intros response' [= <-]. exists m. split; [apply list_elem_of_here | exact Hgen].
    + destruct (tryModels_step_failed question chunks embeddingTokens m ms
                  lastError w w1 reply Hfetch Hreply) as [error Hstep].
      rewrite Hstep in Hrun.
      destruct (tryModels svc question chunks embeddingTokens ms (Some error) w1)
        as [[r1 w2] t2] eqn:Htail.
      injection Hrun as <- <- <-.
      destruct (IH _ _ _ _ _ Htail) as [Ht2 Hres]. split; [exact Ht2|].
      intros response Hr. destruct (Hres response Hr) as (model & Hin & Hgen).
      exists model. split; [now apply list_elem_of_further | exact Hgen].
Qed.

End GenerationFacts.

Section ChainTheorems.
Context {World Embedding : Type} (svc : Services World Embedding).

(** C4.  For every run of the generation fallback chain over the fixed model
    priority list in which the first [k] models fail and model [k + 1]
    completes, the chain records exactly [k] failed attempts (those of the
    first [k] models), stops at the first success (it requests a completion
    from the first [k + 1] models and from no other), and the success result
    it returns names the succeeding model in [metadata.model]. *)
Theorem fallback_chain_stops_at_first_success (question : string)
    (chunks : list Chunk.t) (embeddingTokens : Z) (k : nat)
    (succeeding : string) (w wk : World) :
  modelPriority !! k = Some succeeding ->
  worldAfterFailures svc question chunks (take k modelPriority) w = Some wk ->
  isCompleted (svc_fetchCompletion svc succeeding
                 (buildSystemPrompt question chunks)
                 (buildUserPrompt question) wk).1 = true ->
  exists response w' t,
    generateResponseWithFallback svc question chunks embeddingTokens w
    = (Resolved response, w', t)
    /\ success response = true
    /\ model <$> metadata response = Some succeeding
    /\ length (failedAttempts t) = k
    /\ (failedAttempts t).*1 = take k modelPriority
    /\ completionCalls t = take (S k) modelPriority.
Proof.
  intros Hk Hfail Hdone. unfold generateResponseWithFallback.
  destruct (tryModels_first_success svc question chunks embeddingTokens
              (take k modelPriority) succeeding (drop (S k) modelPriority) None
              w wk Hfail Hdone)
    as (response & w' & t & Hrun & Hgen & Hcalls & Hfailed).
  rewrite (take_drop_middle modelPriority k succeeding Hk) in Hrun.
  exists response, w', t. split; [exact Hrun|].
  destruct Hgen as (Hsuccess & (total & p & c & Hmeta & _) & _).
  split; [exact Hsuccess|]. split; [now rewrite Hmeta|].
  split; [|split; [exact Hfailed|]].
  - rewrite <- (length_fmap fst), Hfailed, length_take.
    apply lookup_lt_Some in Hk. lia.
  - rewrite Hcalls. now rewrite (take_S_r _ _ _ Hk).
Qed.



End ChainTheorems.

Section AskTheorems.
Context {World Embedding : Type} (svc : Services World Embedding).

(** C6.  For every question whose trimmed length is below 5 or above 5000,
    [askQuestion] returns a failure result and calls no collaborator: the
    world is left as it was and no event is recorded, so neither the
    embedding provider, nor the similarity search, nor the completion
    service is invoked. *)
Theorem askQuestion_rejects_bad_length (question : string) (options : Options)
    (w : World) :
  String.length (JS.trim question) < 5 \/ 5000 < String.length (JS.trim question) ->
  exists msg,
    askQuestion svc question options w = (Resolved (failure msg), w, []).
Proof.
  intros Hlen. unfold askQuestion, askQuestionBody, validateQuestion.
  destruct (String.length (JS.trim question) <? 5) eqn:Hshort.
  - exists msgTooShort. reflexivity.
  - destruct (5000 <? String.length (JS.trim question)) eqn:Hlong.
    + exists msgTooLong. reflexivity.
    + apply Nat.ltb_ge in Hshort, Hlong. lia.
Qed.

(** C10 (as amended).  With a non-empty category allow-list, the category
    filter is skipped and the chunks pass through as they are when the chunk
    set is already empty (the lookup is not even made) and when the lookup
    returns no data.  When the lookup returns a list of rows the filter is
    applied, whether or not the list holds a row: the chunks kept are those
    whose document is among the rows, so a list without rows removes every
    chunk.  The filter changes the chunk set only when the lookup returned
    such a list. *)
Theorem category_filter_skipped_without_data (names : list string)
    (uniqueChunks : list Chunk.t) (w : World) :
  names <> [] ->
  (uniqueChunks = []
   -> filterBySelectedMasters svc (Some names) uniqueChunks w
      = (Resolved uniqueChunks, w, []))
  /\ ((svc_documentsByMaster svc names w).1 = None
      -> exists w' t,
           filterBySelectedMasters svc (Some names) uniqueChunks w
           = (Resolved uniqueChunks, w', t))
  /\ (forall documents,
        uniqueChunks <> [] ->
        (svc_documentsByMaster svc names w).1 = Some documents ->
        exists kept,
          filterBySelectedMasters svc (Some names) uniqueChunks w
          = (Resolved kept, (svc_documentsByMaster svc names w).2,
             [EvDocumentsByMaster names])
          /\ kept
             = List.filter
                 (fun chunk =>
                    bool_decide (Chunk.document_id chunk ∈ MasterDoc.id <$> documents))
                 uniqueChunks
          /\ (documents = [] -> kept = []))
  /\ (forall out w' t,
        filterBySelectedMasters svc (Some names) uniqueChunks w
        = (Resolved out, w', t) ->
        out <> uniqueChunks ->
        exists documents, (svc_documentsByMaster svc names w).1 = Some documents).
Proof.
  intros Hnames. destruct names as [|m ms]; [contradiction|].
  unfold filterBySelectedMasters. repeat split.
  - now intros ->.
  - intros Hnone. destruct uniqueChunks as [|c cs]; [eexists _, _; reflexivity|].
    rewrite run_bind. unfold call.
    destruct (svc_documentsByMaster svc (m :: ms) w) as [documents w1].
    cbn in Hnone. subst documents. eexists _, _. reflexivity.
  - intros documents Hchunks Hsome. destruct uniqueChunks as [|c cs]; [contradiction|].
    rewrite run_bind. unfold call.
    destruct (svc_documentsByMaster svc (m :: ms) w) as [found w1].
    cbn [fst snd] in Hsome |- *. subst found. cbv beta iota. rewrite run_ret.
    eexists. split; [reflexivity|]. split.
    + apply List.filter_ext. intros chunk. apply bool_decide_ext.
      apply elem_of_list_to_set.
    + intros ->. rewrite <- (List.filter_ext (fun _ => false)).
      * clear. induction (c :: cs) as [|x l IH]; [reflexivity | exact IH].
      * intros chunk. symmetry. apply bool_decide_eq_false_2. set_solver.
  - intros out w' t Hrun Hchanged. destruct uniqueChunks as [|c cs].
    + injection Hrun as <- _ _. contradiction.
    + rewrite run_bind in Hrun. unfold call in Hrun.
      destruct (svc_documentsByMaster svc (m :: ms) w) as [[documents|] w1];
        cbn in Hrun |- *; [eauto|].
      injection Hrun as <- _ _. contradiction.
Qed.

End AskTheorems.

Lemma retrieval_is_not_fallback (t : list Event) :
  forallb isRetrievalEvent t = true ->
  (EvRecentChunks ∉ t) /\ usageLogs t = [] /\ completionCalls t = [].
Proof.
  induction t as [|e t IH]; [intros _; split; [apply not_elem_of_nil | now split]|].
  cbn [forallb]. intros [He Ht]%andb_prop. destruct (IH Ht) as (H1 & H2 & H3).
  split; [|split].
  - rewrite not_elem_of_cons. split; [|exact H1]. intros <-. discriminate He.
  - destruct e; try discriminate He; exact H2.
  - destruct e; try discriminate He; exact H3.
Qed.

Lemma generation_logs_nothing (t : list Event) :
  forallb isGenerationEvent t = true -> usageLogs t = [] /\ EvRecentChunks ∉ t.
Proof.
  induction t as [|e t IH]; [intros _; split; [reflexivity | apply not_elem_of_nil]|].
  cbn [forallb]. intros [He Ht]%andb_prop. destruct (IH Ht) as (H1 & H2).
  split.
  - destruct e; try discriminate He; exact H1.
  - rewrite not_elem_of_cons. split; [|exact H2]. intros <-. discriminate He.
Qed.

Lemma usageLogs_app (t1 t2 : list Event) :
  usageLogs (t1 ++ t2) = usageLogs t1 ++ usageLogs t2.
Proof. apply omap_app. Qed.

Section AskFacts.
Context {World Embedding : Type} (svc : Services World Embedding).

Lemma generateEmbedding_run (text : string) (w : World) :
  generateEmbedding svc text w
  = (let '(o, w') := svc_generateEmbedding svc text w in
     match o with
     | Resolved r => (Resolved r, w', [EvEmbed text (Some (tokenCount r))])
     | Rejected e => (Rejected e, w', [EvEmbed text None])
     end).
Proof.
  unfold generateEmbedding, await, call, bind.
  now destruct (svc_generateEmbedding svc text w) as [[r | e] w'].
Qed.

Lemma retrieveChunks_first_event (question : string) (options : Options)
    (w w1 : World) (emb : EmbeddingResult Embedding) (enhanced : list Chunk.t)
    (t : list Event) :
  retrieveChunks svc question options w = (Resolved (emb, enhanced), w1, t) ->
  exists rest, t = EvEmbed question (Some (tokenCount emb)) :: rest.
Proof.
  intros H. unfold retrieveChunks in H. rewrite run_bind in H.
  rewrite generateEmbedding_run in H.
  destruct (svc_generateEmbedding svc question w) as [[r | e] w0];
    cbv beta iota in H; [|discriminate H].
  rewrite run_bind in H.
  destruct (searchAll svc (generateSearchQueries question) [] w0)
    as [[[allChunks | e] w2] t2]; cbv beta iota in H; [|discriminate H].
  rewrite run_bind in H.
  destruct (filterBySelectedMasters svc _ _ w2) as [[[filtered | e] w3] t3];
    cbv beta iota in H; [|discriminate H].
  rewrite run_bind in H.
  destruct (enhanceChunksWithDocumentContext svc filtered w3)
    as [[[en | e] w4] t4]; cbv beta iota in H; [|discriminate H].
  rewrite run_ret in H. injection H as <- <- <- <-. eauto.
Qed.

Lemma logAIUsage_run (user : option string) (query name : string)
    (tokenCount : Z) (response : option string)
    (documents : option (list string)) (w : World) :
  exists entry w',
    logAIUsage svc user query name tokenCount response documents None w
    = (Resolved tt, w', [EvUsageLog entry])
    /\ LogEntry.model entry = name
    /\ LogEntry.prompt_tokens entry = tokenCount
    /\ LogEntry.completion_tokens entry
       = Z.of_nat (Num.ceilDiv (String.length (default EmptyString response)) 4)
    /\ LogEntry.total_tokens entry
       = (LogEntry.prompt_tokens entry + LogEntry.completion_tokens entry)%Z.
Proof.
  unfold logAIUsage, try_catch. rewrite run_bind. cbv beta iota zeta.
  rewrite run_bind. unfold await, call, bind. cbv beta iota zeta.
  match goal with |- context [svc_insertUsageLog svc ?e w] => set (entry := e) end.
  assert (Hcompletion : LogEntry.completion_tokens entry
            = Z.of_nat (Num.ceilDiv (String.length (default EmptyString response)) 4)).
  { subst entry. cbn [LogEntry.completion_tokens].
    destruct response as [[|c r]|]; reflexivity. }
  destruct (svc_insertUsageLog svc entry w) as [[err | e] w1];
    exists entry, w1; (split; [reflexivity|]); repeat split; exact Hcompletion.
Qed.

(** C2.  For every request in which a non-empty document allow-list or a
    non-empty category allow-list was supplied and the enriched chunk set
    after filtering is empty, [askQuestion] returns a failure result with a
    scope-specific message (that of the documents when documents were
    selected, that of the category otherwise), and the recent-chunks
    fallback retrieval is never invoked. *)
Theorem scoped_empty_result_never_falls_back (question : string)
    (options : Options) (w w1 : World) (emb : EmbeddingResult Embedding)
    (t1 : list Event) :
  isValid (validateQuestion question) = true ->
  nonEmptySelection (selectedDocumentIds options) = true
  \/ nonEmptySelection (selectedMasters options) = true ->
  retrieveChunks svc question options w = (Resolved (emb, []), w1, t1) ->
  exists msg,
    askQuestion svc question options w = (Resolved (failure msg), w1, t1)
    /\ msg = (if nonEmptySelection (selectedDocumentIds options)
              then msgNoneInDocuments else msgNoneInCategory)
    /\ EvRecentChunks ∉ t1.
Proof.
  intros Hvalid Hscope Hretrieve.
  assert (Hno : EvRecentChunks ∉ t1).
  { pose proof (retrieveChunks_emits svc question options w) as Hemits.
    rewrite Hretrieve in Hemits. now apply retrieval_is_not_fallback in Hemits. }
  unfold askQuestion. rewrite run_bind. unfold try_catch, askQuestionBody.
  rewrite Hvalid. cbv beta iota delta [negb].
  rewrite (bind_resolved _ _ _ _ _ _ Hretrieve). cbv beta iota.
  destruct (nonEmptySelection (selectedDocumentIds options)).
  - exists msgNoneInDocuments. rewrite !run_ret. cbv beta iota.
    now rewrite !app_nil_r.
  - destruct Hscope as [Hdocs | Hmasters]; [discriminate Hdocs|].
    rewrite Hmasters. exists msgNoneInCategory. rewrite !run_ret. cbv beta iota.
    now rewrite !app_nil_r.
Qed.

(** When every model fails for the retrieved chunks, [askQuestion] resolves
    with a failure whose message ends with the error of the last attempt. *)
Lemma askQuestion_exhausted_on_retrieved_chunks (question : string)
    (options : Options) (w w1 wk : World) (emb : EmbeddingResult Embedding)
    (c : Chunk.t) (cs : list Chunk.t) (t1 : list Event) :
  isValid (validateQuestion question) = true ->
  retrieveChunks svc question options w = (Resolved (emb, c :: cs), w1, t1) ->
  worldAfterFailures svc question (c :: cs) modelPriority w1 = Some wk ->
  exists t2,
    askQuestion svc question options w
    = (Resolved (failure (msgErrorPrefix +:+ msgAllFailedPrefix
                          +:+ default "undefined"
                                (snd <$> last (failedAttempts t2)))),
       wk, t1 ++ t2)
    /\ completionCalls t2 = modelPriority.
Proof.
  intros Hvalid Hretrieve Hfail.
  destruct (tryModels_all_fail svc question (c :: cs) (tokenCount emb)
              modelPriority None w1 wk Hfail) as (t2 & Hrun & Hcalls & _).
  exists t2. split; [|exact Hcalls].
  unfold askQuestion. rewrite run_bind. unfold try_catch, askQuestionBody.
  rewrite Hvalid. cbv beta iota delta [negb].
  rewrite (bind_resolved _ _ _ _ _ _ Hretrieve). cbv beta iota.
  unfold generateResponseWithFallback.
  rewrite (bind_rejected _ _ _ _ _ _ Hrun). cbv beta iota.
  rewrite !run_ret. cbv beta iota. now rewrite !app_nil_r.
Qed.

(** When the fallback chunks are used and every model fails, the promise of
    [askQuestion] is rejected: the error is not turned into a failure
    result. *)
Lemma askQuestion_exhausted_on_fallback_chunks (question : string)
    (options : Options) (w w1 w2 wk : World) (emb : EmbeddingResult Embedding)
    (c : Chunk.t) (cs : list Chunk.t) (t1 t2 : list Event) :
  isValid (validateQuestion question) = true ->
  retrieveChunks svc question options w = (Resolved (emb, []), w1, t1) ->
  nonEmptySelection (selectedDocumentIds options) = false ->
  nonEmptySelection (selectedMasters options) = false ->
  getFallbackChunks svc w1 = (Resolved (c :: cs), w2, t2) ->
  worldAfterFailures svc question (c :: cs) modelPriority w2 = Some wk ->
  exists t3,
    askQuestion svc question options w
    = (Rejected (msgAllFailedPrefix
                 +:+ default "undefined" (snd <$> last (failedAttempts t3))),
       wk, (t1 ++ t2) ++ t3).
Proof.
  intros Hvalid Hretrieve Hdocs Hmasters Hfallback Hfail.
  destruct (tryModels_all_fail svc question (c :: cs) (tokenCount emb)
              modelPriority None w2 wk Hfail) as (t3 & Hrun & _).
  exists t3.
  unfold askQuestion. rewrite run_bind. unfold try_catch, askQuestionBody.
  rewrite Hvalid. cbv beta iota delta [negb].
  rewrite (bind_resolved _ _ _ _ _ _ Hretrieve). cbv beta iota.
  rewrite Hdocs, Hmasters.
  rewrite (bind_resolved _ _ _ _ _ _ Hfallback). cbv beta iota.
  rewrite !run_ret. cbv beta iota.
  unfold generateResponseWithFallback. rewrite Hrun. now rewrite !app_nil_r.
Qed.

End AskFacts.

Section UsageTheorems.
Context {World Embedding : Type} (svc : Services World Embedding).

(** The [try] block hands back a pending promise only after the
    recent-chunks fallback was fetched. *)
Lemma askQuestionBody_promise (question : string) (options : Options)
    (w w1 : World) (promise : M World RAGResponse) (t1 : list Event) :
  askQuestionBody svc question options w = (Resolved (ReturnPromise promise), w1, t1) ->
  EvRecentChunks ∈ t1.
Proof.
  intros H. unfold askQuestionBody in H.
  destruct (isValid (validateQuestion question)); cbv beta iota delta [negb] in H;
    [|discriminate H].
  rewrite run_bind in H.
  destruct (retrieveChunks svc question options w) as [[[[emb enhanced] | e] w2] t2];
    cbv beta iota in H; [|discriminate H].
  destruct enhanced as [|c cs].
  - destruct (nonEmptySelection (selectedDocumentIds options)); [discriminate H|].
    destruct (nonEmptySelection (selectedMasters options)); [discriminate H|].
    unfold getFallbackChunks in H. rewrite !run_bind in H. unfold call in H.
    destruct (svc_recentChunks svc w2) as [rows w3]. cbv beta iota in H.
    rewrite run_ret in H. cbv beta iota in H.
    destruct (_ <$> default [] rows); rewrite run_ret in H;
      injection H as _ _ <-; set_solver.
  - rewrite run_bind in H.
    destruct (generateResponseWithFallback svc question (c :: cs) (tokenCount emb) w2)
      as [[[response | e] w3] t3]; cbv beta iota in H; [|discriminate H].
    rewrite run_bind in H.
    destruct (logAIUsage svc _ _ _ _ _ _ _ w3) as [[[[] | e] w4] t4];
      cbv beta iota in H; discriminate H.
Qed.

(** A response of the chain was built from the completion of the model that
    answered: its answer is parsed from the text of that completion and its
    total tokens are those that the completion reports. *)
Lemma tryModels_completedBy (question : string) (chunks : list Chunk.t)
    (embeddingTokens : Z) (models : list string) (lastError : option string)
    (w w' : World) (response : RAGResponse) (t : list Event) :
  tryModels svc question chunks embeddingTokens models lastError w
  = (Resolved response, w', t) ->
  exists raw reported,
    completedBy svc question chunks models w raw reported response
    /\ answer response = Some (p_answer (parseModelResponse raw))
    /\ tu_totalTokens <$> tokenUsage response = Some (reportedTotal reported).
Proof.
  revert lastError w w' t.
  induction models as [|m ms IH]; intros lastError w w' t Hrun.
  - discriminate Hrun.
  - cbn [tryModels] in Hrun. rewrite run_bind in Hrun. unfold try_catch in Hrun.
    rewrite run_bind in Hrun. unfold attemptModel in Hrun. rewrite run_bind in Hrun.
    unfold call in Hrun.
    destruct (svc_fetchCompletion svc m _ _ w) as [reply w1] eqn:Hfetch.
    cbv beta iota in Hrun.
    destruct reply as [error | status errorText | error | content usage].
    1-3: unfold throw, emit in Hrun; cbv beta iota in Hrun;
         rewrite run_bind in Hrun; cbv beta iota in Hrun;
         rewrite run_ret in Hrun; cbv beta iota in Hrun;
         match type of Hrun with
         | context [tryModels ?a ?b ?c ?d ?e ?f ?g] =>
             destruct (tryModels a b c d e f g) as [[r1 w2] t2] eqn:Htail
         end;
         injection Hrun as -> _ _;
         destruct (IH _ _ _ _ Htail)
           as (raw & reported & (k & name & wk & w3 & Hk & Hwk & Hreply & Hraw & Hname)
               & Hanswer & Htotal);
         exists raw, reported; (split; [|now split]);
         exists (S k), name, wk, w3;
         (split; [exact Hk|]); (split; [|now split]);
         cbn [take worldAfterFailures]; rewrite Hfetch; exact Hwk.
    destruct (buildCitations_resolves svc chunks 0 w1) as (cited & w2 & t2 & Hc & _).
    rewrite (bind_resolved _ _ _ _ _ _ Hc) in Hrun.
    rewrite ?run_ret in Hrun. cbv beta iota in Hrun. rewrite ?run_ret in Hrun.
    cbv beta iota in Hrun. injection Hrun as <- _ _.
    assert (Htotal :
      (if Num.truthyZ (usage ≫= Usage.total_tokens)
       then Num.orZeroZ (usage ≫= Usage.total_tokens)
       else (Num.orZeroZ (usage ≫= Usage.prompt_tokens)
             + Num.orZeroZ (usage ≫= Usage.completion_tokens))%Z)
      = reportedTotal usage).
    { unfold reportedTotal, Num.truthyZ, Num.orZeroZ.
      destruct (usage ≫= Usage.total_tokens) as [total|]; [|reflexivity].
      now destruct (total =? 0)%Z. }
    exists content, usage. split; [|split].
    + exists 0, m, w, w1. cbn. now rewrite Hfetch.
    + reflexivity.
    + cbn. now rewrite Htotal.
Qed.

(** A response returned from inside the [try] block with [success] set was
    generated from the retrieved chunks and logged once. *)
Lemma askQuestionBody_success (question : string) (options : Options)
    (w w1 : World) (response : RAGResponse) (t1 : list Event) :
  askQuestionBody svc question options w = (Resolved (ReturnValue response), w1, t1) ->
  success response = true ->
  exists (emb : EmbeddingResult Embedding) chunks name entry rest w2 t2 w3 t3,
    retrieveChunks svc question options w = (Resolved (emb, chunks), w2, t2)
    /\ generateResponseWithFallback svc question chunks (tokenCount emb) w2
       = (Resolved response, w3, t3)
    /\ generatedBy question chunks (tokenCount emb) name response
    /\ t1 = EvEmbed question (Some (tokenCount emb)) :: rest
    /\ usageLogs t1 = [entry]
    /\ LogEntry.prompt_tokens entry
       = (tokenCount emb + Num.orZeroZ (totalTokens <$> metadata response))%Z
    /\ LogEntry.completion_tokens entry
       = Z.of_nat (Num.ceilDiv (String.length (default EmptyString (answer response))) 4)
    /\ LogEntry.total_tokens entry
       = (LogEntry.prompt_tokens entry + LogEntry.completion_tokens entry)%Z.
Proof.
  intros H Hsuccess. unfold askQuestionBody in H.
  destruct (isValid (validateQuestion question)); cbv beta iota delta [negb] in H.
  2:{ rewrite run_ret in H. injection H as <- _ _. discriminate Hsuccess. }
  rewrite run_bind in H.
  destruct (retrieveChunks svc question options w)
    as [[[[emb enhanced] | e] w2] t2] eqn:Hretrieve;
    cbv beta iota in H; [|discriminate H].
  destruct enhanced as [|c cs].
  - destruct (nonEmptySelection (selectedDocumentIds options)).
    { rewrite run_ret in H. injection H as <- _ _. discriminate Hsuccess. }
    destruct (nonEmptySelection (selectedMasters options)).
    { rewrite run_ret in H. injection H as <- _ _. discriminate Hsuccess. }
    rewrite run_bind in H.
    destruct (getFallbackChunks svc w2) as [[[[|f fs] | e] w3] t3];
      cbv beta iota in H; [| |discriminate H]; rewrite run_ret in H.
    + injection H as <- _ _. discriminate Hsuccess.
    + discriminate H.
  - rewrite run_bind in H.
    destruct (generateResponseWithFallback svc question (c :: cs) (tokenCount emb) w2)
      as [[[generated | e] w3] t3] eqn:Hgenerate; cbv beta iota in H; [|discriminate H].
    pose proof Hgenerate as Hgenerated.
    unfold generateResponseWithFallback in Hgenerate.
    apply tryModels_shape in Hgenerate as [Ht3 Hshape].
    destruct (Hshape generated eq_refl) as (name & _ & Hgen).
    rewrite run_bind in H.
    match type of H with
    | context [logAIUsage svc ?u ?q ?m ?n ?r ?d None w3] =>
        destruct (logAIUsage_run svc u q m n r d w3)
          as (entry & w4 & Hlog & Hmodel & Hprompt & Hcompletion & Htotal);
        rewrite Hlog in H
    end.
    cbv beta iota in H. rewrite run_ret in H. injection H as <- <- <-.
    destruct (retrieveChunks_first_event svc _ _ _ _ _ _ _ Hretrieve) as [rest Hfirst].
    pose proof (retrieveChunks_emits svc question options w) as Hemits.
    rewrite Hretrieve in Hemits. cbn [snd] in Hemits.
    apply retrieval_is_not_fallback in Hemits as (_ & Hlogs2 & _).
    apply generation_logs_nothing in Ht3 as [Hlogs3 _].
    exists emb, (c :: cs), name, entry, (rest ++ t3 ++ [EvUsageLog entry] ++ []),
      w2, t2, w3, t3.
    split; [reflexivity|]. split; [exact Hgenerated|].
    split; [exact Hgen|]. split; [now rewrite Hfirst|].
    split; [rewrite !usageLogs_app, Hlogs2, Hlogs3; reflexivity|].
    split; [exact Hprompt|]. split; [exact Hcompletion | exact Htotal].
Qed.

(** C7 (as amended).  For every successful query answered from the retrieved
    chunks (the recent-chunks fallback was not used), exactly one usage
    record is handed to the logging sink; its [prompt_tokens] is the token
    count of the embedding of the original question, the first embedding
    made, plus the total tokens of the completion that the answer was parsed
    from (the total that the completion reports, else its reported prompt
    plus completion tokens, else 0); its [completion_tokens] is the length of
    the answer divided by 4 and rounded up; and its [total_tokens] is their
    sum. *)
Theorem usage_record_of_answered_query (question : string) (options : Options)
    (w w' : World) (response : RAGResponse) (t : list Event) :
  askQuestion svc question options w = (Resolved response, w', t) ->
  success response = true ->
  EvRecentChunks ∉ t ->
  exists entry usage questionTokens chunks w2 raw reported,
    usageLogs t = [entry]
    /\ head t = Some (EvEmbed question (Some questionTokens))
    /\ (exists emb t2,
          retrieveChunks svc question options w = (Resolved (emb, chunks), w2, t2)
          /\ tokenCount emb = questionTokens)
    /\ completedBy svc question chunks modelPriority w2 raw reported response
    /\ answer response = Some (p_answer (parseModelResponse raw))
    /\ tokenUsage response = Some usage
    /\ tu_embeddingTokens usage = questionTokens
    /\ tu_totalTokens usage = reportedTotal reported
    /\ LogEntry.prompt_tokens entry = (questionTokens + reportedTotal reported)%Z
    /\ LogEntry.prompt_tokens entry = (questionTokens + tu_totalTokens usage)%Z
    /\ LogEntry.completion_tokens entry
       = Z.of_nat (Num.ceilDiv (String.length (default EmptyString (answer response))) 4)
    /\ LogEntry.total_tokens entry
       = (LogEntry.prompt_tokens entry + LogEntry.completion_tokens entry)%Z.
Proof.
  intros H Hsuccess Hno. unfold askQuestion in H. rewrite run_bind in H.
  unfold try_catch in H.
  destruct (askQuestionBody svc question options w)
    as [[[[returned | promise] | e] w1] t1] eqn:Hbody; cbv beta iota in H.
  - rewrite !run_ret in H. injection H as <- <- <-.
    destruct (askQuestionBody_success _ _ _ _ _ _ Hbody Hsuccess)
      as (emb & chunks & name & entry & rest & w2 & t2 & w3 & t3 & Hretrieve
          & Hgenerate & Hgen & Hfirst & Hlogs & Hprompt & Hcompletion & Htotal).
    destruct Hgen as (_ & (total & p & cpl & Hmeta & Husage) & _).
    unfold generateResponseWithFallback in Hgenerate.
    apply tryModels_completedBy in Hgenerate
      as (raw & reported & Hcompleted & Hanswer & Hreported).
    rewrite Husage in Hreported. cbn in Hreported. injection Hreported as Hreported.
    eexists entry, _, (tokenCount emb), chunks, w2, raw, reported.
    split; [now rewrite app_nil_r|].
    split; [now rewrite app_nil_r, Hfirst|].
    split; [now exists emb, t2|].
    split; [exact Hcompleted|]. split; [exact Hanswer|].
    split; [exact Husage|]. split; [reflexivity|].
    split; [exact Hreported|].
    split; [rewrite Hprompt, Hmeta; cbn; now rewrite Hreported|].
    split; [rewrite Hprompt, Hmeta; reflexivity|].
    split; [exact Hcompletion | exact Htotal].
  - apply askQuestionBody_promise in Hbody.
    destruct (promise w1) as [[r w2] t2]. injection H as _ _ <-.
    exfalso. apply Hno. set_solver.
  - rewrite ?run_ret in H. cbv beta iota in H. rewrite ?run_ret in H.
    injection H as <- _ _. discriminate Hsuccess.
Qed.

End UsageTheorems.

(** ** Concrete runs *)

Lemma no_fallback_retrieval (t : list Event) :
  forallb (fun e => negb (isFallbackRetrieval e)) t = true -> EvRecentChunks ∉ t.
Proof.
  induction t as [|e t IH]; [intros _; apply not_elem_of_nil|].
  cbn [forallb]. intros [He Ht]%andb_prop.
  rewrite not_elem_of_cons. split; [|exact (IH Ht)]. intros <-. discriminate He.
Qed.

(** The chain at work: two models down, the third answers. *)
Lemma fallback_chain_stops_at_first_success_witness :
  exists response w' t,
    generateResponseWithFallback Demo.twoDown Demo.question Demo.pool 7 0
    = (Resolved response, w', t)
    /\ success response = true
    /\ model <$> metadata response = Some "x-ai/grok-4"
    /\ length (failedAttempts t) = 2
    /\ (failedAttempts t).*1 = take 2 modelPriority
    /\ completionCalls t = take 3 modelPriority.
Proof.
  apply (fallback_chain_stops_at_first_success Demo.twoDown Demo.question
           Demo.pool 7 2 "x-ai/grok-4" 0 2); vm_compute; reflexivity.
Defined.


(** A question of two characters. *)
Lemma askQuestion_rejects_bad_length_witness :
  exists msg,
    askQuestion Demo.healthy "hi" Demo.noOptions 0 = (Resolved (failure msg), 0, []).
Proof.
  apply (askQuestion_rejects_bad_length Demo.healthy "hi" Demo.noOptions 0).
  left. vm_compute. lia.
Defined.

(** A category whose lookup returns no data: the chunks of the pool pass. *)
Lemma category_filter_skipped_witness :
  ["Criminal Law"] <> []
  /\ (svc_documentsByMaster Demo.healthy ["Criminal Law"] 0).1 = None
  /\ exists w' t,
       filterBySelectedMasters Demo.healthy (Some ["Criminal Law"]) Demo.pool 0
       = (Resolved Demo.pool, w', t).
Proof.
  split; [discriminate|]. split; [reflexivity|].
  destruct (category_filter_skipped_without_data Demo.healthy ["Criminal Law"]
              Demo.pool 0) as (_ & Hskipped & _); [discriminate|].
  apply Hskipped. reflexivity.
Defined.

(** C10 (as stated) fails.  The lookup of the category returns a list
    without rows: the lookup returned no row, and yet the filter is not
    skipped.  It removes both chunks of the pool, and the question scoped to
    the category gets the failure of the category. *)
Lemma category_filter_enforced_without_rows :
  (svc_documentsByMaster Demo.zeroRows ["Criminal Law"] 0).1 = Some []
  /\ Demo.pool <> []
  /\ filterBySelectedMasters Demo.zeroRows (Some ["Criminal Law"]) Demo.pool 0
     = (Resolved [], 1, [EvDocumentsByMaster ["Criminal Law"]])
  /\ exists w' t,
       askQuestion Demo.zeroRows Demo.question (Demo.onlyMasters ["Criminal Law"]) 0
       = (Resolved (failure msgNoneInCategory), w', t).
Proof.
  split; [reflexivity|]. split; [discriminate|]. split; [reflexivity|].
  eexists _, _. vm_compute. reflexivity.
Qed.

(** With that lookup, a question scoped to the category is answered from
    both documents of the pool. *)
Lemma category_scope_passes_unfiltered :
  exists response w' t,
    askQuestion Demo.healthy Demo.question (Demo.onlyMasters ["Criminal Law"]) 0
    = (Resolved response, w', t)
    /\ success response = true
    /\ chunkCount <$> metadata response = Some 2.
Proof. eexists _, _, _. split; [vm_compute; reflexivity|]. now split. Qed.

(** A document allow-list that excludes every retrieved chunk. *)
Lemma scoped_empty_result_witness :
  exists w1 t1 msg,
    askQuestion Demo.healthy Demo.question (Demo.onlyDocuments ["doc-9"]) 0
    = (Resolved (failure msg), w1, t1)
    /\ msg = msgNoneInDocuments
    /\ EvRecentChunks ∉ t1.
Proof.
  pose (run := retrieveChunks Demo.healthy Demo.question
                 (Demo.onlyDocuments ["doc-9"]) 0).
  exists run.1.2, run.2.
  apply (scoped_empty_result_never_falls_back Demo.healthy Demo.question
           (Demo.onlyDocuments ["doc-9"]) 0 run.1.2
           {| embedding := Demo.question; tokenCount := 7 |} run.2).
  - vm_compute. reflexivity.
  - left. reflexivity.
  - vm_compute. reflexivity.
Defined.

(** The usage record of a query answered from the retrieved chunks. *)
Lemma usage_record_of_answered_query_witness :
  exists entry usage questionTokens chunks w2 raw reported,
    usageLogs Demo.answered.2 = [entry]
    /\ head Demo.answered.2 = Some (EvEmbed Demo.question (Some questionTokens))
    /\ (exists emb t2,
          retrieveChunks Demo.healthy Demo.question Demo.noOptions 0
          = (Resolved (emb, chunks), w2, t2)
          /\ tokenCount emb = questionTokens)
    /\ completedBy Demo.healthy Demo.question chunks modelPriority w2 raw reported
         Demo.answeredResponse
    /\ answer Demo.answeredResponse = Some (p_answer (parseModelResponse raw))
    /\ tokenUsage Demo.answeredResponse = Some usage
    /\ tu_embeddingTokens usage = questionTokens
    /\ tu_totalTokens usage = reportedTotal reported
    /\ LogEntry.prompt_tokens entry = (questionTokens + reportedTotal reported)%Z
    /\ LogEntry.prompt_tokens entry = (questionTokens + tu_totalTokens usage)%Z
    /\ LogEntry.completion_tokens entry
       = Z.of_nat (Num.ceilDiv
                     (String.length (default EmptyString (answer Demo.answeredResponse))) 4)
    /\ LogEntry.total_tokens entry
       = (LogEntry.prompt_tokens entry + LogEntry.completion_tokens entry)%Z.
Proof.
  apply (usage_record_of_answered_query Demo.healthy Demo.question Demo.noOptions
           0 Demo.answered.1.2 Demo.answeredResponse Demo.answered.2).
  - vm_compute. reflexivity.
  - vm_compute. reflexivity.
  - apply no_fallback_retrieval. vm_compute. reflexivity.
Defined.

(** C7 (as stated) fails.  In this successful query every embedding costs 7
    tokens, one for the question and one for each of the four variant
    searches, and the completion reports 120 tokens in all: the usage record
    has [prompt_tokens] 127, the 7 tokens of the embedding of the question
    plus the 120 of the completion, not the 28 tokens of the variant
    searches. *)
Lemma usage_record_prompt_tokens_counterexample :
  success Demo.answeredResponse = true
  /\ embeddingTokenCounts Demo.answered.2 = [7; 7; 7; 7; 7]%Z
  /\ variantSearchTokens Demo.answered.2 = 28%Z
  /\ exists entry,
       usageLogs Demo.answered.2 = [entry]
       /\ LogEntry.prompt_tokens entry = 127%Z
       /\ LogEntry.prompt_tokens entry <> variantSearchTokens Demo.answered.2.
Proof.
  split; [vm_compute; reflexivity|]. split; [vm_compute; reflexivity|].
  split; [vm_compute; reflexivity|].
  eexists. split; [vm_compute; reflexivity|]. split; [reflexivity|].
  vm_compute. discriminate.
Qed.

(** A successful query answered from the recent-chunks fallback hands no
    usage record to the logging sink. *)
Lemma fallback_answer_is_not_logged :
  exists response w' t,
    askQuestion Demo.onlyRecent Demo.question Demo.noOptions 0
    = (Resolved response, w', t)
    /\ success response = true
    /\ EvRecentChunks ∈ t
    /\ usageLogs t = [].
Proof.
  eexists _, _, _. split; [vm_compute; reflexivity|].
  split; [reflexivity|]. split; [|reflexivity].
  do 10 apply list_elem_of_further. apply list_elem_of_here.
Qed.

(** C5 (the code departs from it).  A valid question without any scope, for
    which the searches find nothing and the recent-chunks fallback supplies
    a chunk: when every model of the priority list fails, the promise of
    [askQuestion] is rejected with the error of the chain instead of
    resolving to a tagged failure result.  The [return] of the fallback
    path hands the promise of [generateResponseWithFallback] back without
    [await], so the [catch] clause never sees its rejection; with retrieved
    chunks the same exhaustion is caught
    ([askQuestion_exhausted_on_retrieved_chunks]). *)
Theorem askQuestion_rejects_on_fallback_exhaustion :
  isValid (validateQuestion Demo.question) = true
  /\ selectedDocumentIds Demo.noOptions = None
  /\ selectedMasters Demo.noOptions = None
  /\ exists w' t,
       askQuestion Demo.outage Demo.question Demo.noOptions 0
       = (Rejected "All models failed. Last error: API error: 503 - overloaded: meta-llama/llama-3.1-8b-instruct:free",
          w', t)
       /\ completionCalls t = modelPriority.
Proof.
  split; [vm_compute; reflexivity|]. do 2 (split; [reflexivity|]).
  eexists _, _. split; vm_compute; reflexivity.
Qed.

(** * Further properties *)

(** ** Search queries and validation *)

(** X1.  The search queries of a question begin with the question itself,
    always hold the question extended by the fixed context phrase, and number
    between 2 and 13. *)
Theorem generateSearchQueries_shape (originalQuery : string) :
  head (generateSearchQueries originalQuery) = Some originalQuery
  /\ (originalQuery +:+ " in Heartfulness meditation spiritual practice")
     ∈ generateSearchQueries originalQuery
  /\ 2 <= length (generateSearchQueries originalQuery) <= 13.
Proof.
  unfold generateSearchQueries.
  repeat match goal with
         | |- context [if ?b then _ else _] =>
             lazymatch b with
             | context [if _ then _ else _] => fail
             | _ => destruct b
             end
         end;
    (split; [reflexivity|]); (split; [|cbn; lia]);
    cbn [app]; repeat first [apply list_elem_of_here | apply list_elem_of_further].
Qed.

Lemma eqCI_lower (a b : ascii) :
  isLowerLetter a = true -> JS.eqCI a b = true ->
  JS.toLowerCaseChar b = a.
Proof.
  intros Ha Hab. unfold JS.eqCI in Hab. apply Ascii.eqb_eq in Hab.
  assert (Hfold : JS.foldAscii a = a).
  { destruct a as [[] [] [] [] [] [] [] []]; try discriminate Ha; reflexivity. }
  rewrite Hfold in Hab. subst a.
  destruct b as [[] [] [] [] [] [] [] []]; try discriminate Ha; reflexivity.
Qed.

Lemma startsWithCI_lower (p s : string) :
  allLowerLetters p = true -> JS.startsWithCI p s = true ->
  JS.startsWith p (JS.toLowerCase s) = true.
Proof.
  revert s. induction p as [|a p IH]; intros s Hp H; [reflexivity|].
  destruct s as [|b s]; [discriminate H|].
  cbn [allLowerLetters] in Hp. apply andb_prop in Hp as [Ha Hp].
  cbn [JS.startsWithCI] in H. apply andb_prop in H as [Hab H].
  cbn [JS.toLowerCase JS.startsWith].
  rewrite (eqCI_lower a b Ha Hab), Ascii.eqb_refl. exact (IH s Hp H).
Qed.

Lemma includesCI_lower (p s : string) :
  allLowerLetters p = true -> JS.includesCI p s = true ->
  JS.includes p (JS.toLowerCase s) = true.
Proof.
  intros Hp. induction s as [|b s IH]; intros H.
  - cbn [JS.includesCI] in H. apply (startsWithCI_lower p EmptyString Hp H).
  - cbn [JS.includesCI] in H. cbn [JS.toLowerCase JS.includes].
    apply orb_prop in H as [H | H].
    + apply (startsWithCI_lower p (String b s) Hp) in H.
      cbn [JS.toLowerCase] in H. now rewrite H.
    + rewrite (IH H). apply orb_true_r.
Qed.

(** X2.  A question that [validateQuestion] accepts has between 5 and 5000
    code units once trimmed, and holds none of the off-topic keywords as a
    substring, in whatever letter case it is written. *)
Theorem validateQuestion_accepts_only (question : string) :
  isValid (validateQuestion question) = true ->
  5 <= String.length (JS.trim question) <= 5000
  /\ forall keyword, keyword ∈ offTopicKeywords ->
       JS.includesCI keyword question = false.
Proof.
  unfold validateQuestion. intros H.
  destruct (String.length (JS.trim question) <? 5) eqn:Hshort; [discriminate H|].
  destruct (5000 <? String.length (JS.trim question)) eqn:Hlong; [discriminate H|].
  destruct (existsb _ inappropriatePatterns); [discriminate H|].
  destruct (existsb _ offTopicKeywords) eqn:Hoff; [discriminate H|].
  apply Nat.ltb_ge in Hshort, Hlong. split; [lia|].
  intros keyword Hin. destruct (JS.includesCI keyword question) eqn:Hci; [|reflexivity].
  assert (Hlower : allLowerLetters keyword = true).
  { unfold offTopicKeywords in Hin.
    repeat (apply elem_of_cons in Hin as [-> | Hin]; [reflexivity|]).
    inversion Hin. }
  apply (includesCI_lower keyword question Hlower) in Hci.
  rewrite <- not_true_iff_false in Hoff. exfalso. apply Hoff.
  apply existsb_exists. exists keyword. split; [|exact Hci].
  now apply list_elem_of_In.
Qed.

Lemma generateSearchQueries_head (originalQuery : string) :
  exists variants,
    generateSearchQueries originalQuery = originalQuery :: variants
    /\ 1 <= length variants <= 12.
Proof.
  unfold generateSearchQueries.
  repeat match goal with
         | |- context [if ?b then _ else _] =>
             lazymatch b with
             | context [if _ then _ else _] => fail
             | _ => destruct b
             end
         end;
    eexists; (split; [reflexivity|]); cbn; lia.
Qed.

(** ** Trimming, deduplication and cost *)

Lemma trimEnd_cons (c : ascii) (r : string) :
  JS.trimEnd (String c r)
  = match JS.trimEnd r with
    | EmptyString => if JS.isWhiteSpace c then EmptyString else String c EmptyString
    | String d r' => String c (String d r')
    end.
Proof. reflexivity. Qed.

Lemma trimEnd_idem (s : string) : JS.trimEnd (JS.trimEnd s) = JS.trimEnd s.
Proof.
  induction s as [|c r IH]; [reflexivity|].
  rewrite trimEnd_cons. destruct (JS.trimEnd r) as [|d r'] eqn:Hr.
  - destruct (JS.isWhiteSpace c) eqn:Hc; [reflexivity|].
    rewrite trimEnd_cons. cbn [JS.trimEnd]. now rewrite Hc.
  - rewrite trimEnd_cons, IH. reflexivity.
Qed.

Lemma trimEnd_head (c : ascii) (r : string) :
  JS.isWhiteSpace c = false -> exists r', JS.trimEnd (String c r) = String c r'.
Proof.
  intros Hc. rewrite trimEnd_cons. destruct (JS.trimEnd r); [rewrite Hc|]; eauto.
Qed.

Lemma trimStart_head (s : string) :
  JS.trimStart s = EmptyString
  \/ exists c r, JS.trimStart s = String c r /\ JS.isWhiteSpace c = false.
Proof.
  induction s as [|c r IH]; [now left|].
  cbn [JS.trimStart]. destruct (JS.isWhiteSpace c) eqn:Hc; [exact IH|].
  right. eauto.
Qed.

Lemma trim_idem (s : string) : JS.trim (JS.trim s) = JS.trim s.
Proof.
  unfold JS.trim. destruct (trimStart_head s) as [-> | (c & r & -> & Hc)]; [reflexivity|].
  destruct (trimEnd_head c r Hc) as [r' Hr']. rewrite Hr'.
  cbn [JS.trimStart]. rewrite Hc, <- Hr'. apply trimEnd_idem.
Qed.

(** X3.  The summary and the answer that [parseModelResponse] returns never
    begin or end with white space: trimming them again changes nothing. *)
Theorem parseModelResponse_trimmed (rawContent : string) :
  JS.trim (p_summary (parseModelResponse rawContent))
  = p_summary (parseModelResponse rawContent)
  /\ JS.trim (p_answer (parseModelResponse rawContent))
     = p_answer (parseModelResponse rawContent).
Proof.
  unfold parseModelResponse.
  destruct (JS.split SECTION_SEPARATOR rawContent) as [|part0 [|part1 more]];
    cbn [p_summary p_answer]; (split; [|apply trim_idem]);
    try apply trim_idem;
    destruct (String.length _ <? 500); first [apply trim_idem | reflexivity].
Qed.

Lemma filterUnseen_distinct (seen : gset string) (chunks : list Chunk.t) :
  NoDup (Chunk.id <$> chunks) ->
  (forall c, c ∈ chunks -> Chunk.id c ∉ seen) ->
  filterUnseen seen chunks = chunks.
Proof.
  revert seen. induction chunks as [|x rest IH]; intros seen Hnodup Hseen; [reflexivity|].
  cbn [filterUnseen]. rewrite fmap_cons in Hnodup. apply NoDup_cons in Hnodup as [Hx Hrest].
  destruct (decide (Chunk.id x ∈ seen)) as [Hin | _].
  - exfalso. apply (Hseen x); [apply list_elem_of_here | exact Hin].
  - f_equal. apply IH; [exact Hrest|].
    intros c Hc. rewrite not_elem_of_union, not_elem_of_singleton. split.
    + intros Heq. apply Hx. rewrite <- Heq. apply list_elem_of_fmap. now exists c.
    + apply Hseen. now apply list_elem_of_further.
Qed.

Lemma arraySort_sorted (l : list Chunk.t) :
  StronglySorted similarityDescending l -> arraySort bySimilarityDesc l = l.
Proof.
  induction 1 as [|x r Hsorted IH Hall]; [reflexivity|].
  cbn [arraySort]. rewrite IH. destruct r as [|y r']; [reflexivity|].
  cbn [sortInsert]. apply Forall_cons in Hall as [Hxy _].
  unfold bySimilarityDesc, similarityDescending in *.
  destruct (Qlt_le_dec 0 _) as [Hlt | _]; [lra | reflexivity].
Qed.

Lemma filterUnseen_length (seen : gset string) (chunks : list Chunk.t) :
  length (filterUnseen seen chunks) <= length chunks.
Proof.
  revert seen. induction chunks as [|x rest IH]; intros seen; [reflexivity|].
  cbn [filterUnseen]. destruct (decide _); cbn [length];
    [specialize (IH seen) | specialize (IH ({[Chunk.id x]} ∪ seen))]; lia.
Qed.

(** X4.  Deduplicating twice is deduplicating once, and the result is never
    longer than the input. *)
Theorem deduplicateChunks_idempotent (chunks : list Chunk.t) :
  deduplicateChunks (deduplicateChunks chunks) = deduplicateChunks chunks
  /\ length (deduplicateChunks chunks) <= length chunks.
Proof.
  assert (Hnodup : NoDup (Chunk.id <$> deduplicateChunks chunks)).
  { unfold deduplicateChunks. rewrite arraySort_Permutation. apply filterUnseen_NoDup. }
  assert (Hsorted : StronglySorted similarityDescending (deduplicateChunks chunks))
    by apply arraySort_similarityDescending.
  split.
  - unfold deduplicateChunks at 1.
    rewrite filterUnseen_distinct; [now apply arraySort_sorted | exact Hnodup|].
    intros c _. apply not_elem_of_empty.
  - unfold deduplicateChunks. rewrite arraySort_Permutation.
    apply filterUnseen_length.
Qed.

Lemma modelCost_positive (name : string) : (0 < modelCost name)%Q.
Proof.
  unfold modelCost. destruct (costPer1M !! name) as [rate|] eqn:Hrate; [|reflexivity].
  unfold costPer1M in Hrate. apply elem_of_list_to_map_2 in Hrate.
  repeat (apply elem_of_cons in Hrate as [[= -> ->] | Hrate]; [vm_compute; reflexivity|]).
  inversion Hrate.
Qed.

(** X5.  The estimated cost of a positive number of tokens is positive for
    every model name, listed in the table or not, that does not name an
    inherited property of objects (for such a name the lookup of the source
    does not give a rate): no usage is estimated as free. *)
Theorem estimateCost_positive (name : string) (tokens : Z) :
  name ∉ inheritedKeys ->
  (0 < tokens)%Z -> (0 < estimateCost name tokens)%Q.
Proof.
  intros _ Htokens. unfold estimateCost.
  apply Qmult_lt_0_compat; [|apply modelCost_positive].
  apply Qlt_shift_div_l; [reflexivity|]. rewrite Qmult_0_l.
  change 0%Q with (inject_Z 0). now rewrite <- Zlt_Qlt.
Qed.

(** ** The two sections of a completion *)

Lemma splitFrom_skip (sep : string) (k : nat) (s : string) :
  JS.splitFrom sep k s = JS.splitFrom sep 0 (JS.drop k s).
Proof.
  revert s. induction k as [|k IH]; intros s; [reflexivity|].
  destruct s as [|c r]; [reflexivity|]. cbn [JS.splitFrom JS.drop]. apply IH.
Qed.

Lemma drop_append (a b : string) : JS.drop (String.length a) (a +:+ b) = b.
Proof. induction a as [|c a IH]; [reflexivity|]. exact IH. Qed.

Lemma split_at_separator (c : ascii) (sep rest : string) :
  JS.split (String c sep) (String c sep +:+ rest)
  = EmptyString :: JS.split (String c sep) rest.
Proof.
  unfold JS.split. rewrite append_cons. cbn [JS.splitFrom].
  rewrite <- append_cons, startsWith_append.
  replace (String.length (String c sep) - 1) with (String.length sep)
    by (cbn [String.length]; lia).
  rewrite splitFrom_skip, drop_append.
  reflexivity.
Qed.

Lemma startsWith_take (p a b : string) (n : nat) :
  String.length p <= String.length a + n ->
  JS.startsWith p (a +:+ b) = true -> JS.startsWith p (a +:+ JS.take n b) = true.
Proof.
  revert a b n. induction p as [|x p IH]; intros a b n Hlen H; [reflexivity|].
  destruct a as [|y a].
  - rewrite append_nil in *. cbn [String.length] in Hlen.
    destruct n as [|n]; [lia|]. destruct b as [|z b]; [discriminate H|].
    cbn [JS.take JS.startsWith] in *. apply andb_prop in H as [-> H]. cbn [andb].
    apply (IH EmptyString b n); [cbn [String.length]; lia | exact H].
  - rewrite append_cons in *. cbn [JS.startsWith] in *.
    apply andb_prop in H as [-> H]. cbn [andb].
    apply IH; [cbn [String.length] in Hlen; lia | exact H].
Qed.

Lemma take_append (n : nat) (a b : string) :
  n <= String.length a -> JS.take n (a +:+ b) = JS.take n a.
Proof.
  revert a. induction n as [|n IH]; intros a H; [reflexivity|].
  destruct a as [|c a]; [cbn [String.length] in H; lia|].
  rewrite append_cons. cbn [JS.take]. rewrite IH; [reflexivity|].
  cbn [String.length] in H. lia.
Qed.

Lemma split_before_separator (sep before rest : string) :
  sep <> EmptyString ->
  JS.includes sep (before +:+ JS.take (String.length sep - 1) sep) = false ->
  JS.split sep (before +:+ sep +:+ rest) = before :: JS.split sep rest.
Proof.
  intros Hsep. destruct sep as [|c sep]; [contradiction|]. clear Hsep.
  induction before as [|x before IH]; intros H.
  - rewrite append_nil. apply split_at_separator.
  - rewrite append_cons in H. cbn [JS.includes] in H.
    apply orb_false_iff in H as [Hhere Hrest].
    rewrite append_cons. unfold JS.split in *. cbn [JS.splitFrom].
    destruct (JS.startsWith (String c sep) (String x (before +:+ String c sep +:+ rest)))
      eqn:Hstart.
    + rewrite <- append_cons in Hstart.
      apply (startsWith_take _ _ _ (String.length (String c sep) - 1)) in Hstart;
        [|cbn [String.length]; lia].
      rewrite take_append in Hstart by lia.
      rewrite append_cons in Hstart. congruence.
    + now rewrite (IH Hrest).
Qed.

Lemma startsWith_weaken (p a b : string) :
  JS.startsWith p a = true -> JS.startsWith p (a +:+ b) = true.
Proof.
  revert a. induction p as [|x p IH]; intros a H; [reflexivity|].
  destruct a as [|y a]; [discriminate H|].
  rewrite append_cons. cbn [JS.startsWith] in *.
  apply andb_prop in H as [-> H]. exact (IH a H).
Qed.

Lemma includes_weaken (p a b : string) :
  JS.includes p (a +:+ b) = false -> JS.includes p a = false.
Proof.
  induction a as [|c a IH]; intros H.
  - rewrite append_nil in H. cbn [JS.includes].
    destruct p as [|x p]; [|reflexivity].
    destruct b; discriminate H.
  - rewrite append_cons in H. cbn [JS.includes] in *.
    apply orb_false_iff in H as [Hhere Hrest]. rewrite (IH Hrest), orb_false_r.
    destruct (JS.startsWith p (String c a)) eqn:Hp; [|reflexivity].
    apply (startsWith_weaken _ _ b) in Hp. rewrite append_cons in Hp. congruence.
Qed.

(** X6.  When the completion holds the separator, the summary is read from
    the text before its first occurrence and the answer from the text between
    the first and the second: both trimmed, a leading part label removed, and
    trimmed again.  Whatever follows a second separator is dropped. *)
Theorem parseModelResponse_reads_two_sections (first second rest : string) :
  separatorFree first -> separatorFree second ->
  let parsed := parseModelResponse (first +:+ SECTION_SEPARATOR +:+ second) in
  p_summary parsed = JS.trim (stripPartLabel "**PART 1:" (JS.trim first))
  /\ p_answer parsed = JS.trim (stripPartLabel "**PART 2:" (JS.trim second))
  /\ parseModelResponse
       (first +:+ SECTION_SEPARATOR +:+ second +:+ SECTION_SEPARATOR +:+ rest)
     = parsed.
Proof.
  intros Hfirst Hsecond parsed. subst parsed. unfold parseModelResponse.
  rewrite !(split_before_separator SECTION_SEPARATOR first) by (discriminate || exact Hfirst).
  rewrite (split_before_separator SECTION_SEPARATOR second) by (discriminate || exact Hsecond).
  rewrite (split_absent SECTION_SEPARATOR second)
    by (exact (includes_weaken _ _ _ Hsecond)).
  repeat split.
Qed.

Lemma startsWithCI_weaken (p a b : string) :
  JS.startsWithCI p a = true -> JS.startsWithCI p (a +:+ b) = true.
Proof.
  revert a. induction p as [|x p IH]; intros a H; [reflexivity|].
  destruct a as [|y a]; [discriminate H|].
  rewrite append_cons. cbn [JS.startsWithCI] in *.
  apply andb_prop in H as [-> H]. exact (IH a H).
Qed.

Lemma afterClosingStars_title (title rest : string) :
  allChars isTitleChar title = true ->
  afterClosingStars (title +:+ "**" +:+ rest) = Some rest.
Proof.
  induction title as [|c title IH]; intros Htitle.
  - reflexivity.
  - cbn [allChars] in Htitle. apply andb_prop in Htitle as [Hc Htitle].
    unfold isTitleChar in Hc. apply andb_prop in Hc as [Hline Hstar].
    apply negb_true_iff in Hline, Hstar.
    rewrite append_cons. cbn [afterClosingStars JS.startsWith].
    rewrite Ascii.eqb_sym, Hstar, Hline. cbn [andb]. exact (IH Htitle).
Qed.

Lemma stripPartLabel_label (label written title rest : string) :
  JS.startsWithCI label written = true ->
  String.length written = String.length label ->
  allChars isTitleChar title = true ->
  stripPartLabel label (written +:+ title +:+ "**" +:+ rest) = rest.
Proof.
  intros Hlabel Hlength Htitle. unfold stripPartLabel.
  rewrite (startsWithCI_weaken _ _ _ Hlabel), <- Hlength, drop_append.
  now rewrite afterClosingStars_title.
Qed.

Lemma trim_trimEnd (s : string) : JS.trim (JS.trimEnd s) = JS.trim s.
Proof.
  induction s as [|c r IH]; [reflexivity|].
  destruct (JS.isWhiteSpace c) eqn:Hc.
  - rewrite trimEnd_cons. destruct (JS.trimEnd r) as [|d r'] eqn:Hr.
    + rewrite Hc. unfold JS.trim at 2. cbn [JS.trimStart]. rewrite Hc.
      exact IH.
    + unfold JS.trim at 1 2. cbn [JS.trimStart]. rewrite Hc. exact IH.
  - destruct (trimEnd_head c r Hc) as [r' Hr']. unfold JS.trim.
    rewrite Hr'. cbn [JS.trimStart]. rewrite Hc, <- Hr'. apply trimEnd_idem.
Qed.

Lemma trimEnd_after_stars (a b : string) :
  JS.trimEnd (a +:+ "**" +:+ b) = a +:+ "**" +:+ JS.trimEnd b.
Proof.
  induction a as [|c a IH].
  - rewrite !append_nil, !append_cons, !append_nil.
    rewrite trimEnd_cons, trimEnd_cons. now destruct (JS.trimEnd b).
  - change (String c a +:+ "**" +:+ b) with (String c (a +:+ "**" +:+ b)).
    rewrite trimEnd_cons, IH. destruct a; reflexivity.
Qed.

(** The trimmed text of a section that opens with a part label. *)
Lemma trim_labelled (label written title text : string) :
  JS.startsWithCI (String "*" label) written = true ->
  JS.trim (written +:+ title +:+ "**" +:+ text)
  = written +:+ title +:+ "**" +:+ JS.trimEnd text.
Proof.
  intros Hlabel. destruct written as [|c written]; [discriminate Hlabel|].
  cbn [JS.startsWithCI] in Hlabel. apply andb_prop in Hlabel as [Hc _].
  assert (Hstar : JS.isWhiteSpace c = false).
  { destruct c as [[] [] [] [] [] [] [] []]; try discriminate Hc; reflexivity. }
  unfold JS.trim. rewrite append_cons. cbn [JS.trimStart]. rewrite Hstar.
  rewrite <- append_cons, <- append_assoc, trimEnd_after_stars.
  now rewrite append_assoc.
Qed.

(** X7.  When each section of a completion opens with its part label,
    written in any letter case and followed on the same line by a title
    without stars and by two closing stars, the label and its title are
    removed: the summary and the answer are the trimmed texts that follow
    them. *)
Theorem parseModelResponse_drops_part_labels
    (written1 title1 summaryText written2 title2 answerText : string) :
  let first := written1 +:+ title1 +:+ "**" +:+ summaryText in
  let second := written2 +:+ title2 +:+ "**" +:+ answerText in
  JS.startsWithCI "**PART 1:" written1 = true ->
  JS.startsWithCI "**PART 2:" written2 = true ->
  String.length written1 = 9 -> String.length written2 = 9 ->
  allChars isTitleChar title1 = true -> allChars isTitleChar title2 = true ->
  separatorFree first -> separatorFree second ->
  p_summary (parseModelResponse (first +:+ SECTION_SEPARATOR +:+ second))
  = JS.trim summaryText
  /\ p_answer (parseModelResponse (first +:+ SECTION_SEPARATOR +:+ second))
     = JS.trim answerText.
Proof.
  intros first second Hlabel1 Hlabel2 Hlength1 Hlength2 Htitle1 Htitle2 Hfirst Hsecond.
  unfold parseModelResponse.
  rewrite (split_before_separator SECTION_SEPARATOR first) by (discriminate || exact Hfirst).
  rewrite (split_absent SECTION_SEPARATOR second)
    by (exact (includes_weaken _ _ _ Hsecond)).
  cbn [p_summary p_answer]. subst first second.
  rewrite (trim_labelled _ _ _ _ Hlabel1), (trim_labelled _ _ _ _ Hlabel2).
  rewrite !stripPartLabel_label by assumption.
  now rewrite !trim_trimEnd.
Qed.

(** ** Reading time *)

Lemma countPieces_word (w rest : string) (inRun : bool) :
  noWhiteSpace w = true -> w <> EmptyString ->
  countPieces inRun (w +:+ rest) = countPieces false rest.
Proof.
  revert inRun. induction w as [|c w IH]; intros inRun Hw Hne; [contradiction|].
  cbn [noWhiteSpace] in Hw. apply andb_prop in Hw as [Hc Hw].
  rewrite append_cons. cbn [countPieces].
  destruct (JS.isWhiteSpace c); [discriminate Hc|].
  destruct w as [|d w]; [reflexivity|]. now apply IH.
Qed.

Lemma countPieces_afterRun (c : ascii) (s : string) :
  JS.isWhiteSpace c = false ->
  countPieces true (String c s) = countPieces false (String c s).
Proof. intros Hc. cbn [countPieces]. now rewrite Hc. Qed.

Lemma join_words_head (w : string) (words : list string) :
  isWord w ->
  exists c s, JS.join " " (w :: words) = String c s /\ JS.isWhiteSpace c = false.
Proof.
  intros [Hne Hw]. destruct w as [|c w]; [contradiction|].
  cbn [noWhiteSpace] in Hw. apply andb_prop in Hw as [Hc _].
  apply negb_true_iff in Hc.
  destruct words as [|w' words]; cbn [JS.join]; rewrite ?append_cons; eauto.
Qed.

Lemma countPieces_words (words : list string) :
  Forall isWord words -> words <> [] ->
  countPieces false (JS.join " " words) = length words.
Proof.
  induction words as [|w words IH]; intros Hwords Hne; [contradiction|].
  apply Forall_cons in Hwords as [[Hw1 Hw2] Hwords].
  destruct words as [|w' words].
  - cbn [JS.join length]. rewrite <- (append_empty_r w).
    now rewrite countPieces_word.
  - change (JS.join " " (w :: w' :: words))
      with (w +:+ " " +:+ JS.join " " (w' :: words)).
    rewrite countPieces_word by assumption.
    rewrite append_cons, append_nil. cbn [countPieces].
    change (JS.isWhiteSpace " ") with true. cbv iota.
    pose proof Hwords as Hhead. apply Forall_cons in Hhead as [Hw' _].
    destruct (join_words_head w' words Hw') as (c & s & Hj & Hc).
    specialize (IH Hwords ltac:(discriminate)). rewrite Hj in *.
    rewrite (countPieces_afterRun c s Hc), IH. reflexivity.
Qed.

(** X8.  For a text of words separated by single spaces the reading time
    counts the words: under a minute below 200 words, and otherwise the
    number of words over 200, rounded up, in minutes. *)
Theorem calculateReadingTime_of_words (words : list string) :
  Forall isWord words -> words <> [] ->
  calculateReadingTime (JS.join " " words)
  = if length words <? 200 then "< 1 min read"
    else JS.showNat (Num.ceilDiv (length words) 200) +:+ " min read".
Proof.
  intros Hwords Hne. unfold calculateReadingTime.
  now rewrite countPieces_words.
Qed.

(** ** The retrieval stage *)

Section SearchExtras.
Context {World Embedding : Type} (svc : Services World Embedding).

(** X9.  The search loop embeds every query in order and follows each
    embedding by one search, so a loop that resolves made two calls per
    query.  Its result is the chunks it started with followed by the rows of
    the searches in the order of the queries, where a search that reports an
    error contributes none, whatever rows it carries, and does not stop the
    loop.  The loop rejects only when an embedding rejects, and then stops
    at that query. *)
Theorem searchAll_tolerates_failed_searches (searchQueries : list string)
    (allChunks : list Chunk.t) (w w' : World) (r : Outcome (list Chunk.t))
    (t : list Event) :
  searchAll svc searchQueries allChunks w = (r, w', t) ->
  match r with
  | Resolved chunks =>
      chunks = allChunks ++ searchContributions svc searchQueries w
      /\ allChunks `prefix_of` chunks
      /\ embeddedTexts t = searchQueries
      /\ length t = 2 * length searchQueries
  | Rejected error =>
      exists text, text ∈ searchQueries /\ last t = Some (EvEmbed text None)
  end.
Proof.
  revert allChunks w w' r t.
  induction searchQueries as [|q rest IH]; intros allChunks w w' r t H.
  - cbn [searchAll] in H. rewrite run_ret in H. injection H as <- _ <-.
    cbn [searchContributions]. rewrite app_nil_r. repeat split. reflexivity.
  - cbn [searchAll] in H. rewrite run_bind, generateEmbedding_run in H.
    cbn [searchContributions].
    destruct (svc_generateEmbedding svc q w) as [[e | error] w0]; cbv beta iota in H.
    2:{ injection H as <- _ <-. exists q. split; [apply list_elem_of_here | reflexivity]. }
    rewrite run_bind in H. unfold call in H.
    destruct (svc_match_legalrnd_chunks svc (embedding e) w0) as [reply w1].
    cbv beta iota in H.
    match type of H with
    | context [searchAll svc rest ?acc w1] =>
        assert (Hacc : acc
                       = allChunks
                         ++ match rpc_error reply with
                            | Some _ => []
                            | None => default [] (rpc_data reply)
                            end)
          by (destruct (rpc_error reply), (rpc_data reply) as [[|c cs]|];
              cbn [default]; rewrite ?app_nil_r; reflexivity);
        destruct (searchAll svc rest acc w1) as [[r1 w2] t2] eqn:Htail
    end.
    injection H as <- _ <-. specialize (IH _ _ _ _ _ Htail).
    destruct r1 as [chunks | error].
    + destruct IH as (Hchunks & _ & Htexts & Hlen).
      rewrite Hacc, <- app_assoc in Hchunks.
      split; [exact Hchunks|]. split; [|split].
      * rewrite Hchunks. now apply prefix_app_r.
      * unfold embeddedTexts in *. cbn. now rewrite Htexts.
      * cbn [length app]. rewrite Hlen. lia.
    + destruct IH as (text & Hin & Hlast). exists text.
      split; [now apply list_elem_of_further|].
      cbn [app]. destruct t2 as [|e2 t2]; [discriminate Hlast|].
      now rewrite !last_cons_cons.
Qed.

End SearchExtras.

Lemma embeddedTexts_app (t1 t2 : list Event) :
  embeddedTexts (t1 ++ t2) = embeddedTexts t1 ++ embeddedTexts t2.
Proof. apply omap_app. Qed.

Section EmbeddingExtras.
Context {World Embedding : Type} (svc : Services World Embedding).

Lemma filterBySelectedMasters_embeds_nothing (selected : option (list string))
    (chunks : list Chunk.t) (w : World) :
  embeddedTexts (filterBySelectedMasters svc selected chunks w).2 = [].
Proof.
  unfold filterBySelectedMasters.
  destruct selected as [[|m ms]|], chunks as [|c cs]; try reflexivity.
  rewrite run_bind. unfold call.
  destruct (svc_documentsByMaster svc (m :: ms) w) as [[documents|] w1];
    cbv beta iota; rewrite run_ret; reflexivity.
Qed.

Lemma searchAll_embeds (searchQueries : list string) (allChunks chunks : list Chunk.t)
    (w w' : World) (t : list Event) :
  searchAll svc searchQueries allChunks w = (Resolved chunks, w', t) ->
  embeddedTexts t = searchQueries.
Proof.
  revert allChunks chunks w w' t.
  induction searchQueries as [|q rest IH]; intros allChunks chunks w w' t H.
  - cbn [searchAll] in H. rewrite run_ret in H. now injection H as _ _ <-.
  - cbn [searchAll] in H. rewrite run_bind, generateEmbedding_run in H.
    destruct (svc_generateEmbedding svc q w) as [[e | error] w0]; cbv beta iota in H;
      [|discriminate H].
    rewrite run_bind in H. unfold call in H.
    destruct (svc_match_legalrnd_chunks svc (embedding e) w0) as [reply w1].
    cbv beta iota in H.
    match type of H with
    | context [searchAll svc rest ?acc w1] =>
        destruct (searchAll svc rest acc w1) as [[r1 w2] t2] eqn:Htail
    end.
    destruct r1 as [found | error]; [|discriminate H].
    injection H as _ _ <-. apply IH in Htail.
    unfold embeddedTexts in *. cbn. now rewrite Htail.
Qed.

(** X10.  A retrieval that resolves has embedded the question and then each
    of the search queries, the first of which is the question again: the
    question is embedded twice, and between 3 and 14 embeddings are made. *)
Theorem retrieveChunks_embeds_question_twice (question : string)
    (options : Options) (w w' : World)
    (found : EmbeddingResult Embedding * list Chunk.t) (t : list Event) :
  retrieveChunks svc question options w = (Resolved found, w', t) ->
  embeddedTexts t = question :: generateSearchQueries question
  /\ (exists variants, embeddedTexts t = question :: question :: variants)
  /\ 3 <= length (embeddedTexts t) <= 14.
Proof.
  intros H.
  assert (Htexts : embeddedTexts t = question :: generateSearchQueries question).
  { unfold retrieveChunks in H. rewrite run_bind, generateEmbedding_run in H.
    destruct (svc_generateEmbedding svc question w) as [[e | error] w0];
      cbv beta iota in H; [|discriminate H].
    rewrite run_bind in H.
    destruct (searchAll svc (generateSearchQueries question) [] w0)
      as [[[allChunks | error] w2] t2] eqn:Hsearch; cbv beta iota in H;
      [|discriminate H].
    apply searchAll_embeds in Hsearch.
    rewrite run_bind in H.
    pose proof (filterBySelectedMasters_embeds_nothing (selectedMasters options)
                  (filterBySelectedDocuments (selectedDocumentIds options)
                     (deduplicateChunks allChunks)) w2) as Hmasters.
    destruct (filterBySelectedMasters svc _ _ w2) as [[[kept | error] w3] t3];
      cbv beta iota in H; [|discriminate H].
    rewrite run_bind in H. unfold enhanceChunksWithDocumentContext in H.
    rewrite run_bind in H. unfold call in H.
    destruct (svc_documentsById svc _ w3) as [[documents|] w4]; cbv beta iota in H;
      rewrite !run_ret in H; cbv beta iota in H; injection H as _ _ <-;
      cbn [snd] in Hmasters;
      change (embeddedTexts (?e :: ?l)) with (question :: embeddedTexts l);
      rewrite !embeddedTexts_app, Hsearch, Hmasters;
      cbn; now rewrite app_nil_r. }
  split; [exact Htexts|].
  pose proof (generateSearchQueries_head question) as (variants & Hqueries & Hlen).
  rewrite Htexts, Hqueries. split; [now exists variants|].
  cbn [length]. lia.
Qed.

End EmbeddingExtras.

Lemma docMapOf_lookup (documents : list Doc.t) (i : string) :
  docMapOf documents !! i = lastRowWithId i documents.
Proof.
  unfold docMapOf, lastRowWithId.
  induction documents as [|d rest IH] using rev_ind; [reflexivity|].
  rewrite foldl_app, List.filter_app. cbn [foldl List.filter].
  destruct (String.eqb (Doc.id d) i) eqn:Hid.
  - apply String.eqb_eq in Hid. subst i. rewrite lookup_insert_eq.
    now rewrite last_snoc.
  - apply String.eqb_neq in Hid. rewrite lookup_insert_ne by exact Hid.
    now rewrite app_nil_r.
Qed.

Lemma distinct_elem (seen : gset string) (xs : list string) (x : string) :
  x ∈ distinct seen xs ↔ x ∈ xs ∧ (x ∉ seen).
Proof.
  revert seen. induction xs as [|y rest IH]; intros seen; cbn [distinct].
  - split; [intros H; inversion H | intros [H _]; inversion H].
  - destruct (decide (y ∈ seen)) as [Hin | Hnot].
    + rewrite IH, elem_of_cons. split; [tauto|].
      intros [[-> | H] Hx]; [contradiction | tauto].
    + rewrite !elem_of_cons, IH, not_elem_of_union, not_elem_of_singleton.
      split.
      * intros [-> | (H & Hne & Hx)]; tauto.
      * intros [[-> | H] Hx]; [now left|].
        destruct (decide (x = y)) as [-> | Hne]; [now left | right; tauto].
Qed.

Lemma distinct_NoDup (seen : gset string) (xs : list string) :
  NoDup (distinct seen xs).
Proof.
  revert seen. induction xs as [|y rest IH]; intros seen; cbn [distinct]; [constructor|].
  destruct (decide (y ∈ seen)); [apply IH|].
  constructor; [|apply IH].
  rewrite distinct_elem, not_elem_of_union, not_elem_of_singleton. tauto.
Qed.

Lemma retrievedAs_sorted (l l' : list Chunk.t) :
  Forall2 retrievedAs l l' ->
  StronglySorted similarityDescending l -> StronglySorted similarityDescending l'.
Proof.
  induction 1 as [|c e l l' (p & ty & ->) Hrest IH]; intros Hsorted; [constructor|].
  apply StronglySorted_inv in Hsorted as [Hl Hall]. constructor; [now apply IH|].
  clear IH Hl. induction Hrest as [|c2 e2 l l' (p2 & ty2 & ->) Hrest IH]; [constructor|].
  apply Forall_cons in Hall as [H1 H2]. constructor; [exact H1 | now apply IH].
Qed.

Lemma retrievedAs_fields (l l' : list Chunk.t) :
  Forall2 retrievedAs l l' ->
  Chunk.id <$> l' = Chunk.id <$> l
  /\ Chunk.document_id <$> l' = Chunk.document_id <$> l.
Proof.
  induction 1 as [|c e l l' (p & ty & ->) Hrest [IH1 IH2]]; [now split|].
  rewrite !fmap_cons, IH1, IH2. now split.
Qed.

Lemma filter_all (l : list Chunk.t) : List.filter (fun _ => true) l = l.
Proof. induction l as [|c cs IH]; [reflexivity|]. cbn. now rewrite IH. Qed.

Lemma filter_distinct_ids (f : Chunk.t -> bool) (l : list Chunk.t) :
  NoDup (Chunk.id <$> l) -> NoDup (Chunk.id <$> List.filter f l).
Proof.
  induction l as [|c cs IH]; [easy|]. rewrite fmap_cons.
  intros [Hc Hcs]%NoDup_cons. cbn [List.filter].
  destruct (f c); [|now apply IH].
  rewrite fmap_cons. constructor; [|now apply IH].
  intros (x & Hid & Hx)%list_elem_of_fmap. apply Hc.
  apply list_elem_of_fmap. exists x. split; [exact Hid|].
  apply list_elem_of_In, List.filter_In in Hx as [Hx _]. now apply list_elem_of_In.
Qed.

Lemma filter_ranked (f : Chunk.t -> bool) (l : list Chunk.t) :
  StronglySorted similarityDescending l ->
  StronglySorted similarityDescending (List.filter f l).
Proof.
  induction 1 as [|c cs Hcs IH Hall]; [constructor|]. cbn [List.filter].
  destruct (f c); [|exact IH]. constructor; [exact IH|].
  apply Forall_forall. intros x Hx.
  apply list_elem_of_In, List.filter_In in Hx as [Hx _].
  rewrite Forall_forall in Hall. apply Hall. now apply list_elem_of_In.
Qed.

Section RetrievalExtras.
Context {World Embedding : Type} (svc : Services World Embedding).

(** X11.  [enhanceChunksWithDocumentContext] always resolves, after one
    lookup of the documents by the distinct document ids of the chunks.  It
    returns the chunks in their order: unchanged when the lookup gives no
    data, and otherwise each with the file path and file type of the last
    returned row of its document (none when no row has its id). *)
Theorem enhanceChunks_keeps_chunks (chunks : list Chunk.t) (w : World) :
  let ids := distinct ∅ (Chunk.document_id <$> chunks) in
  exists enhanced,
    enhanceChunksWithDocumentContext svc chunks w
    = (Resolved enhanced, (svc_documentsById svc ids w).2, [EvDocumentsById ids])
    /\ NoDup ids
    /\ (forall i, i ∈ ids ↔ i ∈ Chunk.document_id <$> chunks)
    /\ match (svc_documentsById svc ids w).1 with
       | None => enhanced = chunks
       | Some documents =>
           enhanced
           = (fun chunk =>
                let row := lastRowWithId (Chunk.document_id chunk) documents in
                Chunk.with_file chunk (row ≫= Doc.file_path) (row ≫= Doc.file_type))
             <$> chunks
       end.
Proof.
  intros ids. unfold enhanceChunksWithDocumentContext. fold ids.
  rewrite run_bind. unfold call.
  destruct (svc_documentsById svc ids w) as [[documents|] w1]; cbv beta iota;
    rewrite run_ret; cbv beta iota; cbn [fst snd]; eexists;
    (split; [reflexivity|]); (split; [apply distinct_NoDup|]);
    (split; [intros i; subst ids; rewrite distinct_elem;
             split; [tauto | split; [assumption | apply not_elem_of_empty]]|]).
  - apply list_fmap_ext. intros k chunk _. cbv zeta.
    now rewrite docMapOf_lookup.
  - reflexivity.
Qed.

Lemma enhanceChunks_retrievedAs (chunks : list Chunk.t) (w w' : World)
    (r : Outcome (list Chunk.t)) (t : list Event) :
  enhanceChunksWithDocumentContext svc chunks w = (r, w', t) ->
  exists enhanced, r = Resolved enhanced /\ Forall2 retrievedAs chunks enhanced.
Proof.
  unfold enhanceChunksWithDocumentContext. rewrite run_bind. unfold call.
  destruct (svc_documentsById svc _ w) as [[documents|] w1]; cbv beta iota;
    rewrite run_ret; cbv beta iota; intros [= <- _ _]; eexists;
    (split; [reflexivity|]).
  - apply Forall2_fmap_r, Forall_Forall2_diag, Forall_forall.
    intros c _. now eexists _, _.
  - apply Forall_Forall2_diag, Forall_forall. intros [] _. now eexists _, _.
Qed.

Lemma filterBySelectedMasters_filters (selected : option (list string))
    (chunks : list Chunk.t) (w w' : World) (r : Outcome (list Chunk.t))
    (t : list Event) :
  filterBySelectedMasters svc selected chunks w = (r, w', t) ->
  exists keep, r = Resolved (List.filter keep chunks).
Proof.
  unfold filterBySelectedMasters.
  assert (Hall : chunks = List.filter (fun _ => true) chunks)
    by (symmetry; apply filter_all).
  destruct selected as [[|m ms]|], chunks as [|c cs];
    try (rewrite run_ret; intros [= <- _ _]; exists (fun _ => true); now rewrite <- Hall).
  rewrite run_bind. unfold call.
  destruct (svc_documentsByMaster svc (m :: ms) w) as [[documents|] w1];
    cbv beta iota; rewrite run_ret; cbv beta iota; intros [= <- _ _].
  - exists (fun chunk =>
              bool_decide (Chunk.document_id chunk
                           ∈ (list_to_set (MasterDoc.id <$> documents) : gset string))).
    reflexivity.
  - exists (fun _ => true). now rewrite <- Hall.
Qed.

(** X12.  The chunks that the retrieval stage hands on have distinct ids,
    stand in descending order of similarity, and, when a non-empty list of
    documents was selected, all belong to selected documents. *)
Theorem retrieved_chunks_are_ranked_and_scoped (question : string)
    (options : Options) (w w' : World) (emb : EmbeddingResult Embedding)
    (enhanced : list Chunk.t) (t : list Event) :
  retrieveChunks svc question options w = (Resolved (emb, enhanced), w', t) ->
  NoDup (Chunk.id <$> enhanced)
  /\ StronglySorted similarityDescending enhanced
  /\ forall d ds,
       selectedDocumentIds options = Some (d :: ds) ->
       forall c, c ∈ enhanced -> Chunk.document_id c ∈ d :: ds.
Proof.
  intros H. unfold retrieveChunks in H. rewrite run_bind in H.
  destruct (generateEmbedding svc question w) as [[[r | e] w0] t0];
    cbv beta iota in H; [|discriminate H].
  rewrite run_bind in H.
  destruct (searchAll svc (generateSearchQueries question) [] w0)
    as [[[allChunks | e] w2] t2]; cbv beta iota in H; [|discriminate H].
  rewrite run_bind in H.
  destruct (filterBySelectedMasters svc _ _ w2) as [[r3 w3] t3] eqn:Hmasters.
  apply filterBySelectedMasters_filters in Hmasters as [keep ->].
  cbv beta iota in H. rewrite run_bind in H.
  destruct (enhanceChunksWithDocumentContext svc _ w3) as [[r4 w4] t4] eqn:Henhance.
  apply enhanceChunks_retrievedAs in Henhance as (en & -> & Hen).
  cbv beta iota in H. rewrite run_ret in H. injection H as _ <- _ _.
  set (unique := deduplicateChunks allChunks) in *.
  set (scoped := filterBySelectedDocuments (selectedDocumentIds options) unique) in *.
  assert (Hunique : NoDup (Chunk.id <$> unique)
                    /\ StronglySorted similarityDescending unique).
  { split; [|apply arraySort_similarityDescending].
    unfold unique, deduplicateChunks. rewrite arraySort_Permutation.
    apply filterUnseen_NoDup. }
  assert (Hscoped : exists f, scoped = List.filter f unique
            /\ forall d ds, selectedDocumentIds options = Some (d :: ds) ->
                 forall c, f c = true -> Chunk.document_id c ∈ d :: ds).
  { unfold scoped, filterBySelectedDocuments.
    destruct (selectedDocumentIds options) as [[|d ds]|].
    - exists (fun _ => true). split; [now rewrite filter_all | discriminate].
    - eexists. split; [reflexivity|]. intros d' ds' [= <- <-] c Hc.
      now apply bool_decide_eq_true in Hc.
    - exists (fun _ => true). split; [now rewrite filter_all | discriminate]. }
  destruct Hscoped as (f & Hf & Hdocs). rewrite Hf in Hen.
  destruct (retrievedAs_fields _ _ Hen) as [Hids Hdocids].
  destruct Hunique as [Hnodup Hsorted].
  split; [|split].
  - rewrite Hids. now do 2 apply filter_distinct_ids.
  - apply (retrievedAs_sorted _ _ Hen). now do 2 apply filter_ranked.
  - intros d ds Hsel c Hc.
    apply list_elem_of_lookup in Hc as [k Hk].
    destruct (Forall2_lookup_r _ _ _ _ _ Hen Hk) as (c0 & Hk0 & (p & ty & ->)).
    assert (Hin : c0 ∈ List.filter keep (List.filter f unique))
      by (apply list_elem_of_lookup; eauto).
    apply list_elem_of_In, List.filter_In in Hin as [Hin _].
    apply List.filter_In in Hin as [_ Hfc].
    exact (Hdocs d ds Hsel c0 Hfc).
Qed.

End RetrievalExtras.

(** ** The fallback chain and its citations *)

Lemma orNull_truthy (x : option string) (s : string) :
  orNull x = Some s -> s <> EmptyString.
Proof.
  destruct x as [[|c r]|]; cbn; intros [= <-]; discriminate.
Qed.

Lemma orNull_not_empty (x : option string) : orNull x <> Some EmptyString.
Proof. intros H. now apply orNull_truthy in H. Qed.

Lemma completionCalls_cons_completion (m : string) (t : list Event) :
  completionCalls (EvCompletion m :: t) = m :: completionCalls t
  /\ failedAttempts (EvCompletion m :: t) = failedAttempts t.
Proof. split; reflexivity. Qed.

Section ChainExtras.
Context {World Embedding : Type} (svc : Services World Embedding).

Lemma tryModels_calls (question : string) (chunks : list Chunk.t)
    (embeddingTokens : Z) (models : list string) (lastError : option string)
    (w w' : World) (r : Outcome RAGResponse) (t : list Event) :
  tryModels svc question chunks embeddingTokens models lastError w = (r, w', t) ->
  completionCalls t `prefix_of` models
  /\ (failedAttempts t).*1 `prefix_of` completionCalls t
  /\ match r with
     | Resolved _ => length (completionCalls t) = S (length (failedAttempts t))
     | Rejected e =>
         completionCalls t = models /\ (failedAttempts t).*1 = models
         /\ exists err, e = msgAllFailedPrefix +:+ err
     end.
Proof.
  revert lastError w w' r t.
  induction models as [|m ms IH]; intros lastError w w' r t Hrun.
  - injection Hrun as <- <- <-. repeat split; eauto.
  - destruct (svc_fetchCompletion svc m (buildSystemPrompt question chunks)
                (buildUserPrompt question) w) as [reply w1] eqn:Hfetch.
    destruct (isCompleted reply) eqn:Hreply.
    + destruct (tryModels_step_completed svc question chunks embeddingTokens m ms
                  lastError w w1 reply Hfetch Hreply)
        as (response & w2 & t2 & Hstep & _ & Ht2).
      rewrite Hstep in Hrun. injection Hrun as <- <- <-.
      apply signUrl_is_generation in Ht2 as (_ & Hcalls & Hfailed).
      destruct (completionCalls_cons_completion m t2) as [-> ->].
      rewrite Hcalls, Hfailed. cbn. repeat split.
      * apply prefix_cons, prefix_nil.
      * apply prefix_nil.
    + destruct (tryModels_step_failed svc question chunks embeddingTokens m ms
                  lastError w w1 reply Hfetch Hreply) as [error Hstep].
      rewrite Hstep in Hrun.
      destruct (tryModels svc question chunks embeddingTokens ms (Some error) w1)
        as [[r1 w2] t2] eqn:Htail.
      injection Hrun as <- <- <-.
      destruct (IH _ _ _ _ _ Htail) as (Hp1 & Hp2 & Hr).
      rewrite failedAttempts_cons_failed, completionCalls_cons_failed, fmap_cons.
      cbn [fst]. repeat split.
      * now apply prefix_cons.
      * now apply prefix_cons.
      * destruct r1 as [response | e].
        -- cbn [length]. now rewrite Hr.
        -- destruct Hr as (-> & -> & err & ->). repeat split. now exists err.
Qed.

Lemma buildCitation_file (chunk : Chunk.t) (index : nat) (w : World) :
  exists citation w',
    buildCitation svc chunk index w
    = (Resolved citation, w',
       match orNull (Chunk.file_path chunk) with
       | Some path => [EvSignUrl path]
       | None => []
       end)
    /\ filed chunk citation.
Proof.
  unfold buildCitation. rewrite run_bind.
  assert (Hfiled : forall url,
            url <> Some EmptyString ->
            (orNull (Chunk.file_path chunk) = None -> url = None) ->
            forall quote position chapter video start finish,
            filed chunk
              (Citation.mk (Chunk.document_id chunk) (Chunk.document_title chunk)
                 (Chunk.master_name chunk) (Chunk.page_number chunk) (Chunk.id chunk)
                 quote (Chunk.content chunk) (Chunk.similarity chunk) position
                 chapter video start finish url
                 (if String.eqb (JS.toLowerCase (default "text" (orNull (Chunk.file_type chunk)))) "pdf"
                     || String.eqb (JS.toLowerCase (default "text" (orNull (Chunk.file_type chunk)))) "application/pdf"
                     || match orNull (Chunk.file_path chunk) with
                        | Some path => JS.endsWith ".pdf" (JS.toLowerCase path)
                        | None => false
                        end
                  then "application/pdf"
                  else default "text" (orNull (Chunk.file_type chunk))))).
  { intros url Hurl Hnone quote position chapter video start finish. unfold filed.
    cbn [Citation.file_type Citation.file_url].
    split; [|split; [exact Hurl|split; [exact Hnone|split]]].
    - destruct (_ || _); [discriminate|].
      destruct (orNull (Chunk.file_type chunk)) as [ty|] eqn:Hty; [|discriminate].
      exact (orNull_truthy _ _ Hty).
    - intros path -> ->. now rewrite orb_true_r.
    - intros declared -> Hlower.
      destruct declared as [|c r]; [discriminate Hlower|].
      change (default "text" (orNull (Some (String c r)))) with (String c r).
      rewrite Hlower. reflexivity. }
  destruct (orNull (Chunk.file_path chunk)) as [path|] eqn:Hpath.
  - rewrite run_bind. unfold call.
    destruct (svc_createSignedUrl svc path w) as [signedUrl w1].
    cbv beta iota. rewrite !run_ret. cbv beta iota.
    eexists _, _. split; [reflexivity|].
    apply Hfiled; [apply orNull_not_empty | discriminate].
  - rewrite !run_ret. cbv beta iota. eexists _, _. split; [reflexivity|].
    apply Hfiled; [discriminate | reflexivity].
Qed.

Lemma buildCitations_file (chunks : list Chunk.t) (index : nat) (w : World) :
  exists cited w' t,
    buildCitations svc index chunks w = (Resolved cited, w', t)
    /\ Forall2 filed chunks cited
    /\ signUrlCalls t = storagePaths chunks.
Proof.
  revert index w. induction chunks as [|chunk rest IH]; intros index w; cbn [buildCitations].
  - eexists _, _, _. split; [reflexivity|]. split; [constructor | reflexivity].
  - destruct (buildCitation_file chunk index w) as (c & w1 & Hc & Hfiled).
    destruct (IH (S index) w1) as (cs & w2 & t2 & Hcs & Hall & Ht2).
    rewrite (bind_resolved _ _ _ _ _ _ Hc), (bind_resolved _ _ _ _ _ _ Hcs).
    rewrite run_ret. cbv beta iota.
    eexists _, _, _. split; [reflexivity|]. split; [now constructor|].
    rewrite app_nil_r. unfold signUrlCalls, storagePaths in *.
    rewrite omap_app, Ht2.
    change (omap ?f (chunk :: rest))
      with (match f chunk with Some p => p :: omap f rest | None => omap f rest end).
    now destruct (orNull (Chunk.file_path chunk)).
Qed.

Lemma tryModels_files (question : string) (chunks : list Chunk.t)
    (embeddingTokens : Z) (models : list string) (lastError : option string)
    (w w' : World) (r : Outcome RAGResponse) (t : list Event) :
  tryModels svc question chunks embeddingTokens models lastError w = (r, w', t) ->
  match r with
  | Resolved response =>
      signUrlCalls t = storagePaths chunks
      /\ exists cited, citations response = Some cited /\ Forall2 filed chunks cited
  | Rejected _ => signUrlCalls t = []
  end.
Proof.
  revert lastError w w' r t.
  induction models as [|m ms IH]; intros lastError w w' r t Hrun.
  - injection Hrun as <- <- <-. reflexivity.
  - cbn [tryModels] in Hrun. rewrite run_bind in Hrun. unfold try_catch in Hrun.
    rewrite run_bind in Hrun. unfold attemptModel in Hrun. rewrite run_bind in Hrun.
    unfold call in Hrun.
    destruct (svc_fetchCompletion svc m _ _ w) as [reply w1].
    cbv beta iota in Hrun.
    destruct reply as [error | status errorText | error | content usage].
    1-3: unfold throw, emit in Hrun; cbv beta iota in Hrun;
         rewrite run_bind in Hrun; cbv beta iota in Hrun;
         rewrite run_ret in Hrun; cbv beta iota in Hrun;
         match type of Hrun with
         | context [tryModels ?a ?b ?c ?d ?e ?f ?g] =>
             destruct (tryModels a b c d e f g) as [[r1 w2] t2] eqn:Htail
         end;
         injection Hrun as <- <- <-; specialize (IH _ _ _ _ _ Htail);
         destruct r1; exact IH.
    destruct (buildCitations_file chunks 0 w1) as (cited & w2 & t2 & Hc & Hall & Ht2).
    rewrite (bind_resolved _ _ _ _ _ _ Hc) in Hrun.
    rewrite ?run_ret in Hrun. cbv beta iota in Hrun. rewrite ?run_ret in Hrun.
    cbv beta iota in Hrun. injection Hrun as <- <- <-. split.
    + rewrite !app_nil_r. exact Ht2.
    + exists cited. split; [reflexivity | exact Hall].
Qed.

(** X13.  The fallback chain requests a completion from the models of the
    priority list in order, each at most once, so at most 8 requests are
    made.  When it resolves, every request but the last failed; when it
    rejects, every model of the list was requested and failed, and the error
    is the fixed prefix followed by the last failure. *)
Theorem fallback_chain_one_request_per_model (question : string)
    (chunks : list Chunk.t) (embeddingTokens : Z) (w w' : World)
    (r : Outcome RAGResponse) (t : list Event) :
  generateResponseWithFallback svc question chunks embeddingTokens w = (r, w', t) ->
  completionCalls t `prefix_of` modelPriority
  /\ length (completionCalls t) <= 8
  /\ match r with
     | Resolved _ => length (failedAttempts t) + 1 = length (completionCalls t)
     | Rejected e =>
         completionCalls t = modelPriority
         /\ (failedAttempts t).*1 = modelPriority
         /\ exists err, e = msgAllFailedPrefix +:+ err
     end.
Proof.
  intros Hrun. unfold generateResponseWithFallback in Hrun.
  apply tryModels_calls in Hrun as (Hprefix & _ & Hr).
  split; [exact Hprefix|]. split.
  - apply prefix_length in Hprefix. exact Hprefix.
  - destruct r; [lia | exact Hr].
Qed.

(** X14.  A generation that resolves has asked for one signed url per chunk
    that has a storage path, in the order of the chunks, and for nothing
    else; a generation that rejects has asked for none.  Each citation has a
    file type that is not empty (that of a PDF when the path ends in [.pdf]
    or the declared type is [pdf], in any letter case) and has no url when
    its chunk has no path. *)
Theorem citations_files_and_signing (question : string)
    (chunks : list Chunk.t) (embeddingTokens : Z) (w w' : World)
    (r : Outcome RAGResponse) (t : list Event) :
  generateResponseWithFallback svc question chunks embeddingTokens w = (r, w', t) ->
  match r with
  | Resolved response =>
      signUrlCalls t = storagePaths chunks
      /\ exists cited, citations response = Some cited /\ Forall2 filed chunks cited
  | Rejected _ => signUrlCalls t = []
  end.
Proof. apply tryModels_files. Qed.

End ChainExtras.

(** ** The outcomes of askQuestion *)

Section AskExtras.
Context {World Embedding : Type} (svc : Services World Embedding).

(** X15.  [logAIUsage] always resolves, whether the insertion succeeds,
    reports an error or rejects.  It hands exactly one entry to the log, of
    operation type [rag_query], with the given documents (none when they
    are missing) and, as cost, the given cost when it is not zero and the
    estimate for the model and the total tokens otherwise. *)
Theorem logAIUsage_never_rejects (user : option string) (query name : string)
    (tokenCount : Z) (response : option string)
    (documents : option (list string)) (costUSD : option Q) (w : World) :
  exists entry,
    logAIUsage svc user query name tokenCount response documents costUSD w
    = (Resolved tt, (svc_insertUsageLog svc entry w).2, [EvUsageLog entry])
    /\ LogEntry.operation_type entry = "rag_query"
    /\ LogEntry.documents_used entry = default [] documents
    /\ LogEntry.estimated_cost entry
       = (if Num.truthy costUSD then Num.orZero costUSD
          else estimateCost name (LogEntry.total_tokens entry)).
Proof.
  unfold logAIUsage, try_catch. rewrite run_bind. cbv beta iota zeta.
  rewrite run_bind. unfold await, call, bind. cbv beta iota zeta.
  match goal with |- context [svc_insertUsageLog svc ?e w] => set (entry := e) end.
  exists entry.
  destruct (svc_insertUsageLog svc entry w) as [[err | e] w1];
    (split; [reflexivity|]); repeat split.
Qed.

(** X16.  When the retrieval stage throws for a valid question, [askQuestion]
    resolves to a failure whose message is the fixed prefix followed by the
    message of the error; no completion is requested and nothing is
    logged. *)
Theorem askQuestion_catches_retrieval_errors (question : string)
    (options : Options) (w w1 : World) (error : string) (t1 : list Event) :
  isValid (validateQuestion question) = true ->
  retrieveChunks svc question options w = (Rejected error, w1, t1) ->
  askQuestion svc question options w
  = (Resolved (failure (msgErrorPrefix +:+ error)), w1, t1)
  /\ completionCalls t1 = [] /\ usageLogs t1 = [].
Proof.
  intros Hvalid Hretrieve.
  pose proof (retrieveChunks_emits svc question options w) as Hemits.
  rewrite Hretrieve in Hemits. cbn [snd] in Hemits.
  apply retrieval_is_not_fallback in Hemits as (_ & Hlogs & Hcalls).
  split; [|now split].
  unfold askQuestion. rewrite run_bind. unfold try_catch, askQuestionBody.
  rewrite Hvalid. cbv beta iota delta [negb].
  rewrite (bind_rejected _ _ _ _ _ _ Hretrieve). cbv beta iota.
  rewrite !run_ret. cbv beta iota. now rewrite !app_nil_r.
Qed.

Lemma retrieveChunks_embedding_rejected (question : string) (options : Options)
    (w w1 : World) (error : string) :
  svc_generateEmbedding svc question w = (Rejected error, w1) ->
  retrieveChunks svc question options w
  = (Rejected error, w1, [EvEmbed question None]).
Proof.
  intros H. unfold retrieveChunks. rewrite run_bind, generateEmbedding_run, H.
  reflexivity.
Qed.

(** X17.  For a valid question without any scope, when the retrieval finds
    no chunk and there is no recent chunk either, [askQuestion] resolves to
    the failure that says no documents are available, after one lookup of
    the recent chunks and without any request for a completion. *)
Theorem askQuestion_without_any_chunk (question : string) (options : Options)
    (w w1 : World) (emb : EmbeddingResult Embedding) (t1 : list Event) :
  isValid (validateQuestion question) = true ->
  retrieveChunks svc question options w = (Resolved (emb, []), w1, t1) ->
  nonEmptySelection (selectedDocumentIds options) = false ->
  nonEmptySelection (selectedMasters options) = false ->
  default [] (svc_recentChunks svc w1).1 = [] ->
  askQuestion svc question options w
  = (Resolved (failure msgNoneAtAll), (svc_recentChunks svc w1).2,
     t1 ++ [EvRecentChunks])
  /\ completionCalls (t1 ++ [EvRecentChunks]) = [].
Proof.
  intros Hvalid Hretrieve Hdocs Hmasters Hrecent.
  pose proof (retrieveChunks_emits svc question options w) as Hemits.
  rewrite Hretrieve in Hemits. cbn [snd] in Hemits.
  apply retrieval_is_not_fallback in Hemits as (_ & _ & Hcalls).
  split.
  - unfold askQuestion. rewrite run_bind. unfold try_catch, askQuestionBody.
    rewrite Hvalid. cbv beta iota delta [negb].
    rewrite (bind_resolved _ _ _ _ _ _ Hretrieve). cbv beta iota.
    rewrite Hdocs, Hmasters. rewrite run_bind. unfold getFallbackChunks.
    rewrite run_bind. unfold call.
    destruct (svc_recentChunks svc w1) as [rows w2]. cbn [fst snd] in *.
    cbv beta iota. rewrite Hrecent. rewrite !run_ret. cbv beta iota.
    cbn [fmap list_fmap]. rewrite !run_ret. cbv beta iota.
    now rewrite !app_nil_r.
  - unfold completionCalls in *. now rewrite omap_app, Hcalls.
Qed.

End AskExtras.

Section OutcomeExtras.
Context {World Embedding : Type} (svc : Services World Embedding).

Lemma failure_message_of_validation (question : string) :
  isValid (validateQuestion question) = false ->
  exists msg, v_message (validateQuestion question) = Some msg /\ msg <> EmptyString.
Proof.
  unfold validateQuestion.
  repeat match goal with
         | |- context [if ?b then _ else _] => destruct b
         end; cbn; intros H; try discriminate H; eexists; (split; [reflexivity|]);
    discriminate.
Qed.

(** What the [try] block of [askQuestion] can come to. *)
Lemma askQuestionBody_cases (question : string) (options : Options)
    (w w1 : World) (returned : Returned) (t1 : list Event) :
  askQuestionBody svc question options w = (Resolved returned, w1, t1) ->
  match returned with
  | ReturnValue response =>
      (exists msg, response = failure msg /\ msg <> EmptyString)
      \/ (exists (emb : EmbeddingResult Embedding) c cs name,
            name ∈ modelPriority
            /\ generatedBy question (c :: cs) (tokenCount emb) name response)
  | ReturnPromise promise =>
      nonEmptySelection (selectedDocumentIds options) = false
      /\ nonEmptySelection (selectedMasters options) = false
      /\ exists (emb : EmbeddingResult Embedding) c cs tr,
           promise = generateResponseWithFallback svc question (c :: cs) (tokenCount emb)
           /\ t1 = tr ++ [EvRecentChunks]
           /\ forallb isRetrievalEvent tr = true
  end.
Proof.
  intros H. unfold askQuestionBody in H.
  destruct (isValid (validateQuestion question)) eqn:Hvalid;
    cbv beta iota delta [negb] in H.
  2:{ rewrite run_ret in H. injection H as <- _ _. left.
      destruct (failure_message_of_validation question Hvalid) as (msg & -> & Hmsg).
      now exists msg. }
  rewrite run_bind in H.
  pose proof (retrieveChunks_emits svc question options w) as Hemits.
  destruct (retrieveChunks svc question options w)
    as [[[[emb enhanced] | e] w2] t2]; cbv beta iota in H; [|discriminate H].
  cbn [snd] in Hemits.
  destruct enhanced as [|c cs].
  - destruct (nonEmptySelection (selectedDocumentIds options)).
    { rewrite run_ret in H. injection H as <- _ _. left.
      exists msgNoneInDocuments. now split. }
    destruct (nonEmptySelection (selectedMasters options)).
    { rewrite run_ret in H. injection H as <- _ _. left.
      exists msgNoneInCategory. now split. }
    rewrite run_bind in H. unfold getFallbackChunks in H.
    rewrite run_bind in H. unfold call in H.
    destruct (svc_recentChunks svc w2) as [rows w3]. cbv beta iota in H.
    rewrite run_ret in H. cbv beta iota in H.
    destruct (_ <$> default [] rows) as [|f fs]; rewrite run_ret in H;
      injection H as <- _ <-.
    + left. exists msgNoneAtAll. now split.
    + split; [reflexivity|]. split; [reflexivity|].
      exists emb, f, fs, t2. split; [reflexivity|]. split; [|exact Hemits].
      rewrite ?app_nil_r. reflexivity.
  - rewrite run_bind in H.
    destruct (generateResponseWithFallback svc question (c :: cs) (tokenCount emb) w2)
      as [[[generated | e] w3] t3] eqn:Hgenerate; cbv beta iota in H; [|discriminate H].
    unfold generateResponseWithFallback in Hgenerate.
    apply tryModels_shape in Hgenerate as [_ Hshape].
    destruct (Hshape generated eq_refl) as (name & Hname & Hgen).
    rewrite run_bind in H.
    destruct (logAIUsage svc _ _ _ _ _ _ _ w3) as [[[[] | e] w4] t4];
      cbv beta iota in H; [|discriminate H].
    rewrite run_ret in H. injection H as <- _ _.
    right. now exists emb, c, cs, name.
Qed.

(** What the promise of [askQuestion] can settle to. *)
Lemma askQuestion_outcomes (question : string) (options : Options)
    (w w' : World) (r : Outcome RAGResponse) (t : list Event) :
  askQuestion svc question options w = (r, w', t) ->
  match r with
  | Resolved response =>
      (exists msg, response = failure msg /\ msg <> EmptyString)
      \/ (exists (tokens : Z) c cs name,
            name ∈ modelPriority
            /\ generatedBy question (c :: cs) tokens name response)
  | Rejected error =>
      nonEmptySelection (selectedDocumentIds options) = false
      /\ nonEmptySelection (selectedMasters options) = false
      /\ EvRecentChunks ∈ t
      /\ completionCalls t = modelPriority
      /\ usageLogs t = []
      /\ exists lastError, error = msgAllFailedPrefix +:+ lastError
  end.
Proof.
  intros H. unfold askQuestion in H. rewrite run_bind in H. unfold try_catch in H.
  destruct (askQuestionBody svc question options w)
    as [[[[returned | promise] | e] w1] t1] eqn:Hbody; cbv beta iota in H.
  - rewrite !run_ret in H. injection H as <- _ _.
    apply askQuestionBody_cases in Hbody
      as [(msg & -> & Hmsg) | (emb & c & cs & name & Hname & Hgen)].
    + left. now exists msg.
    + right. now exists (tokenCount emb), c, cs, name.
  - apply askQuestionBody_cases in Hbody
      as (Hdocs & Hmasters & emb & c & cs & tr & -> & -> & Htr).
    destruct (generateResponseWithFallback svc question (c :: cs) (tokenCount emb) w1)
      as [[r2 w2] t2] eqn:Hgenerate.
    injection H as <- _ <-.
    unfold generateResponseWithFallback in Hgenerate.
    pose proof Hgenerate as Hshape.
    apply tryModels_calls in Hgenerate as (_ & _ & Hcalls).
    apply tryModels_shape in Hshape as [Hgen Hshape].
    destruct r2 as [response | error].
    + destruct (Hshape response eq_refl) as (name & Hname & Hgenerated).
      right. now exists (tokenCount emb), c, cs, name.
    + destruct Hcalls as (Hcalls & _ & lastError & ->).
      apply generation_logs_nothing in Hgen as [Hlogs2 _].
      apply retrieval_is_not_fallback in Htr as (_ & Hlogs1 & Hcalls1).
      split; [exact Hdocs|]. split; [exact Hmasters|].
      split; [set_solver|].
      split; [unfold completionCalls in *; rewrite !omap_app, Hcalls1, Hcalls; reflexivity|].
      split; [rewrite !usageLogs_app, Hlogs1, Hlogs2; reflexivity|].
      now exists lastError.
  - rewrite ?run_ret in H. cbv beta iota in H. rewrite ?run_ret in H.
    injection H as <- _ _. left. eexists. split; [reflexivity|]. discriminate.
Qed.

(** X18.  A result of [askQuestion] is either a failure, whose message is
    not empty and which carries nothing else, or a success generated by a
    model of the priority list over at least one chunk. *)
Theorem askQuestion_result_is_tagged (question : string) (options : Options)
    (w w' : World) (response : RAGResponse) (t : list Event) :
  askQuestion svc question options w = (Resolved response, w', t) ->
  (success response = false
   /\ exists msg, response = failure msg /\ msg <> EmptyString)
  \/ (success response = true
      /\ exists (tokens : Z) c cs name,
           name ∈ modelPriority
           /\ generatedBy question (c :: cs) tokens name response).
Proof.
  intros H. apply askQuestion_outcomes in H as [(msg & -> & Hmsg) | Hgenerated].
  - left. split; [reflexivity|]. now exists msg.
  - right. split; [|exact Hgenerated].
    destruct Hgenerated as (tokens & c & cs & name & _ & Hgen). apply Hgen.
Qed.

(** X19.  The promise of [askQuestion] can only reject on the path of the
    recent-chunks fallback: no documents and no categories were selected,
    the recent chunks were looked up, every model of the priority list was
    requested, nothing was logged, and the error is that of the exhausted
    chain. *)
Theorem askQuestion_rejects_only_after_fallback (question : string)
    (options : Options) (w w' : World) (error : string) (t : list Event) :
  askQuestion svc question options w = (Rejected error, w', t) ->
  nonEmptySelection (selectedDocumentIds options) = false
  /\ nonEmptySelection (selectedMasters options) = false
  /\ EvRecentChunks ∈ t
  /\ completionCalls t = modelPriority
  /\ usageLogs t = []
  /\ exists lastError, error = msgAllFailedPrefix +:+ lastError.
Proof. apply askQuestion_outcomes. Qed.

End OutcomeExtras.

Section CostExtras.
Context {World Embedding : Type} (svc : Services World Embedding).

Lemma tryModels_costed (question : string) (chunks : list Chunk.t)
    (embeddingTokens : Z) (models : list string) (lastError : option string)
    (w w' : World) (response : RAGResponse) (t : list Event) :
  tryModels svc question chunks embeddingTokens models lastError w
  = (Resolved response, w', t) ->
  exists name, name ∈ models /\ costedBy embeddingTokens name response.
Proof.
  revert lastError w w' t.
  induction models as [|m ms IH]; intros lastError w w' t Hrun.
  - discriminate Hrun.
  - cbn [tryModels] in Hrun. rewrite run_bind in Hrun. unfold try_catch in Hrun.
    rewrite run_bind in Hrun. unfold attemptModel in Hrun. rewrite run_bind in Hrun.
    unfold call in Hrun.
    destruct (svc_fetchCompletion svc m _ _ w) as [reply w1].
    cbv beta iota in Hrun.
    destruct reply as [error | status errorText | error | content usage].
    1-3: unfold throw, emit in Hrun; cbv beta iota in Hrun;
         rewrite run_bind in Hrun; cbv beta iota in Hrun;
         rewrite run_ret in Hrun; cbv beta iota in Hrun;
         match type of Hrun with
         | context [tryModels ?a ?b ?c ?d ?e ?f ?g] =>
             destruct (tryModels a b c d e f g) as [[r1 w2] t2] eqn:Htail
         end;
         injection Hrun as -> _ _;
         destruct (IH _ _ _ _ Htail) as (name & Hin & Hcost);
         exists name; split; [now apply list_elem_of_further | exact Hcost].
    destruct (buildCitations_resolves svc chunks 0 w1) as (cited & w2 & t2 & Hc & _).
    rewrite (bind_resolved _ _ _ _ _ _ Hc) in Hrun.
    rewrite ?run_ret in Hrun. cbv beta iota in Hrun. rewrite ?run_ret in Hrun.
    cbv beta iota in Hrun. injection Hrun as <- _ _.
    exists m. split; [apply list_elem_of_here|].
    eexists. cbn. repeat split; reflexivity.
Qed.

Lemma logAIUsage_costed (user : option string) (query name : string)
    (tokenCount : Z) (response : option string)
    (documents : option (list string)) (w : World) :
  exists entry w',
    logAIUsage svc user query name tokenCount response documents None w
    = (Resolved tt, w', [EvUsageLog entry])
    /\ LogEntry.model entry = name
    /\ LogEntry.completion_tokens entry
       = Z.of_nat (Num.ceilDiv (String.length (default EmptyString response)) 4)
    /\ LogEntry.total_tokens entry
       = (tokenCount + LogEntry.completion_tokens entry)%Z
    /\ LogEntry.estimated_cost entry
       = estimateCost name (tokenCount + LogEntry.completion_tokens entry).
Proof.
  unfold logAIUsage, try_catch. rewrite run_bind. cbv beta iota zeta.
  rewrite run_bind. unfold await, call, bind. cbv beta iota zeta.
  match goal with |- context [svc_insertUsageLog svc ?e w] => set (entry := e) end.
  assert (Hcompletion : LogEntry.completion_tokens entry
            = Z.of_nat (Num.ceilDiv (String.length (default EmptyString response)) 4)).
  { subst entry. cbn [LogEntry.completion_tokens].
    destruct response as [[|c r]|]; reflexivity. }
  destruct (svc_insertUsageLog svc entry w) as [[err | e] w1];
    exists entry, w1; (split; [reflexivity|]); (split; [reflexivity|]);
    (split; [exact Hcompletion|]); split; reflexivity.
Qed.

Lemma modelPriority_truthy (name : string) :
  name ∈ modelPriority -> orNull (Some name) = Some name.
Proof.
  unfold modelPriority. intros H.
  repeat (apply elem_of_cons in H as [-> | H]; [reflexivity|]).
  inversion H.
Qed.

(** X20.  For a successful query answered from the retrieved chunks, the
    cost in the response is the estimate for the grand total of tokens
    (embedding plus completion) at the rate of the answering model, while the
    usage log is handed, for the same model, the estimate for another count:
    that grand total plus the tokens estimated from the length of the answer
    (one for every four code units, rounded up), which is also the total that
    the record holds. *)
Theorem logged_cost_adds_answer_estimate (question : string) (options : Options)
    (w w' : World) (response : RAGResponse) (t : list Event) :
  askQuestion svc question options w = (Resolved response, w', t) ->
  success response = true ->
  EvRecentChunks ∉ t ->
  exists entry name usage,
    usageLogs t = [entry]
    /\ name ∈ modelPriority
    /\ model <$> metadata response = Some name
    /\ tokenUsage response = Some usage
    /\ estimatedCost response = Some (estimateCost name (tu_grandTotal usage))
    /\ LogEntry.model entry = name
    /\ LogEntry.completion_tokens entry
       = Z.of_nat (Num.ceilDiv (String.length (default EmptyString (answer response))) 4)
    /\ LogEntry.total_tokens entry
       = (tu_grandTotal usage + LogEntry.completion_tokens entry)%Z
    /\ LogEntry.estimated_cost entry
       = estimateCost name (tu_grandTotal usage + LogEntry.completion_tokens entry).
Proof.
  intros H Hsuccess Hno. unfold askQuestion in H. rewrite run_bind in H.
  unfold try_catch in H.
  destruct (askQuestionBody svc question options w)
    as [[[[returned | promise] | e] w1] t1] eqn:Hbody; cbv beta iota in H.
  - rewrite !run_ret in H. injection H as <- _ <-. rewrite app_nil_r.
    unfold askQuestionBody in Hbody.
    destruct (isValid (validateQuestion question)); cbv beta iota delta [negb] in Hbody.
    2:{ rewrite run_ret in Hbody. injection Hbody as <- _ _. discriminate Hsuccess. }
    rewrite run_bind in Hbody.
    pose proof (retrieveChunks_emits svc question options w) as Hemits.
    destruct (retrieveChunks svc question options w)
      as [[[[emb enhanced] | e] w2] t2]; cbv beta iota in Hbody; [|discriminate Hbody].
    cbn [snd] in Hemits.
    destruct enhanced as [|c cs].
    + destruct (nonEmptySelection (selectedDocumentIds options)).
      { rewrite run_ret in Hbody. injection Hbody as <- _ _. discriminate Hsuccess. }
      destruct (nonEmptySelection (selectedMasters options)).
      { rewrite run_ret in Hbody. injection Hbody as <- _ _. discriminate Hsuccess. }
      rewrite run_bind in Hbody.
      destruct (getFallbackChunks svc w2) as [[[[|f fs] | e] w3] t3];
        cbv beta iota in Hbody; [| |discriminate Hbody]; rewrite run_ret in Hbody.
      * injection Hbody as <- _ _. discriminate Hsuccess.
      * discriminate Hbody.
    + rewrite run_bind in Hbody.
      destruct (generateResponseWithFallback svc question (c :: cs) (tokenCount emb) w2)
        as [[[generated | e] w3] t3] eqn:Hgenerate; cbv beta iota in Hbody;
        [|discriminate Hbody].
      unfold generateResponseWithFallback in Hgenerate.
      pose proof (tryModels_shape svc _ _ _ _ _ _ _ _ _ Hgenerate) as [Ht3 _].
      apply tryModels_costed in Hgenerate
        as (name & Hname & usage & Husage & Hmodel & Htotal & Hgrand & Hcost).
      rewrite run_bind in Hbody.
      match type of Hbody with
      | context [logAIUsage svc ?u ?q ?m ?n ?r ?d None w3] =>
          destruct (logAIUsage_costed u q m n r d w3)
            as (entry & w4 & Hlog & Hentry & Hcompletion & Hrecord & Hlogged);
          rewrite Hlog in Hbody
      end.
      cbv beta iota in Hbody. rewrite run_ret in Hbody. injection Hbody as <- _ <-.
      apply retrieval_is_not_fallback in Hemits as (_ & Hlogs2 & _).
      apply generation_logs_nothing in Ht3 as [Hlogs3 _].
      rewrite Hmodel, (modelPriority_truthy name Hname) in Hentry, Hlogged.
      rewrite Htotal in Hlogged, Hrecord.
      cbn [default Num.orZeroZ] in Hentry, Hlogged, Hrecord.
      cbv [id] in Hentry, Hlogged, Hrecord.
      rewrite <- Hgrand in Hlogged, Hrecord.
      exists entry, name, usage.
      split; [rewrite !usageLogs_app, Hlogs2, Hlogs3; reflexivity|].
      do 5 (split; [assumption|]). split; [exact Hcompletion|].
      split; [exact Hrecord | exact Hlogged].
  - apply askQuestionBody_promise in Hbody.
    destruct (promise w1) as [[r w2] t2]. injection H as _ _ <-.
    exfalso. apply Hno. set_solver.
  - rewrite ?run_ret in H. cbv beta iota in H. rewrite ?run_ret in H.
    injection H as <- _ _. discriminate Hsuccess.
Qed.

End CostExtras.

(** ** The chat page *)

Section PageExtras.
Context {World Embedding : Type} (svc : Services World Embedding).

(** X21.  [handleSendMessage] never rejects.  It does nothing for a blank
    text or while a request is pending.  Otherwise it asks the trimmed text
    without any scope and either shows an assistant message, whose content is
    the answer of a success and the message, never empty, of a failure, or,
    when [askQuestion] rejects, shows a toast; that happens only after the
    recent chunks were looked up and every model was requested. *)
Theorem handleSendMessage_settles (text : string) (isLoading : bool)
    (currentUserId : option string) (w : World) :
  exists sent w' t,
    handleSendMessage svc text isLoading currentUserId w = (Resolved sent, w', t)
    /\ match sent with
       | NotSent => (JS.trim text = EmptyString \/ isLoading = true) /\ w' = w /\ t = []
       | Answered questionText assistantMessage =>
           questionText = JS.trim text
           /\ exists response,
                askQuestion svc questionText (pageOptions currentUserId) w
                = (Resolved response, w', t)
                /\ if success response
                   then answer response = Some (ChatMessage.content assistantMessage)
                   else message response = Some (ChatMessage.content assistantMessage)
                        /\ ChatMessage.content assistantMessage <> EmptyString
       | Toasted questionText toast =>
           questionText = JS.trim text
           /\ exists error,
                askQuestion svc questionText (pageOptions currentUserId) w
                = (Rejected error, w', t)
                /\ EvRecentChunks ∈ t
                /\ completionCalls t = modelPriority
       end.
Proof.
  unfold handleSendMessage.
  destruct (JS.truthyString (JS.trim text)) eqn:Htext; cbn [negb orb].
  2:{ exists NotSent, w, []. split; [reflexivity|]. split; [|now split].
      left. unfold JS.truthyString in Htext. apply negb_false_iff in Htext.
      now apply String.eqb_eq in Htext. }
  destruct isLoading.
  { exists NotSent, w, []. split; [reflexivity|]. split; [now right | now split]. }
  unfold try_catch. rewrite run_bind.
  destruct (askQuestion svc (JS.trim text) (pageOptions currentUserId) w)
    as [[[response | error] w1] t1] eqn:Hask; cbv beta iota.
  - rewrite run_ret. cbv beta iota. eexists _, _, _. split; [reflexivity|].
    split; [reflexivity|]. exists response. rewrite app_nil_r. split; [exact Hask|].
    cbn [ChatMessage.content]. unfold messageContent.
    apply askQuestion_outcomes in Hask
      as [(msg & -> & Hmsg) | (tokens & c & cs & name & _ & Hgen)].
    + cbn [success failure message orNull].
      unfold JS.truthyString. apply String.eqb_neq in Hmsg. rewrite Hmsg.
      cbn [negb default]. split; [reflexivity|]. now apply String.eqb_neq.
    + destruct Hgen as (-> & _ & (raw & _ & -> & _) & _).
      cbn [orNull]. generalize (p_answer (parseModelResponse raw)). intros a.
      unfold JS.truthyString. destruct (String.eqb_spec a EmptyString) as [-> | _];
        reflexivity.
  - rewrite run_ret. cbv beta iota. eexists _, _, _. split; [reflexivity|].
    split; [reflexivity|]. exists error. rewrite app_nil_r. split; [exact Hask|].
    apply askQuestion_outcomes in Hask as (_ & _ & Hrecent & Hcalls & _).
    now split.
Qed.

End PageExtras.

(** ** The search links *)

Lemma allChars_append (p : ascii -> bool) (a b : string) :
  allChars p (a +:+ b) = allChars p a && allChars p b.
Proof.
  induction a as [|c a IH]; [reflexivity|].
  rewrite append_cons. cbn [allChars]. now rewrite IH, andb_assoc.
Qed.

Lemma allChars_impl (p q : ascii -> bool) (s : string) :
  (forall c, p c = true -> q c = true) -> allChars p s = true -> allChars q s = true.
Proof.
  intros Hpq. induction s as [|c s IH]; [reflexivity|]. cbn [allChars].
  intros [Hc Hs]%andb_prop. now rewrite (Hpq c Hc), IH.
Qed.

Lemma encodeUnit_escaped (c : ascii) :
  allChars (fun x => isUriUnreserved x || Ascii.eqb x "%") (encodeUnit c) = true.
Proof. destruct c as [[] [] [] [] [] [] [] []]; vm_compute; reflexivity. Qed.

Lemma encodeURIComponent_escaped (s : string) :
  allChars (fun x => isUriUnreserved x || Ascii.eqb x "%") (encodeURIComponent s) = true.
Proof.
  induction s as [|c s IH]; [reflexivity|]. cbn [encodeURIComponent].
  now rewrite allChars_append, encodeUnit_escaped, IH.
Qed.

Lemma decodeEscapes_unit (c : ascii) (rest : string) :
  decodeEscapes (encodeUnit c +:+ rest) = String c (decodeEscapes rest).
Proof. destruct c as [[] [] [] [] [] [] [] []]; reflexivity. Qed.

Lemma decodeEscapes_encodeURIComponent (s : string) :
  decodeEscapes (encodeURIComponent s) = s.
Proof.
  induction s as [|c s IH]; [reflexivity|]. cbn [encodeURIComponent].
  now rewrite decodeEscapes_unit, IH.
Qed.

(** X22.  An encoded search query consists of unreserved characters and
    percent signs only, and two queries have the same encoding exactly when
    they are equal once trimmed. *)
Theorem encodeSearchQuery_escapes (query other : string) :
  allChars (fun c => isUriUnreserved c || Ascii.eqb c "%") (encodeSearchQuery query) = true
  /\ (encodeSearchQuery query = encodeSearchQuery other <->
      JS.trim query = JS.trim other).
Proof.
  split; [apply encodeURIComponent_escaped|]. unfold encodeSearchQuery. split.
  - intros H. apply (f_equal decodeEscapes) in H.
    now rewrite !decodeEscapes_encodeURIComponent in H.
  - now intros ->.
Qed.

Lemma allChars_trimStart (p : ascii -> bool) (s : string) :
  allChars p s = true -> allChars p (JS.trimStart s) = true.
Proof.
  induction s as [|c s IH]; [reflexivity|]. cbn [JS.trimStart].
  destruct (JS.isWhiteSpace c); [|trivial].
  cbn [allChars]. intros [_ Hs]%andb_prop. exact (IH Hs).
Qed.

Lemma allChars_trimEnd (p : ascii -> bool) (s : string) :
  allChars p s = true -> allChars p (JS.trimEnd s) = true.
Proof.
  induction s as [|c s IH]; [reflexivity|]. rewrite trimEnd_cons.
  cbn [allChars]. intros [Hc Hs]%andb_prop. specialize (IH Hs).
  destruct (JS.trimEnd s) as [|d r'].
  - destruct (JS.isWhiteSpace c); [reflexivity|]. cbn [allChars]. now rewrite Hc.
  - cbn [allChars] in *. now rewrite Hc, IH.
Qed.

Lemma allChars_removeParentheses (s : string) :
  allChars (fun c => negb (isParenthesis c)) (removeParentheses s) = true.
Proof.
  induction s as [|c s IH]; [reflexivity|]. cbn [removeParentheses].
  destruct (isParenthesis c) eqn:Hc; [exact IH|].
  cbn [allChars]. now rewrite Hc, IH.
Qed.

Lemma allChars_normalizeSpaces (p : ascii -> bool) (inRun : bool) (s : string) :
  p " "%char = true -> allChars p s = true ->
  allChars p (normalizeSpaces inRun s) = true.
Proof.
  intros Hsp. revert inRun. induction s as [|c s IH]; intros inRun; [reflexivity|].
  cbn [allChars normalizeSpaces]. intros [Hc Hs]%andb_prop.
  destruct (JS.isWhiteSpace c), inRun; cbn [allChars];
    rewrite ?Hsp, ?Hc, ?IH; trivial.
Qed.

Lemma normalizeSpaces_head (s : string) :
  match normalizeSpaces true s with
  | String d _ => JS.isWhiteSpace d = false
  | EmptyString => True
  end.
Proof.
  induction s as [|c s IH]; [exact I|]. cbn [normalizeSpaces].
  destruct (JS.isWhiteSpace c) eqn:Hc; [exact IH | exact Hc].
Qed.

Lemma looselySpaced_normalizeSpaces (inRun : bool) (s : string) :
  looselySpaced (normalizeSpaces inRun s) = true.
Proof.
  revert inRun. induction s as [|c s IH]; intros inRun; [reflexivity|].
  cbn [normalizeSpaces]. destruct (JS.isWhiteSpace c) eqn:Hc.
  - destruct inRun; [apply IH|]. cbn [looselySpaced].
    change (JS.isWhiteSpace " ") with true. cbv iota. rewrite IH, andb_true_r.
    pose proof (normalizeSpaces_head s) as Hhead.
    destruct (normalizeSpaces true s); [reflexivity|]. now rewrite Hhead.
  - cbn [looselySpaced]. now rewrite Hc, IH.
Qed.

Lemma looselySpaced_trimStart (s : string) :
  looselySpaced s = true -> looselySpaced (JS.trimStart s) = true.
Proof.
  induction s as [|c s IH]; [reflexivity|]. cbn [JS.trimStart].
  destruct (JS.isWhiteSpace c) eqn:Hc; [|trivial].
  cbn [looselySpaced]. intros [_ Hs]%andb_prop. exact (IH Hs).
Qed.

Lemma trimEnd_first (c : ascii) (r : string) :
  match JS.trimEnd (String c r) with
  | String d _ => d = c
  | EmptyString => True
  end.
Proof.
  rewrite trimEnd_cons. destruct (JS.trimEnd r); [destruct (JS.isWhiteSpace c)|]; easy.
Qed.

Lemma singleSpaced_trimEnd (s : string) :
  looselySpaced s = true -> singleSpaced (JS.trimEnd s) = true.
Proof.
  induction s as [|c s IH]; [reflexivity|]. cbn [looselySpaced].
  intros [Hc Hs]%andb_prop. specialize (IH Hs). rewrite trimEnd_cons.
  destruct (JS.trimEnd s) as [|d r'] eqn:Hend.
  - destruct (JS.isWhiteSpace c) eqn:Hws; [reflexivity|].
    cbn [singleSpaced]. now rewrite Hws.
  - cbn [singleSpaced] in *. rewrite IH, andb_true_r.
    destruct (JS.isWhiteSpace c); [|reflexivity].
    destruct s as [|d0 s0]; [discriminate Hend|].
    pose proof (trimEnd_first d0 s0) as Hfirst. rewrite Hend in Hfirst. now subst d0.
Qed.

Lemma normalizeSpaces_singleSpaced (s : string) :
  singleSpaced s = true -> normalizeSpaces false s = s.
Proof.
  induction s as [|c s IH]; [reflexivity|]. cbn [singleSpaced normalizeSpaces].
  intros [Hc Hs]%andb_prop. specialize (IH Hs).
  destruct (JS.isWhiteSpace c) eqn:Hws; [|now rewrite IH].
  apply andb_prop in Hc as [->%Ascii.eqb_eq Hd].
  destruct s as [|d s]; [discriminate Hd|].
  f_equal. cbn [normalizeSpaces] in *. apply negb_true_iff in Hd.
  now rewrite Hd in *.
Qed.

Lemma removeParentheses_none (s : string) :
  allChars (fun c => negb (isParenthesis c)) s = true -> removeParentheses s = s.
Proof.
  induction s as [|c s IH]; [reflexivity|]. cbn [allChars removeParentheses].
  intros [Hc Hs]%andb_prop. apply negb_true_iff in Hc. now rewrite Hc, IH.
Qed.

Lemma keepChars_trimStart (p : ascii -> bool) (s : string) :
  (forall c, JS.isWhiteSpace c = true -> p c = false) ->
  keepChars p (JS.trimStart s) = keepChars p s.
Proof.
  intros Hp. induction s as [|c s IH]; [reflexivity|]. cbn [JS.trimStart].
  destruct (JS.isWhiteSpace c) eqn:Hc; [|reflexivity].
  cbn [keepChars]. now rewrite (Hp c Hc).
Qed.

Lemma keepChars_trimEnd (p : ascii -> bool) (s : string) :
  (forall c, JS.isWhiteSpace c = true -> p c = false) ->
  keepChars p (JS.trimEnd s) = keepChars p s.
Proof.
  intros Hp. induction s as [|c s IH]; [reflexivity|]. rewrite trimEnd_cons.
  cbn [keepChars]. destruct (JS.trimEnd s) as [|d r'].
  - rewrite <- IH. destruct (JS.isWhiteSpace c) eqn:Hc.
    + now rewrite (Hp c Hc).
    + reflexivity.
  - cbn [keepChars] in *. now rewrite IH.
Qed.

Lemma keepChars_normalizeSpaces (p : ascii -> bool) (inRun : bool) (s : string) :
  (forall c, JS.isWhiteSpace c = true -> p c = false) ->
  keepChars p (normalizeSpaces inRun s) = keepChars p s.
Proof.
  intros Hp. revert inRun. induction s as [|c s IH]; intros inRun; [reflexivity|].
  cbn [normalizeSpaces keepChars].
  destruct (JS.isWhiteSpace c) eqn:Hc.
  - rewrite (Hp c Hc). destruct inRun; [apply IH|].
    cbn [keepChars]. rewrite (Hp " "%char eq_refl). apply IH.
  - cbn [keepChars]. now rewrite IH.
Qed.

Lemma keepChars_removeParentheses (s : string) :
  keepChars isInk (removeParentheses s) = keepChars isInk s.
Proof.
  induction s as [|c s IH]; [reflexivity|]. cbn [removeParentheses keepChars].
  unfold isInk at 2. destruct (isParenthesis c) eqn:Hc.
  - now rewrite andb_false_r.
  - cbn [keepChars]. unfold isInk at 1. now rewrite Hc, IH.
Qed.

Lemma isInk_whiteSpace (c : ascii) : JS.isWhiteSpace c = true -> isInk c = false.
Proof. intros H. unfold isInk. now rewrite H. Qed.

(** X23.  A cleaned citation holds no parenthesis, no white space but single
    spaces between other characters, and no white space at either end; its
    characters other than white space and parentheses are those of the
    citation, in order; cleaning it again changes nothing. *)
Theorem cleanCitationForSearch_normalizes (citation : string) :
  let cleaned := cleanCitationForSearch citation in
  allChars (fun c => negb (isParenthesis c)) cleaned = true
  /\ singleSpaced cleaned = true
  /\ JS.trim cleaned = cleaned
  /\ keepChars isInk cleaned = keepChars isInk citation
  /\ cleanCitationForSearch cleaned = cleaned.
Proof.
  intros cleaned.
  assert (Hparen : allChars (fun c => negb (isParenthesis c)) cleaned = true).
  { apply allChars_trimEnd, allChars_trimStart, allChars_normalizeSpaces;
      [reflexivity | apply allChars_removeParentheses]. }
  assert (Hspaced : singleSpaced cleaned = true).
  { apply singleSpaced_trimEnd, looselySpaced_trimStart,
      looselySpaced_normalizeSpaces. }
  assert (Htrim : JS.trim cleaned = cleaned) by apply trim_idem.
  repeat split; try assumption.
  - subst cleaned. unfold cleanCitationForSearch, JS.trim.
    rewrite keepChars_trimEnd, keepChars_trimStart, keepChars_normalizeSpaces
      by apply isInk_whiteSpace.
    apply keepChars_removeParentheses.
  - unfold cleanCitationForSearch at 1.
    now rewrite (removeParentheses_none _ Hparen),
      (normalizeSpaces_singleSpaced _ Hspaced).
Qed.

Lemma startsWith_shorter (p q s : string) :
  JS.startsWith (p +:+ q) s = true -> JS.startsWith p s = true.
Proof.
  revert s. induction p as [|x p IH]; intros s H; [reflexivity|].
  rewrite append_cons in H. destruct s as [|y s]; [discriminate H|].
  cbn [JS.startsWith] in *. apply andb_prop in H as [-> H]. exact (IH s H).
Qed.

Lemma includes_shorter (p q s : string) :
  JS.includes (p +:+ q) s = true -> JS.includes p s = true.
Proof.
  induction s as [|c s IH]; cbn [JS.includes].
  - apply startsWith_shorter.
  - intros [H | H]%orb_prop.
    + now rewrite (startsWith_shorter _ _ _ H).
    + rewrite (IH H). apply orb_true_r.
Qed.

Lemma isUrlChar_escaped (c : ascii) :
  isUriUnreserved c || Ascii.eqb c "%" = true -> isUrlChar c = true.
Proof.
  unfold isUrlChar. intros [-> | ->%Ascii.eqb_eq]%orb_prop; [reflexivity|].
  reflexivity.
Qed.

Lemma encodeSearchQuery_urlChars (query : string) :
  allChars isUrlChar (encodeSearchQuery query) = true.
Proof.
  apply (allChars_impl _ _ _ isUrlChar_escaped), encodeURIComponent_escaped.
Qed.

(** X24.  The links of a citation are 5 or 6, with distinct names.  The link
    to the Supreme Court is among them exactly when the citation holds [sc]
    in any letter case (the second test, for [scc], never decides).  Every
    url begins with [https://] and is made of url characters only, whatever
    the citation and the case name hold. *)
Theorem generateLegalDatabaseLinks_shape (citation : string)
    (caseName : option string) :
  let links := generateLegalDatabaseLinks citation caseName in
  5 <= length links <= 6
  /\ NoDup (LegalDatabaseLink.name <$> links)
  /\ ("Supreme Court of India" ∈ LegalDatabaseLink.name <$> links <->
      JS.includes "sc" (JS.toLowerCase citation) = true)
  /\ Forall (fun link =>
               JS.startsWith "https://" (LegalDatabaseLink.url link) = true
               /\ allChars isUrlChar (LegalDatabaseLink.url link) = true)
       links.
Proof.
  intros links. subst links. unfold generateLegalDatabaseLinks.
  set (encodedQuery := encodeSearchQuery _).
  set (encodedCitation := encodeSearchQuery _).
  assert (Hq : allChars isUrlChar encodedQuery = true)
    by apply encodeSearchQuery_urlChars.
  assert (Hc : allChars isUrlChar encodedCitation = true)
    by apply encodeSearchQuery_urlChars.
  assert (Hscc : JS.includes "sc" (JS.toLowerCase citation)
                 || JS.includes "scc" (JS.toLowerCase citation)
                 = JS.includes "sc" (JS.toLowerCase citation)).
  { destruct (JS.includes "scc" _) eqn:Hscc; [|apply orb_false_r].
    apply (includes_shorter "sc" "c") in Hscc. now rewrite Hscc. }
  rewrite Hscc. clear Hscc.
  destruct (JS.includes "sc" (JS.toLowerCase citation));
    cbn [app fmap list_fmap length LegalDatabaseLink.name];
    (split; [lia|]);
    (split; [apply (bool_decide_unpack _); vm_compute; reflexivity|]);
    (split; [split; [try reflexivity; intros H; exfalso; revert H;
                     apply (bool_decide_unpack _); vm_compute; reflexivity
                    | try discriminate; intros _;
                      apply (bool_decide_unpack _); vm_compute; reflexivity]|]);
    repeat (apply Forall_cons; split;
            [cbn [LegalDatabaseLink.url]; split;
             [apply startsWith_append || reflexivity
             | rewrite ?allChars_append, ?Hq, ?Hc; reflexivity]|]);
    apply Forall_nil_2.
Qed.

Lemma findOrFirst_elem (p : LegalDatabaseLink.t -> bool)
    (links : list LegalDatabaseLink.t) :
  links <> [] -> exists link, findOrFirst p links = Some link /\ link ∈ links.
Proof.
  intros Hne. unfold findOrFirst. destruct (List.find p links) as [link|] eqn:Hfind.
  - exists link. split; [reflexivity|].
    apply List.find_some in Hfind as [Hin _]. now apply list_elem_of_In.
  - destruct links as [|link links]; [contradiction|].
    exists link. split; [reflexivity | apply list_elem_of_here].
Qed.

(** X25.  [openCitationInDatabase] always opens one of the generated links.
    The first link is the free Indian Kanoon search; it is the best free
    link, the link opened without a preference, and the link opened for a
    preference that the lower-cased name [indian kanoon] contains. *)
Theorem openCitationInDatabase_opens_a_link (citation : string)
    (caseName preferredDatabase : option string) :
  let links := generateLegalDatabaseLinks citation caseName in
  (exists link,
     openCitationInDatabase citation caseName preferredDatabase = Some link
     /\ link ∈ links)
  /\ exists kanoon,
       head links = Some kanoon
       /\ LegalDatabaseLink.name kanoon = "Indian Kanoon"
       /\ LegalDatabaseLink.isFree kanoon = true
       /\ getBestFreeLink citation caseName = Some kanoon
       /\ openCitationInDatabase citation caseName None = Some kanoon
       /\ (forall preferred,
             JS.includes (JS.toLowerCase preferred) "indian kanoon" = true ->
             openCitationInDatabase citation caseName (Some preferred) = Some kanoon).
Proof.
  intros links. split.
  - unfold openCitationInDatabase. fold links.
    assert (Hne : links <> []) by (subst links; discriminate).
    destruct (orNull preferredDatabase); [now apply findOrFirst_elem|].
    destruct links as [|link rest]; [contradiction|].
    exists link. split; [reflexivity | apply list_elem_of_here].
  - subst links. unfold getBestFreeLink, openCitationInDatabase.
    unfold generateLegalDatabaseLinks. cbn [app head].
    eexists. split; [reflexivity|]. do 4 (split; [reflexivity|]).
    intros preferred Hpref. cbn [orNull].
    destruct (JS.truthyString preferred); [|reflexivity].
    unfold findOrFirst. cbn [List.find LegalDatabaseLink.name].
    change (JS.toLowerCase "Indian Kanoon") with "indian kanoon".
    now rewrite Hpref.
Qed.

(** ** The format check of citations *)

Lemma append_is_empty (a b : string) :
  a +:+ b = EmptyString -> a = EmptyString /\ b = EmptyString.
Proof. destruct a; [rewrite append_nil; now intros -> | discriminate]. Qed.

Lemma nullable_Matches (r : Regex) :
  nullable r = true <-> Matches r EmptyString.
Proof.
  split.
  - induction r as [| |p|a IHa b IHb|a IHa b IHb|a IHa]; cbn [nullable]; intros H;
      try discriminate H.
    + constructor.
    + apply andb_prop in H as [Ha Hb].
      exact (MatchesConcat a b EmptyString EmptyString (IHa Ha) (IHb Hb)).
    + apply orb_prop in H as [H | H]; [apply MatchesChoiceL | apply MatchesChoiceR]; auto.
    + constructor.
  - intros H. remember EmptyString as s eqn:Hs.
    induction H as [|p c Hc|a b s1 s2 _ IHa _ IHb|a b s _ IH|a b s _ IH| |a s1 s2 _ _ _ _];
      cbn [nullable]; try reflexivity; try discriminate Hs.
    + apply append_is_empty in Hs as [-> ->].
      now rewrite IHa, IHb.
    + now rewrite IH.
    + rewrite IH by assumption. apply orb_true_r.
Qed.

Lemma Matches_Repeat_cons (a : Regex) (c : ascii) (s : string) :
  Matches (Repeat a) (String c s) ->
  exists s1 s2, s = s1 +:+ s2 /\ Matches a (String c s1) /\ Matches (Repeat a) s2.
Proof.
  intros H. remember (Repeat a) as r eqn:Hr. remember (String c s) as cs eqn:Hcs.
  induction H as [| | | | | |a' s1 s2 H1 _ H2 IH2]; try discriminate Hr; try discriminate Hcs.
  injection Hr as ->. destruct s1 as [|d s1].
  - rewrite append_nil in Hcs. exact (IH2 eq_refl Hcs).
  - rewrite append_cons in Hcs. injection Hcs as -> <-. now exists s1, s2.
Qed.

Lemma Matches_Concat_inv (a b : Regex) (s : string) :
  Matches (Concat a b) s ->
  exists s1 s2, s = s1 +:+ s2 /\ Matches a s1 /\ Matches b s2.
Proof. intros H. inversion H; subst. eauto. Qed.

Lemma Matches_Choice_inv (a b : Regex) (s : string) :
  Matches (Choice a b) s -> Matches a s \/ Matches b s.
Proof. intros H. inversion H; subst; auto. Qed.

Lemma Matches_Char_inv (p : ascii -> bool) (s : string) :
  Matches (Char p) s -> exists c, s = String c EmptyString /\ p c = true.
Proof. intros H. inversion H; subst. eauto. Qed.

Lemma derivative_Matches (r : Regex) (c : ascii) (s : string) :
  Matches (derivative c r) s <-> Matches r (String c s).
Proof.
  revert s. induction r as [| |p|a IHa b IHb|a IHa b IHb|a IHa]; intros s;
    cbn [derivative].
  - split; intros H; inversion H.
  - split; intros H; inversion H.
  - split.
    + destruct (p c) eqn:Hp; intros H; inversion H; subst. now constructor.
    + intros (d & [= -> ->] & Hd)%Matches_Char_inv. rewrite Hd. constructor.
  - split.
    + intros H.
      assert (Hcases : Matches (Concat (derivative c a) b) s
                       \/ (nullable a = true /\ Matches (derivative c b) s)).
      { destruct (nullable a); [|now left].
        apply Matches_Choice_inv in H as [H | H]; [now left | now right]. }
      destruct Hcases as [(s1 & s2 & -> & Ha & Hb)%Matches_Concat_inv | [Hnull Hb]].
      * apply IHa in Ha. rewrite <- append_cons. now constructor.
      * apply IHb in Hb. apply nullable_Matches in Hnull.
        rewrite <- (append_nil (String c s)). now constructor.
    + intros (s1 & s2 & Heq & Ha & Hb)%Matches_Concat_inv.
      destruct s1 as [|d s1].
      * rewrite append_nil in Heq. subst s2.
        apply nullable_Matches in Ha. rewrite Ha.
        apply MatchesChoiceR. now apply IHb.
      * rewrite append_cons in Heq. injection Heq as <- ->.
        apply IHa in Ha.
        destruct (nullable a); [apply MatchesChoiceL|]; now constructor.
  - split.
    + intros [H | H]%Matches_Choice_inv;
        [apply MatchesChoiceL, IHa | apply MatchesChoiceR, IHb]; exact H.
    + intros [H | H]%Matches_Choice_inv;
        [apply MatchesChoiceL, IHa | apply MatchesChoiceR, IHb]; exact H.
  - split.
    + intros (s1 & s2 & -> & Ha & Hb)%Matches_Concat_inv.
      apply IHa in Ha. rewrite <- append_cons. now constructor.
    + intros H. apply Matches_Repeat_cons in H as (s1 & s2 & -> & Ha & Hstar).
      apply IHa in Ha. now constructor.
Qed.

Lemma matchesAtStart_Matches (r : Regex) (s : string) :
  matchesAtStart r s = true <-> exists m rest, s = m +:+ rest /\ Matches r m.
Proof.
  revert r. induction s as [|c s IH]; intros r; cbn [matchesAtStart].
  - rewrite orb_false_r, nullable_Matches. split.
    + intros H. now exists EmptyString, EmptyString.
    + intros (m & rest & Heq & H). symmetry in Heq.
      now apply append_is_empty in Heq as [-> _].
  - rewrite orb_true_iff, nullable_Matches, IH. split.
    + intros [H | (m & rest & -> & H)].
      * now exists EmptyString, (String c s).
      * exists (String c m), rest. split; [reflexivity|]. now apply derivative_Matches.
    + intros ([|d m] & rest & Heq & H); [now left|].
      rewrite append_cons in Heq. injection Heq as <- ->.
      right. exists m, rest. split; [reflexivity|]. now apply derivative_Matches.
Qed.

Lemma regexTest_Matches (r : Regex) (s : string) :
  regexTest r s = true <->
  exists before m rest, s = before +:+ m +:+ rest /\ Matches r m.
Proof.
  induction s as [|c s IH]; cbn [regexTest].
  - rewrite orb_false_r, matchesAtStart_Matches. split.
    + intros (m & rest & Heq & H). now exists EmptyString, m, rest.
    + intros (before & m & rest & Heq & H). symmetry in Heq.
      apply append_is_empty in Heq as [-> Heq]. now exists m, rest.
  - rewrite orb_true_iff, matchesAtStart_Matches, IH. split.
    + intros [(m & rest & Heq & H) | (before & m & rest & -> & H)].
      * now exists EmptyString, m, rest.
      * now exists (String c before), m, rest.
    + intros ([|d before] & m & rest & Heq & H).
      * left. now exists m, rest.
      * rewrite append_cons in Heq. injection Heq as <- ->.
        right. now exists before, m, rest.
Qed.

Lemma regexTest_context (r : Regex) (before s rest : string) :
  regexTest r s = true -> regexTest r (before +:+ s +:+ rest) = true.
Proof.
  rewrite !regexTest_Matches. intros (b & m & e & -> & H).
  exists (before +:+ b), m, (e +:+ rest). split; [|exact H].
  now rewrite !append_assoc.
Qed.

Lemma someChar_append (p : ascii -> bool) (a b : string) :
  someChar p (a +:+ b) = someChar p a || someChar p b.
Proof.
  induction a as [|c a IH]; [reflexivity|].
  rewrite append_cons. cbn [someChar]. now rewrite IH, orb_assoc.
Qed.

Lemma demandsDigit_Matches (r : Regex) (s : string) :
  Matches r s -> demandsDigit r = true -> someChar isDigit s = true.
Proof.
  induction 1 as [|p c Hc|a b s1 s2 _ IHa _ IHb|a b s _ IH|a b s _ IH| |a s1 s2 _ _ _ _];
    cbn [demandsDigit]; intros Hr; try discriminate Hr.
  - cbn [someChar]. rewrite orb_false_r.
    rewrite forallb_forall in Hr.
    specialize (Hr (nat_of_ascii c)). rewrite ascii_nat_embedding, Hc in Hr.
    apply Hr, in_seq. pose proof (nat_ascii_bounded c). lia.
  - rewrite someChar_append.
    apply orb_prop in Hr as [Hr | Hr]; [rewrite (IHa Hr) | rewrite (IHb Hr)];
      [reflexivity | apply orb_true_r].
  - apply andb_prop in Hr as [Hr _]. exact (IH Hr).
  - apply andb_prop in Hr as [_ Hr]. exact (IH Hr).
Qed.

(** X26.  A citation that passes the format check passes it with any text
    before and after it: the check looks for a pattern anywhere in the
    text. *)
Theorem isValidCitationFormat_in_context (before citation rest : string) :
  isValidCitationFormat (Some citation) = true ->
  isValidCitationFormat (Some (before +:+ citation +:+ rest)) = true.
Proof.
  unfold isValidCitationFormat. cbn [orNull]. unfold JS.truthyString.
  destruct (String.eqb_spec citation EmptyString) as [-> | Hne]; [discriminate|].
  cbn [negb]. intros H.
  destruct (String.eqb_spec (before +:+ citation +:+ rest) EmptyString) as [Hempty | _].
  - apply append_is_empty in Hempty as [_ Hempty].
    now apply append_is_empty in Hempty as [Hempty _].
  - cbn [negb]. apply existsb_exists in H as (pattern & Hin & Htest).
    apply existsb_exists. exists pattern. split; [exact Hin|].
    now apply regexTest_context.
Qed.

(** X27.  A citation that passes the format check is present and holds at
    least one digit. *)
Theorem isValidCitationFormat_needs_digit (citation : option string) :
  isValidCitationFormat citation = true ->
  exists text, citation = Some text /\ someChar isDigit text = true.
Proof.
  unfold isValidCitationFormat. destruct citation as [text|]; [|discriminate].
  cbn [orNull]. destruct (JS.truthyString text); [|discriminate].
  intros H. exists text. split; [reflexivity|].
  apply existsb_exists in H as (pattern & Hin & Htest).
  apply regexTest_Matches in Htest as (before & m & rest & -> & Hm).
  rewrite !someChar_append.
  assert (Hall : forallb demandsDigit validPatterns = true)
    by (vm_compute; reflexivity).
  pose proof (proj1 (forallb_forall _ _) Hall pattern Hin) as Hdemands.
  rewrite (demandsDigit_Matches pattern m Hm Hdemands).
  now rewrite orb_true_r.
Qed.

(** ** The grouping of citations *)

Lemma concat_Permutation {A : Type} (l l' : list (list A)) :
  l ≡ₚ l' -> concat l ≡ₚ concat l'.
Proof.
  induction 1 as [|x l l' _ IH|x y l|l l' l'' _ IH1 _ IH2]; cbn [concat].
  - reflexivity.
  - now rewrite IH.
  - rewrite !app_assoc. now rewrite (Permutation_app_comm x y).
  - now transitivity (concat l').
Qed.

Lemma insertByIndex_Permutation {A : Type} (x : N * A) (l : list (N * A)) :
  insertByIndex x l ≡ₚ x :: l.
Proof.
  induction l as [|y l IH]; [reflexivity|]. cbn [insertByIndex].
  destruct (y.1 <? x.1)%N; [|reflexivity].
  rewrite IH. apply Permutation_swap.
Qed.

Lemma objectValues_Permutation {A : Type} (entries : list (string * A)) :
  objectValues entries ≡ₚ entries.*2.
Proof.
  unfold objectValues. induction entries as [|[k v] entries IH]; [reflexivity|].
  cbn [omap list_omap List.filter fst snd].
  destruct (arrayIndex k) as [n|] eqn:Hk; cbn [fmap option_fmap option_map].
  - rewrite bool_decide_eq_false_2 by discriminate.
    cbn [foldr]. rewrite insertByIndex_Permutation.
    cbn [fmap list_fmap snd app]. now rewrite <- IH.
  - rewrite bool_decide_eq_true_2 by reflexivity.
    cbn [fmap list_fmap snd]. rewrite <- Permutation_middle. now rewrite <- IH.
Qed.

Lemma pushChunk_own (key : string) (chunk : Citation.t * nat)
    (groups : list (string * Group.t)) :
  hasOwn key groups = true ->
  exists before g after,
    groups = before ++ (key, g) :: after
    /\ pushChunk key chunk groups = Some (before ++ (key, Group.push g chunk) :: after).
Proof.
  induction groups as [|[k g] groups IH]; [discriminate|].
  cbn [hasOwn existsb pushChunk fst]. destruct (String.eqb k key) eqn:Hk.
  - intros _. apply String.eqb_eq in Hk as ->. now exists [], g, groups.
  - intros H. destruct (IH H) as (before & g' & after & -> & ->).
    now exists ((k, g) :: before), g', after.
Qed.

Lemma pushChunk_absent (key : string) (chunk : Citation.t * nat)
    (groups : list (string * Group.t)) (g : Group.t) :
  hasOwn key groups = false ->
  pushChunk key chunk groups = None
  /\ pushChunk key chunk (groups ++ [(key, g)])
     = Some (groups ++ [(key, Group.push g chunk)]).
Proof.
  induction groups as [|[k g'] groups IH].
  - intros _. cbn [pushChunk app]. now rewrite String.eqb_refl.
  - cbn [hasOwn existsb pushChunk fst app]. destruct (String.eqb k key); [discriminate|].
    intros H. destruct (IH H) as [-> ->]. now split.
Qed.

Lemma hasOwn_elem (key : string) (groups : list (string * Group.t)) :
  hasOwn key groups = true <-> key ∈ groups.*1.
Proof.
  induction groups as [|[k g] groups IH]; cbn [hasOwn existsb fmap list_fmap fst].
  - split; [discriminate | intros H; inversion H].
  - rewrite orb_true_iff, elem_of_cons, <- IH, String.eqb_eq. unfold hasOwn.
    split; (intros [H | H]; [left; congruence | now right]).
Qed.

Lemma wellGrouped_push (g : Group.t) (citation : Citation.t) (index : nat) :
  wellGrouped g ->
  Citation.document_id citation = Group.document_id g ->
  Forall (fun chunk => chunk.2 < index) (Group.chunks g) ->
  wellGrouped (Group.push g (citation, index))
  /\ Forall (fun chunk => chunk.2 < S index) (Group.chunks (Group.push g (citation, index))).
Proof.
  destruct g as [gid gtitle gmaster gchunks].
  intros ((first & rest & Hchunks & Htitle & Hmaster) & Hdoc & Hsorted) Hid Hbelow.
  unfold wellGrouped.
  cbn [Group.push Group.chunks Group.document_id Group.document_title
       Group.master_name] in *.
  split; [split; [|split]|].
  - exists first, (rest ++ [(citation, index)]). now rewrite Hchunks.
  - apply Forall_app. split; [exact Hdoc|]. now apply Forall_singleton.
  - rewrite fmap_app. apply StronglySorted_app_2;
      [|exact Hsorted | repeat constructor].
    intros x1 x2 Hx1 Hx2. apply list_elem_of_singleton in Hx2 as ->.
    apply list_elem_of_fmap in Hx1 as (chunk & -> & Hchunk).
    exact (proj1 (Forall_forall _ _) Hbelow chunk Hchunk).
  - apply Forall_app. split.
    + eapply Forall_impl; [exact Hbelow|]. cbv beta. lia.
    + apply Forall_singleton. cbn [snd]. lia.
Qed.

Lemma wellGrouped_first (citation : Citation.t) (index : nat) :
  let g := Group.push
             (Group.mk (Citation.document_id citation)
                (Citation.document_title citation)
                (Citation.master_name citation) [])
             (citation, index) in
  wellGrouped g /\ Forall (fun chunk => chunk.2 < S index) (Group.chunks g).
Proof.
  cbn. split; [split; [|split]|].
  - now exists (citation, index), [].
  - now apply Forall_singleton.
  - repeat constructor.
  - apply Forall_singleton. cbn [snd]. lia.
Qed.

Lemma grouped_entry_later (index : nat) (groups : list (string * Group.t)) :
  Forall (fun e => Group.document_id e.2 = e.1
                   /\ wellGrouped e.2
                   /\ Forall (fun chunk => chunk.2 < index) (Group.chunks e.2))
    groups ->
  Forall (fun e => Group.document_id e.2 = e.1
                   /\ wellGrouped e.2
                   /\ Forall (fun chunk => chunk.2 < S index) (Group.chunks e.2))
    groups.
Proof.
  intros H. eapply Forall_impl; [exact H|].
  intros e (Hid & Hwell & Hbelow). split; [exact Hid|].
  split; [exact Hwell|]. eapply Forall_impl; [exact Hbelow|]. cbv beta. lia.
Qed.

Lemma groupStep_grouped (index : nat) (done : list (Citation.t * nat))
    (groups : list (string * Group.t)) (citation : Citation.t) :
  grouped index done groups ->
  (Citation.document_id citation ∈ inheritedKeys ->
   groupStep groups index citation = None)
  /\ (Citation.document_id citation ∉ inheritedKeys ->
      exists groups',
        groupStep groups index citation = Some groups'
        /\ grouped (S index) (done ++ [(citation, index)]) groups').
Proof.
  intros (Hkeys & Hown & Hentries & Hdone). unfold groupStep.
  set (key := Citation.document_id citation).
  destruct (hasOwn key groups) eqn:Hhas; cbn [orb].
  - assert (Hnot : key ∉ inheritedKeys).
    { apply hasOwn_elem in Hhas. exact (proj1 (Forall_forall _ _) Hown key Hhas). }
    split; [intros Hin; contradiction|]. intros _.
    destruct (pushChunk_own key (citation, index) groups Hhas)
      as (before & g & after & -> & ->).
    eexists. split; [reflexivity|]. unfold grouped.
    rewrite !fmap_app, !fmap_cons in *. cbn [fst snd] in *.
    apply Forall_app in Hentries as [Hbefore Hafter].
    apply Forall_cons in Hafter as [(Hid & Hwell & Hbelow) Hafter].
    cbn [fst snd] in Hid, Hwell, Hbelow.
    destruct (wellGrouped_push g citation index Hwell) as [Hwell' Hbelow'];
      [now rewrite Hid | exact Hbelow |].
    split; [exact Hkeys|]. split; [exact Hown|]. split.
    + apply Forall_app. split; [now apply grouped_entry_later|].
      apply Forall_cons. split; [|now apply grouped_entry_later].
      cbn [fst snd]. now split.
    + rewrite concat_app in *. cbn [concat Group.push Group.chunks] in *.
      rewrite <- Hdone. solve_Permutation.
  - destruct (bool_decide (key ∈ inheritedKeys)) eqn:Hinh.
    + apply bool_decide_eq_true in Hinh. split; [|intros Hnot; contradiction].
      intros _. set (dummy := Group.mk key EmptyString EmptyString []).
      exact (proj1 (pushChunk_absent key (citation, index) groups dummy Hhas)).
    + apply bool_decide_eq_false in Hinh. split; [intros Hin; contradiction|].
      intros _. eexists.
      split; [exact (proj2 (pushChunk_absent key (citation, index) groups _ Hhas))|].
      destruct (wellGrouped_first citation index) as [Hwell Hbelow].
      unfold grouped. rewrite !fmap_app. cbn [fmap list_fmap fst snd].
      split; [|split; [|split]].
      * apply NoDup_app. split; [exact Hkeys|]. split; [|apply NoDup_singleton].
        intros k Hk ->%list_elem_of_singleton.
        apply hasOwn_elem in Hk. congruence.
      * apply Forall_app. split; [exact Hown|]. now apply Forall_singleton.
      * apply Forall_app. split; [now apply grouped_entry_later|].
        apply Forall_singleton. cbn [fst snd]. now split.
      * rewrite concat_app. cbn [concat Group.push Group.chunks app].
        rewrite <- Hdone. solve_Permutation.
Qed.

Lemma indexedFrom_zip (index : nat) (citations : list Citation.t) :
  indexedFrom index citations = zip citations (seq index (length citations)).
Proof.
  revert index. induction citations as [|c citations IH]; intros index; [reflexivity|].
  cbn [indexedFrom length seq zip zip_with]. now rewrite IH.
Qed.

Lemma forEachFrom_grouped (citations : list Citation.t) (index : nat)
    (done : list (Citation.t * nat)) (groups : list (string * Group.t)) :
  grouped index done groups ->
  match forEachFrom index citations groups with
  | Some groups' =>
      Forall (fun c => Citation.document_id c ∉ inheritedKeys) citations
      /\ grouped (index + length citations) (done ++ indexedFrom index citations) groups'
  | None => Exists (fun c => Citation.document_id c ∈ inheritedKeys) citations
  end.
Proof.
  revert index done groups.
  induction citations as [|c citations IH]; intros index done groups Hgrouped.
  - cbn [forEachFrom indexedFrom length]. rewrite Nat.add_0_r, app_nil_r.
    split; [constructor | exact Hgrouped].
  - cbn [forEachFrom indexedFrom length].
    destruct (groupStep_grouped index done groups c Hgrouped) as [Hthrows Hsteps].
    destruct (decide (Citation.document_id c ∈ inheritedKeys)) as [Hin | Hnot].
    + rewrite (Hthrows Hin). cbn. now apply Exists_cons_hd.
    + destruct (Hsteps Hnot) as (groups' & -> & Hgrouped'). cbn [mbind option_bind].
      specialize (IH (S index) _ _ Hgrouped').
      destruct (forEachFrom (S index) citations groups') as [groups''|].
      * destruct IH as [Hall Hfinal]. split; [now apply Forall_cons|].
        rewrite <- app_assoc in Hfinal. cbn [app] in Hfinal.
        now rewrite Nat.add_succ_r.
      * now apply Exists_cons_tl.
Qed.

(** X28.  [groupedCitations] throws exactly when some citation has a
    document id that names an inherited property of objects.  Otherwise the
    groups have distinct document ids; each group has at least one passage,
    the title and category of its first passage, passages of its own
    document only, and their original indices ascending; and the passages
    of all groups together are the citations with their indices, each exactly
    once. *)
Theorem groupedCitations_partitions (citations : list Citation.t) :
  match groupedCitations (Some citations) with
  | Some groups =>
      Forall (fun c => Citation.document_id c ∉ inheritedKeys) citations
      /\ NoDup (Group.document_id <$> groups)
      /\ Forall wellGrouped groups
      /\ concat (Group.chunks <$> groups)
         ≡ₚ zip citations (seq 0 (length citations))
  | None => Exists (fun c => Citation.document_id c ∈ inheritedKeys) citations
  end.
Proof.
  unfold groupedCitations.
  assert (Hstart : grouped 0 [] []).
  { repeat split; try constructor. }
  pose proof (forEachFrom_grouped citations 0 [] [] Hstart) as H.
  destruct (forEachFrom 0 citations []) as [entries|]; cbn [fmap option_fmap option_map]; [|exact H].
  destruct H as (Hall & Hkeys & _ & Hentries & Hdone).
  pose proof (objectValues_Permutation entries) as Hvalues.
  split; [exact Hall|]. split; [|split].
  - rewrite Hvalues.
    replace (Group.document_id <$> entries.*2) with entries.*1; [exact Hkeys|].
    clear -Hentries. induction Hentries as [|[k g] entries (Hid & _) _ IH]; [reflexivity|].
    cbn [fmap list_fmap fst snd] in *. now rewrite Hid, IH.
  - rewrite Hvalues. apply Forall_fmap.
    eapply Forall_impl; [exact Hentries|]. now intros e (_ & Hwell & _).
  - rewrite (concat_Permutation _ _ (fmap_Permutation Group.chunks _ _ Hvalues)).
    now rewrite Hdone, indexedFrom_zip.
Qed.

(** ** Concrete runs of the further properties *)

Lemma validateQuestion_accepts_only_witness :
  5 <= String.length (JS.trim Demo.question) <= 5000
  /\ forall keyword, keyword ∈ offTopicKeywords ->
       JS.includesCI keyword Demo.question = false.
Proof.
  apply (validateQuestion_accepts_only Demo.question). vm_compute. reflexivity.
Defined.

(** The completion of the test doubles, and the same followed by a second
    separator and more text. *)
Lemma parseModelResponse_reads_two_sections_witness :
  p_summary (parseModelResponse Demo.completion)
  = "Bail is the release of an accused person."
  /\ parseModelResponse
       (Demo.completion +:+ SECTION_SEPARATOR +:+ "An afterthought.")
     = parseModelResponse Demo.completion.
Proof.
  destruct (parseModelResponse_reads_two_sections
              "Bail is the release of an accused person."
              ("## Legal Issue" +:+ JS.newline +:+ "Bail under the Code.")
              "An afterthought.") as (Hsummary & _ & Hrest);
    [vm_compute; reflexivity | vm_compute; reflexivity |].
  split; [exact Hsummary | exact Hrest].
Defined.

Lemma calculateReadingTime_of_words_witness :
  calculateReadingTime "Bail is the rule" = "< 1 min read".
Proof.
  apply (calculateReadingTime_of_words ["Bail"; "is"; "the"; "rule"]).
  - repeat constructor; discriminate.
  - discriminate.
Defined.

Lemma estimateCost_positive_witness :
  (0 < estimateCost "openai/gpt-4o" 1000)%Q.
Proof.
  apply (estimateCost_positive "openai/gpt-4o" 1000).
  - apply (bool_decide_unpack _). vm_compute. reflexivity.
  - lia.
Defined.

(** The search for the question reports an error and carries the pool: the
    pool is not among the chunks found. *)
Lemma searchAll_tolerates_failed_searches_witness :
  Cases.searchedWithError.1.1
  = Resolved [Demo.chunk "c" "doc-3" 0.5 "A third passage."]
  /\ exists chunks,
       Cases.searchedWithError.1.1 = Resolved chunks
       /\ chunks
          = [] ++ searchContributions Cases.erroringSearch
                    (generateSearchQueries Demo.question) 0
       /\ [] `prefix_of` chunks
       /\ embeddedTexts Cases.searchedWithError.2 = generateSearchQueries Demo.question
       /\ length Cases.searchedWithError.2
          = 2 * length (generateSearchQueries Demo.question).
Proof.
  split; [vm_compute; reflexivity|].
  eexists. split; [vm_compute; reflexivity|].
  apply (searchAll_tolerates_failed_searches Cases.erroringSearch
           (generateSearchQueries Demo.question) [] 0 Cases.searchedWithError.1.2
           (Resolved _) Cases.searchedWithError.2).
  vm_compute. reflexivity.
Defined.

Lemma retrieveChunks_embeds_question_twice_witness :
  embeddedTexts Cases.scopedRetrieval.2
  = Demo.question :: generateSearchQueries Demo.question
  /\ (exists variants,
        embeddedTexts Cases.scopedRetrieval.2
        = Demo.question :: Demo.question :: variants)
  /\ 3 <= length (embeddedTexts Cases.scopedRetrieval.2) <= 14.
Proof.
  eapply (retrieveChunks_embeds_question_twice Demo.healthy Demo.question
            (Demo.onlyDocuments ["doc-2"]) 0 Cases.scopedRetrieval.1.2).
  vm_compute. reflexivity.
Defined.

Lemma retrieved_chunks_are_ranked_and_scoped_witness :
  exists emb enhanced,
    Cases.scopedRetrieval.1.1 = Resolved (emb, enhanced)
    /\ NoDup (Chunk.id <$> enhanced)
    /\ StronglySorted similarityDescending enhanced
    /\ forall d ds,
         Some ["doc-2"] = Some (d :: ds) ->
         forall c, c ∈ enhanced -> Chunk.document_id c ∈ d :: ds.
Proof.
  eexists _, _. split; [vm_compute; reflexivity|].
  eapply (retrieved_chunks_are_ranked_and_scoped Demo.healthy Demo.question
            (Demo.onlyDocuments ["doc-2"]) 0 Cases.scopedRetrieval.1.2).
  vm_compute. reflexivity.
Defined.

Lemma fallback_chain_one_request_per_model_witness :
  completionCalls Demo.generated.2 `prefix_of` modelPriority
  /\ length (completionCalls Demo.generated.2) <= 8
  /\ length (failedAttempts Demo.generated.2) + 1
     = length (completionCalls Demo.generated.2).
Proof.
  apply (fallback_chain_one_request_per_model Demo.twoDown Demo.question
           Demo.pool 7 0 Demo.generated.1.2 (Resolved Demo.generatedResponse)).
  vm_compute. reflexivity.
Defined.

Lemma citations_files_and_signing_witness :
  signUrlCalls Cases.filedGeneration.2 = ["files/doc-1.PDF"]
  /\ exists response cited,
       Cases.filedGeneration.1.1 = Resolved response
       /\ citations response = Some cited
       /\ Forall2 filed Cases.filedPool cited.
Proof.
  destruct (citations_files_and_signing Demo.twoDown Demo.question
              Cases.filedPool 7 0 Cases.filedGeneration.1.2
              (Resolved (match Cases.filedGeneration.1.1 with
                         | Resolved response => response
                         | Rejected error => failure error
                         end))
              Cases.filedGeneration.2) as (Hsigned & cited & Hcited & Hfiled);
    [vm_compute; reflexivity|].
  split; [exact Hsigned|]. eexists _, cited.
  split; [vm_compute; reflexivity|]. split; [exact Hcited | exact Hfiled].
Defined.

Lemma askQuestion_catches_retrieval_errors_witness :
  askQuestion Cases.embeddingDown Demo.question Demo.noOptions 0
  = (Resolved (failure (msgErrorPrefix +:+ "embedding service unavailable")), 1,
     [EvEmbed Demo.question None])
  /\ completionCalls [EvEmbed Demo.question None] = []
  /\ usageLogs [EvEmbed Demo.question None] = [].
Proof.
  apply (askQuestion_catches_retrieval_errors Cases.embeddingDown Demo.question
           Demo.noOptions 0 1 "embedding service unavailable"
           [EvEmbed Demo.question None]).
  - vm_compute. reflexivity.
  - vm_compute. reflexivity.
Defined.

Lemma askQuestion_without_any_chunk_witness :
  exists w' t,
    askQuestion Cases.emptyCorpus Demo.question Demo.noOptions 0
    = (Resolved (failure msgNoneAtAll), w', t)
    /\ completionCalls t = [].
Proof.
  pose (run := retrieveChunks Cases.emptyCorpus Demo.question Demo.noOptions 0).
  eexists _, _.
  apply (askQuestion_without_any_chunk Cases.emptyCorpus Demo.question
           Demo.noOptions 0 run.1.2
           {| embedding := Demo.question; tokenCount := 7 |} run.2);
    vm_compute; reflexivity.
Defined.

Lemma askQuestion_result_is_tagged_witness :
  (success Demo.answeredResponse = false
   /\ exists msg, Demo.answeredResponse = failure msg /\ msg <> EmptyString)
  \/ (success Demo.answeredResponse = true
      /\ exists (tokens : Z) c cs name,
           name ∈ modelPriority
           /\ generatedBy Demo.question (c :: cs) tokens name Demo.answeredResponse).
Proof.
  apply (askQuestion_result_is_tagged Demo.healthy Demo.question Demo.noOptions
           0 Demo.answered.1.2 Demo.answeredResponse Demo.answered.2).
  vm_compute. reflexivity.
Defined.

Lemma askQuestion_rejects_only_after_fallback_witness :
  nonEmptySelection (selectedDocumentIds Demo.noOptions) = false
  /\ nonEmptySelection (selectedMasters Demo.noOptions) = false
  /\ EvRecentChunks ∈ Cases.exhausted.2
  /\ completionCalls Cases.exhausted.2 = modelPriority
  /\ usageLogs Cases.exhausted.2 = []
  /\ exists lastError,
       "All models failed. Last error: API error: 503 - overloaded: meta-llama/llama-3.1-8b-instruct:free"
       = msgAllFailedPrefix +:+ lastError.
Proof.
  apply (askQuestion_rejects_only_after_fallback Demo.outage Demo.question
           Demo.noOptions 0 Cases.exhausted.1.2).
  vm_compute. reflexivity.
Defined.

Lemma isValidCitationFormat_in_context_witness :
  isValidCitationFormat (Some ("See " +:+ "(2023) 5 SCC 123" +:+ ", para 4")) = true.
Proof.
  apply (isValidCitationFormat_in_context "See " "(2023) 5 SCC 123" ", para 4").
  vm_compute. reflexivity.
Defined.

Lemma isValidCitationFormat_needs_digit_witness :
  exists text, Some "AIR 2023 SC 123" = Some text /\ someChar isDigit text = true.
Proof.
  apply (isValidCitationFormat_needs_digit (Some "AIR 2023 SC 123")).
  vm_compute. reflexivity.
Defined.

Lemma parseModelResponse_drops_part_labels_witness :
  p_summary
    (parseModelResponse
       (("**Part 1:" +:+ " Summary" +:+ "**" +:+ " Bail is a right. ")
        +:+ SECTION_SEPARATOR
        +:+ ("**PART 2:" +:+ " Detail" +:+ "**" +:+ " Bail under the Code.")))
  = JS.trim " Bail is a right. "
  /\ p_answer
       (parseModelResponse
          (("**Part 1:" +:+ " Summary" +:+ "**" +:+ " Bail is a right. ")
           +:+ SECTION_SEPARATOR
           +:+ ("**PART 2:" +:+ " Detail" +:+ "**" +:+ " Bail under the Code.")))
     = JS.trim " Bail under the Code.".
Proof.
  apply (parseModelResponse_drops_part_labels "**Part 1:" " Summary"
           " Bail is a right. " "**PART 2:" " Detail" " Bail under the Code.");
    vm_compute; reflexivity.
Defined.

Lemma logged_cost_adds_answer_estimate_witness :
  exists entry name usage,
    usageLogs Demo.answered.2 = [entry]
    /\ name ∈ modelPriority
    /\ model <$> metadata Demo.answeredResponse = Some name
    /\ tokenUsage Demo.answeredResponse = Some usage
    /\ estimatedCost Demo.answeredResponse
       = Some (estimateCost name (tu_grandTotal usage))
    /\ LogEntry.model entry = name
    /\ LogEntry.completion_tokens entry
       = Z.of_nat (Num.ceilDiv
                     (String.length (default EmptyString (answer Demo.answeredResponse))) 4)
    /\ LogEntry.total_tokens entry
       = (tu_grandTotal usage + LogEntry.completion_tokens entry)%Z
    /\ LogEntry.estimated_cost entry
       = estimateCost name (tu_grandTotal usage + LogEntry.completion_tokens entry).
Proof.
  apply (logged_cost_adds_answer_estimate Demo.healthy Demo.question
           Demo.noOptions 0 Demo.answered.1.2 Demo.answeredResponse
           Demo.answered.2).
  - vm_compute. reflexivity.
  - vm_compute. reflexivity.
  - apply no_fallback_retrieval. vm_compute. reflexivity.
Defined.
